(** * Agentic literature review: storage, deduplication, screening,
      snowballing, relevance and quality workers

    A shallow embedding of the pipeline core of the repository
    ([data/database.py], [agents/search_agent.py],
    [agents/screening_agent.py], [agents/snowballing_agent.py],
    [agents/relevance_agent.py], [agents/quality_agent.py],
    [agents/orchestrator.py], [utils/llm.py], [data/openalex_client.py])
    together with the properties its specification states about them and
    further properties read off the code.

    Conventions of the embedding.
    - Python [str] values are Rocq strings (one character per byte); the
      case mappings and the character classes are the ASCII ones.
    - A value that may be [None] (a NULL column, an absent dict key) is an
      [option].
    - JSON numbers and Python floats are the rationals they denote.
    - The [papers] table is the list of its rows in insertion order; the
      primary key is the well-formedness predicate [store_ok].
    - The remote services (LLM, citation catalog) are oracles handed to
      the operations: what they answer is an input of the model. *)

From Stdlib Require Import ZArith QArith Qround Ascii String List Bool Lia.
From Stdlib Require Import DecimalString Qminmax Lqa.
From stdpp Require Import base decidable option list sorting gmap strings.

Local Open Scope string_scope.
Local Open Scope nat_scope.
Local Open Scope list_scope.

(** ** Python string operations *)

Module Py.

Definition code (c : ascii) : nat := nat_of_ascii c.

Definition is_upper (c : ascii) : bool := (65 <=? code c) && (code c <=? 90).
Definition is_lower (c : ascii) : bool := (97 <=? code c) && (code c <=? 122).
Definition is_digit (c : ascii) : bool := (48 <=? code c) && (code c <=? 57).
Definition is_alnum (c : ascii) : bool := is_upper c || is_lower c || is_digit c.

(** [str.isspace] on the ASCII range: TAB..CR, FS..US and the blank. *)
Definition is_space (c : ascii) : bool :=
  ((9 <=? code c) && (code c <=? 13)) || ((28 <=? code c) && (code c <=? 32)).

(** The regex class [\w]. *)
Definition is_word (c : ascii) : bool := is_alnum c || (code c =? 95).

Definition lower_char (c : ascii) : ascii :=
  if is_upper c then ascii_of_nat (code c + 32) else c.
Definition upper_char (c : ascii) : ascii :=
  if is_lower c then ascii_of_nat (code c - 32) else c.

Definition chars (s : string) : list ascii := list_ascii_of_string s.
Definition str (l : list ascii) : string := string_of_list_ascii l.

Definition lower (s : string) : string := str (map lower_char (chars s)).
Definition upper (s : string) : string := str (map upper_char (chars s)).

Fixpoint lstrip (l : list ascii) : list ascii :=
  match l with
  | c :: l' => if is_space c then lstrip l' else l
  | [] => []
  end.

(** [s.strip()] *)
Definition strip (s : string) : string :=
  str (rev (lstrip (rev (lstrip (chars s))))).

(** [s.split()]: the maximal runs of non-blank characters. *)
Fixpoint split_aux (cur : list ascii) (l : list ascii) : list string :=
  match l with
  | [] => match cur with [] => [] | _ => [str (rev cur)] end
  | c :: l' =>
      if is_space c
      then match cur with
           | [] => split_aux [] l'
           | _ => str (rev cur) :: split_aux [] l'
           end
      else split_aux (c :: cur) l'
  end.
Definition split (s : string) : list string := split_aux [] (chars s).

(** Truth value of an optional string: [None] and [""] are falsy. *)
Definition truthy (o : option string) : bool :=
  match o with
  | Some s => negb (String.eqb s "")
  | None => false
  end.

(** [o or ""] *)
Definition or_empty (o : option string) : string :=
  match o with
  | Some s => s
  | None => ""
  end.

(** [round(x)] of a float: to the nearest integer, ties to even. *)
Definition round_half_even (x : Q) : Z :=
  let f := Qfloor x in
  match Qcompare (x - inject_Z f)%Q (1 # 2) with
  | Lt => f
  | Gt => (f + 1)%Z
  | Eq => if Z.even f then f else (f + 1)%Z
  end.

(** [round(x, 1)] *)
Definition round1 (x : Q) : Q := (inject_Z (round_half_even (x * 10)) / 10)%Q.

(** Python's [min(a, b)] and [max(a, b)]: the first argument unless the
    second is strictly smaller (larger). *)
Definition min (a b : Q) : Q := if Qlt_le_dec b a then b else a.
Definition max (a b : Q) : Q := if Qlt_le_dec a b then b else a.

End Py.

(** ** Data model *)

(** [p.get(col) == v] for a nullable text column. *)
Definition col_eq (col : option string) (v : string) : bool :=
  match col with
  | Some c => String.eqb c v
  | None => false
  end.


(** A normalised document as the catalog clients return it
    ([_parse_work], [_parse_paper]).  Only the keys the modelled
    operations read are kept. *)
Record paper := mk_paper {
  p_id : string;
  p_doi : option string;
  p_title : string;
  p_abstract : option string;
  p_citation_count : option Z;
  p_openalex_id : option string;
  p_found_via : option string
}.

(** A row of the [papers] table: the document columns and the nullable
    pipeline columns. *)
Record row := mk_row {
  row_id : string;
  doi : option string;
  title : string;
  abstract : option string;
  citation_count : option Z;
  openalex_id : option string;
  found_via : string;
  screening_pass1 : option string;
  screening_pass1_reason : option string;
  screening_pass1_confidence : option Q;
  human_decision : option string;
  quality_score : option Q;
  quality_notes : option string;
  quality_flag : option string;
  relevance_score : option Q;
  final_status : option string
}.

Definition store := list row.

(** ** data/database.py *)

Module database.

(** The row [INSERT INTO papers (...)] creates: every pipeline column is
    NULL, [found_via] defaults to ['search']. *)
Definition new_row (p : paper) : row :=
  {| row_id := p_id p; doi := p_doi p; title := p_title p;
     abstract := p_abstract p; citation_count := p_citation_count p;
     openalex_id := p_openalex_id p;
     found_via := default "search" (p_found_via p);
     screening_pass1 := None; screening_pass1_reason := None;
     screening_pass1_confidence := None; human_decision := None;
     quality_score := None; quality_notes := None; quality_flag := None;
     relevance_score := None; final_status := None |}.

(** [SELECT id FROM papers WHERE id = ?] finds a row. *)
Definition exists_id (s : store) (i : string) : bool :=
  existsb (fun r => String.eqb (row_id r) i) s.

(** One iteration of the loop of [upsert_papers]. *)
Definition upsert_step (acc : store * nat) (p : paper) : store * nat :=
  let '(s, inserted) := acc in
  if exists_id s (p_id p) then (s, inserted)
  else (s ++ [new_row p], S inserted).

Definition upsert_papers (s : store) (papers : list paper) : store * nat :=
  fold_left upsert_step papers (s, 0).

(** [UPDATE papers SET ... WHERE id = ?]: the SET clause is the function
    [set]. *)
Definition update_paper (s : store) (paper_id : string) (set : row -> row)
  : store :=
  map (fun r => if String.eqb (row_id r) paper_id then set r else r) s.

(** The SET clauses the agents use. *)
Definition set_screening (d : string) (reason : string) (conf : Q) (r : row)
  : row :=
  {| row_id := row_id r; doi := doi r; title := title r;
     abstract := abstract r; citation_count := citation_count r;
     openalex_id := openalex_id r; found_via := found_via r;
     screening_pass1 := Some d; screening_pass1_reason := Some reason;
     screening_pass1_confidence := Some conf;
     human_decision := human_decision r;
     quality_score := quality_score r; quality_notes := quality_notes r;
     quality_flag := quality_flag r; relevance_score := relevance_score r;
     final_status := final_status r |}.

Definition set_final_status (v : option string) (r : row) : row :=
  {| row_id := row_id r; doi := doi r; title := title r;
     abstract := abstract r; citation_count := citation_count r;
     openalex_id := openalex_id r; found_via := found_via r;
     screening_pass1 := screening_pass1 r;
     screening_pass1_reason := screening_pass1_reason r;
     screening_pass1_confidence := screening_pass1_confidence r;
     human_decision := human_decision r;
     quality_score := quality_score r; quality_notes := quality_notes r;
     quality_flag := quality_flag r; relevance_score := relevance_score r;
     final_status := v |}.

Definition set_pass1_and_final (d : string) (v : option string) (r : row)
  : row :=
  {| row_id := row_id r; doi := doi r; title := title r;
     abstract := abstract r; citation_count := citation_count r;
     openalex_id := openalex_id r; found_via := found_via r;
     screening_pass1 := Some d;
     screening_pass1_reason := screening_pass1_reason r;
     screening_pass1_confidence := screening_pass1_confidence r;
     human_decision := human_decision r;
     quality_score := quality_score r; quality_notes := quality_notes r;
     quality_flag := quality_flag r; relevance_score := relevance_score r;
     final_status := v |}.

Definition set_human_decision (d : string) (r : row) : row :=
  {| row_id := row_id r; doi := doi r; title := title r;
     abstract := abstract r; citation_count := citation_count r;
     openalex_id := openalex_id r; found_via := found_via r;
     screening_pass1 := screening_pass1 r;
     screening_pass1_reason := screening_pass1_reason r;
     screening_pass1_confidence := screening_pass1_confidence r;
     human_decision := Some d;
     quality_score := quality_score r; quality_notes := quality_notes r;
     quality_flag := quality_flag r; relevance_score := relevance_score r;
     final_status := final_status r |}.

Definition set_quality (score : Q) (notes flag : string) (r : row)
  : row :=
  {| row_id := row_id r; doi := doi r; title := title r;
     abstract := abstract r; citation_count := citation_count r;
     openalex_id := openalex_id r; found_via := found_via r;
     screening_pass1 := screening_pass1 r;
     screening_pass1_reason := screening_pass1_reason r;
     screening_pass1_confidence := screening_pass1_confidence r;
     human_decision := human_decision r;
     quality_score := Some score; quality_notes := Some notes;
     quality_flag := Some flag; relevance_score := relevance_score r;
     final_status := final_status r |}.

Definition set_relevance (score : Q) (r : row) : row :=
  {| row_id := row_id r; doi := doi r; title := title r;
     abstract := abstract r; citation_count := citation_count r;
     openalex_id := openalex_id r; found_via := found_via r;
     screening_pass1 := screening_pass1 r;
     screening_pass1_reason := screening_pass1_reason r;
     screening_pass1_confidence := screening_pass1_confidence r;
     human_decision := human_decision r;
     quality_score := quality_score r; quality_notes := quality_notes r;
     quality_flag := quality_flag r; relevance_score := Some score;
     final_status := final_status r |}.

(** [col = ?] in a WHERE clause: never true of a NULL column; an absent
    filter ([None]) puts no condition. *)
Definition col_matches (filter : option string) (col : option string) : bool :=
  match filter with
  | None => true
  | Some v => match col with
              | Some c => String.eqb c v
              | None => false
              end
  end.

(** [ORDER BY citation_count DESC NULLS LAST] *)
Definition cites_before (a b : row) : bool :=
  match citation_count a, citation_count b with
  | Some x, Some y => (y <=? x)%Z
  | Some _, None => true
  | None, Some _ => false
  | None, None => true
  end.

Definition get_papers (s : store) (final_status_filter pass1 : option string)
  : list row :=
  merge_sort (fun a b => Is_true (cites_before a b))
    (List.filter
       (fun r => col_matches final_status_filter (final_status r)
                 && col_matches pass1 (screening_pass1 r)) s).

Definition count_where (f : row -> bool) (s : store) : Z :=
  Z.of_nat (length (List.filter f s)).

Record counts := mk_counts {
  c_total : Z; c_included : Z; c_excluded : Z; c_borderline : Z;
  c_unscreened : Z
}.

Definition is_status (v : string) (r : row) : bool :=
  col_matches (Some v) (final_status r).

Definition count_papers (s : store) : counts :=
  let total := Z.of_nat (length s) in
  let included := count_where (is_status "INCLUDED") s in
  let excluded := count_where (is_status "EXCLUDED") s in
  let borderline :=
    count_where (fun r => col_matches (Some "BORDERLINE") (screening_pass1 r)
                          && negb (bool_decide (is_Some (human_decision r)))) s in
  {| c_total := total; c_included := included; c_excluded := excluded;
     c_borderline := borderline;
     c_unscreened := (total - included - excluded - borderline)%Z |}.

End database.

(** What a remote call does: it raises, or it returns a parsed answer. *)
Inductive reply (A : Type) : Type :=
  | Raised : reply A
  | Replied : A -> reply A.
Arguments Raised {A}.
Arguments Replied {A} _.

(** ** config.py *)

Module config.
Definition DEFAULT_TARGET_CORPUS_SIZE : Z := 50.
Definition DEFAULT_MAX_SNOWBALL_ROUNDS : Z := 3.
Definition DEFAULT_MIN_YIELD_RATE : Q := 2 # 100.
Definition DEFAULT_MAX_CANDIDATES_PER_ROUND : nat := 2000.
Definition DEFAULT_SCREENING_BATCH_SIZE : nat := 20.
End config.

(** ** agents/search_agent.py *)

Module SearchAgent.

(** The characters [re.sub(r"[^a-z0-9]", "", _)] keeps. *)
Definition key_char (c : ascii) : bool := Py.is_lower c || Py.is_digit c.

Definition _title_key (t : string) : string :=
  Py.str (take 60 (List.filter key_char (map Py.lower_char (Py.chars t)))).

(** [(p.get("doi") or "").lower().strip()] *)
Definition doi_key (p : paper) : string :=
  Py.strip (Py.lower (Py.or_empty (p_doi p))).

Record dedup_state := mk_dedup {
  unique : list paper;
  seen_dois : gset string;
  seen_titles : gset string
}.

(** The test that sends a document to [continue]. *)
Definition dropped (seen_d seen_t : gset string) (p : paper) : bool :=
  (negb (String.eqb (doi_key p) "") && bool_decide (doi_key p ∈ seen_d))
  || bool_decide (_title_key (p_title p) ∈ seen_t).

Definition dedup_step (st : dedup_state) (p : paper) : dedup_state :=
  let doi := doi_key p in
  let title_key := _title_key (p_title p) in
  if negb (String.eqb doi "") && bool_decide (doi ∈ seen_dois st) then st
  else if bool_decide (title_key ∈ seen_titles st) then st
  else {| unique := unique st ++ [p];
          seen_dois := if negb (String.eqb doi "")
                       then {[doi]} ∪ seen_dois st else seen_dois st;
          seen_titles := {[title_key]} ∪ seen_titles st |}.

(** [_deduplicate]: the list it returns and the two sets it has mutated. *)
Definition _deduplicate (papers : list paper) (seen_d seen_t : gset string)
  : dedup_state :=
  fold_left dedup_step papers
    {| unique := []; seen_dois := seen_d; seen_titles := seen_t |}.

(** State of [run] between two queries; [kept] collects what
    [_deduplicate] returned so far. *)
Record search_state := mk_search {
  conn : store;
  total_inserted : nat;
  stage_dois : gset string;
  stage_titles : gset string;
  kept : list paper
}.

(** One query: [None] when the catalog call raised (the [except] branch
    only logs), otherwise the documents it returned. *)
Definition query_step (st : search_state) (result : option (list paper))
  : search_state :=
  match result with
  | None => st
  | Some papers =>
      let d := _deduplicate papers (stage_dois st) (stage_titles st) in
      let '(s', n) := database.upsert_papers (conn st) (unique d) in
      {| conn := s'; total_inserted := total_inserted st + n;
         stage_dois := seen_dois d; stage_titles := seen_titles d;
         kept := kept st ++ unique d |}
  end.

(** [run]: the OpenAlex queries, then the Semantic Scholar ones. *)
Definition run (s : store) (openalex semantic_scholar : list (option (list paper)))
  : search_state :=
  fold_left query_step (openalex ++ semantic_scholar)
    {| conn := s; total_inserted := 0; stage_dois := ∅; stage_titles := ∅;
       kept := [] |}.

End SearchAgent.

(** ** agents/screening_agent.py *)

Module ScreeningAgent.

(** One element of the ["decisions"] array of a screening response. *)
Record decision := mk_decision {
  d_id : option string;
  d_decision : option string;
  d_reason : option string;
  d_confidence : option Q
}.

(** The parsed response: the value under ["decisions"], if present. *)
Definition response := option (list decision).

(** What the commit pass writes for one decision. *)
Record outcome := mk_outcome {
  o_id : string;
  o_decision : string;
  o_reason : string;
  o_confidence : Q
}.

(** What can be observed of a run: a worker handed back its result, or
    the commit pass wrote an outcome. *)
Inductive event :=
  | Completed (batch : nat)
  | Written (o : outcome).

Record pass1_counts := mk_pass1 { include : nat; exclude : nat; borderline : nat }.

Record pass1_result := mk_result {
  r_store : store;
  r_counts : pass1_counts;
  r_events : list event
}.

Definition api_error (p : row) : decision :=
  {| d_id := Some (row_id p); d_decision := Some "BORDERLINE";
     d_reason := Some "API error"; d_confidence := Some (50 # 1) |}.

Definition screen_batch (remote : reply response) (batch : list row)
  : list decision :=
  match remote with
  | Replied result => default [] result
  | Raised => map api_error batch
  end.

(** [unscreened[i : i + batch_size] for i in range(0, len(unscreened), batch_size)] *)
Definition make_batches (batch_size : nat) (unscreened : list row)
  : list (list row) :=
  map (fun k => take batch_size (drop (k * batch_size) unscreened))
      (seq 0 ((length unscreened + batch_size - 1) / batch_size)).

Definition unscreened (s : store) : list row :=
  List.filter (fun p => negb (Py.truthy (screening_pass1 p)))
              (database.get_papers s None None).

(** [d.get("decision", "BORDERLINE").upper()], coerced to one of the three
    labels. *)
Definition label (d : decision) : string :=
  let decision := Py.upper (default "BORDERLINE" (d_decision d)) in
  if String.eqb decision "INCLUDE" || String.eqb decision "EXCLUDE"
     || String.eqb decision "BORDERLINE"
  then decision else "BORDERLINE".

Definition outcome_of (pid : string) (d : decision) : outcome :=
  {| o_id := pid; o_decision := label d;
     o_reason := default "" (d_reason d);
     o_confidence := default (50 # 1) (d_confidence d) |}.

Record commit_state := mk_commit {
  c_store : store;
  c_counts : pass1_counts;
  c_written : list outcome
}.

(** One iteration of the commit loop. *)
Definition commit_step (st : commit_state) (d : decision) : commit_state :=
  if negb (Py.truthy (d_id d)) then st
  else
    let pid := Py.or_empty (d_id d) in
    let o := outcome_of pid d in
    let s1 := database.update_paper (c_store st) pid
                (database.set_screening (o_decision o) (o_reason o)
                   (o_confidence o)) in
    let n := c_counts st in
    if String.eqb (o_decision o) "INCLUDE" then
      {| c_store := s1;
         c_counts := {| include := S (include n); exclude := exclude n;
                        borderline := borderline n |};
         c_written := c_written st ++ [o] |}
    else if String.eqb (o_decision o) "EXCLUDE" then
      {| c_store := database.update_paper s1 pid
                      (database.set_final_status (Some "EXCLUDED"));
         c_counts := {| include := include n; exclude := S (exclude n);
                        borderline := borderline n |};
         c_written := c_written st ++ [o] |}
    else
      {| c_store := s1;
         c_counts := {| include := include n; exclude := exclude n;
                        borderline := S (borderline n) |};
         c_written := c_written st ++ [o] |}.

Definition commit (s : store) (all_decisions : list decision) : commit_state :=
  fold_left commit_step all_decisions
    {| c_store := s;
       c_counts := {| include := 0; exclude := 0; borderline := 0 |};
       c_written := [] |}.

(** The results the workers hand back, in the order [as_completed] yields
    them: [completion] lists the batch numbers in that order. *)
Definition collect (remote : nat -> reply response) (batches : list (list row))
    (completion : list nat) : list decision :=
  concat (omap (fun i => screen_batch (remote i) <$> batches !! i) completion).

Definition run_pass1 (s : store) (remote : nat -> reply response)
    (completion : list nat) : pass1_result :=
  match unscreened s with
  | [] => {| r_store := s;
             r_counts := {| include := 0; exclude := 0; borderline := 0 |};
             r_events := [] |}
  | _ =>
      let batches :=
        make_batches config.DEFAULT_SCREENING_BATCH_SIZE (unscreened s) in
      let all_decisions := collect remote batches completion in
      let c := commit s all_decisions in
      {| r_store := c_store c; r_counts := c_counts c;
         r_events := map Completed completion ++ map Written (c_written c) |}
  end.

Definition human_step (s : store) (p : row) : store :=
  match human_decision p with
  | Some decision =>
      if String.eqb decision "INCLUDE" then
        database.update_paper s (row_id p)
          (database.set_pass1_and_final "INCLUDE" None)
      else if String.eqb decision "EXCLUDE" then
        database.update_paper s (row_id p)
          (database.set_final_status (Some "EXCLUDED"))
      else s
  | None => s
  end.

Definition apply_human_decisions (s : store) : store :=
  fold_left human_step (database.get_papers s None (Some "BORDERLINE")) s.

Definition finalize_step (s : store) (p : row) : store :=
  if col_eq (screening_pass1 p) "INCLUDE" && negb (Py.truthy (final_status p))
  then database.update_paper s (row_id p)
         (database.set_final_status (Some "INCLUDED"))
  else s.

Definition finalize_included (s : store) : store :=
  fold_left finalize_step (database.get_papers s None None) s.

End ScreeningAgent.

(** ** pages/2_Progress.py, stage HITL_REVIEW *)

Module hitl_review.

(** The documents the page lists with its two buttons. *)
Definition awaiting (r : row) : bool :=
  col_eq (screening_pass1 r) "BORDERLINE" && negb (Py.truthy (human_decision r)).

Inductive button := Include_button | Exclude_button.

Definition verdict (b : button) : string :=
  match b with
  | Include_button => "INCLUDE"
  | Exclude_button => "EXCLUDE"
  end.

(** Pressing a button of a listed document. *)
Definition press (s : store) (pid : string) (b : button) : store :=
  if existsb (fun r => String.eqb (row_id r) pid && awaiting r) s
  then database.update_paper s pid (database.set_human_decision (verdict b))
  else s.

End hitl_review.

(** ** agents/snowballing_agent.py *)

Module SnowballingAgent.

(** The keys of [cfg] that [run] reads, defaults resolved. *)
Record cfg := mk_cfg {
  max_snowball_rounds : Z;
  snowball_direction : string;
  target_corpus_size : Z
}.

(** The outside world of a run, round by round: the two citation lookups
    ([None] when the lookup raised), the screening responses per batch
    and the completion order of the screening workers. *)
Record world := mk_world {
  get_references : nat -> string -> option (list paper);
  get_citing_papers : nat -> string -> option (list paper);
  screening : nat -> nat -> reply ScreeningAgent.response;
  completion : nat -> list nat
}.

Inductive stop_reason := no_new_papers | low_yield | target_exceeded.

(** How a round ended. *)
Inductive round_report :=
  | NoIncluded
  | NoCandidates
  | Screened (candidates : nat) (new_included : Z) (included_after : Z)
             (stop_reasons : list stop_reason).

Definition known (known_ids : gset string) (p : paper) : bool :=
  bool_decide (p_id p ∈ known_ids).

(** [candidates.extend([r for r in refs if r["id"] not in known_ids])]
    inside its [try]. *)
Definition extend (candidates : list paper) (known_ids : gset string)
    (lookup : option (list paper)) : list paper :=
  match lookup with
  | Some refs => candidates ++ List.filter (fun r => negb (known known_ids r)) refs
  | None => candidates
  end.

Definition direction_in (direction a b : string) : bool :=
  String.eqb direction a || String.eqb direction b.

(** The loop over the included documents. *)
Fixpoint gather (w : world) (round_num : nat) (direction : string)
    (known_ids : gset string) (included : list row) (candidates : list paper)
  : list paper :=
  match included with
  | [] => candidates
  | p :: rest =>
      if config.DEFAULT_MAX_CANDIDATES_PER_ROUND <=? length candidates
      then candidates
      else if negb (Py.truthy (openalex_id p))
      then gather w round_num direction known_ids rest candidates
      else
        let oa_id := Py.or_empty (openalex_id p) in
        let c1 := if direction_in direction "both" "backward"
                  then extend candidates known_ids (get_references w round_num oa_id)
                  else candidates in
        let c2 := if direction_in direction "both" "forward"
                  then extend c1 known_ids (get_citing_papers w round_num oa_id)
                  else c1 in
        gather w round_num direction known_ids rest c2
  end.

Definition tag (round_num : nat) (c : paper) : paper :=
  {| p_id := p_id c; p_doi := p_doi c; p_title := p_title c;
     p_abstract := p_abstract c; p_citation_count := p_citation_count c;
     p_openalex_id := p_openalex_id c;
     p_found_via :=
       Some ("snowball_round_"
             ++ NilEmpty.string_of_uint (Nat.to_uint round_num))%string |}.

(** The deduplication of the candidates of a round. *)
Definition unique_step (round_num : nat) (known_ids : gset string)
    (acc : gset string * list paper) (c : paper) : gset string * list paper :=
  let '(seen, unique_candidates) := acc in
  if negb (bool_decide (p_id c ∈ seen)) && negb (known known_ids c)
  then ({[p_id c]} ∪ seen, unique_candidates ++ [tag round_num c])
  else acc.

Definition unique_candidates (round_num : nat) (known_ids : gset string)
    (candidates : list paper) : list paper :=
  snd (fold_left (unique_step round_num known_ids) candidates (∅, [])).

Definition _get_all_known_ids (s : store) : gset string :=
  list_to_set (map row_id (database.get_papers s None None)).

Definition Qltb (a b : Q) : bool := negb (Qle_bool b a).

(** The stopping criteria at the end of a round. *)
Definition stop_reasons (new_included : Z) (yield_rate : Q)
    (included_after target_size : Z) : list stop_reason :=
  (if (new_included =? 0)%Z then [no_new_papers] else [])
  ++ (if Qltb yield_rate config.DEFAULT_MIN_YIELD_RATE then [low_yield] else [])
  ++ (if Qle_bool (inject_Z target_size * (3 # 2)) (inject_Z included_after)
      then [target_exceeded] else []).

Record state := mk_state {
  db : store;
  total_new_included : Z;
  reports : list round_report
}.

(** The body of the [for] loop: the state it leaves and whether it ran to
    its end without [break]. *)
Definition round (w : world) (c : cfg) (round_num : nat) (st : state)
  : state * bool :=
  match database.get_papers (db st) (Some "INCLUDED") None with
  | [] => ({| db := db st; total_new_included := total_new_included st;
              reports := reports st ++ [NoIncluded] |}, false)
  | included =>
      let known_ids := _get_all_known_ids (db st) in
      let candidates :=
        gather w round_num (snowball_direction c) known_ids included [] in
      match unique_candidates round_num known_ids candidates with
      | [] => ({| db := db st; total_new_included := total_new_included st;
                  reports := reports st ++ [NoCandidates] |}, false)
      | unique =>
          let s1 := fst (database.upsert_papers (db st) unique) in
          let pre_counts := database.count_papers s1 in
          let s2 := ScreeningAgent.r_store
                      (ScreeningAgent.run_pass1 s1 (screening w round_num)
                         (completion w round_num)) in
          let post_counts := database.count_papers s2 in
          let new_included :=
            (database.c_included post_counts - database.c_included pre_counts)%Z in
          let yield_rate :=
            (inject_Z new_included / inject_Z (Z.of_nat (length unique)))%Q in
          let reasons :=
            stop_reasons new_included yield_rate
              (database.c_included post_counts) (target_corpus_size c) in
          ({| db := s2;
              total_new_included := (total_new_included st + new_included)%Z;
              reports := reports st
                         ++ [Screened (length unique) new_included
                               (database.c_included post_counts) reasons] |},
           match reasons with [] => true | _ => false end)
      end
  end.

(** [for round_num in ...]: stops at the first [break]. *)
Fixpoint loop (w : world) (c : cfg) (round_nums : list nat) (st : state)
  : state :=
  match round_nums with
  | [] => st
  | round_num :: rest =>
      let '(st', continue) := round w c round_num st in
      if continue then loop w c rest st' else st'
  end.

(** [run]: the rounds [range(1, max_rounds + 1)]. *)
Definition run (w : world) (c : cfg) (s : store) : state :=
  loop w c (seq 1 (Z.to_nat (max_snowball_rounds c)))
    {| db := s; total_new_included := 0; reports := [] |}.

End SnowballingAgent.

(** ** agents/relevance_agent.py *)

Module RelevanceAgent.

Definition _STOPWORDS : list string :=
  ["the"; "a"; "an"; "and"; "or"; "of"; "in"; "to"; "for";
   "is"; "are"; "was"; "were"; "be"; "been"; "being";
   "that"; "this"; "which"; "with"; "by"; "from"; "as"].

Definition is_stopword (w : string) : bool :=
  existsb (String.eqb w) _STOPWORDS.

(** [re.sub(r"[^\w\s]", "", text.lower()).split()], then the set of the
    words that are no stop-word and longer than two characters. *)
Definition _tokenise (text : string) : gset string :=
  let words :=
    Py.split (Py.str (List.filter (fun c => Py.is_word c || Py.is_space c)
                        (Py.chars (Py.lower text)))) in
  list_to_set
    (List.filter (fun w => negb (is_stopword w) && (2 <? String.length w)) words).

(** [f"{title} {abstract}"]: a NULL abstract prints as [None]. *)
Definition text_of (p : row) : string :=
  (title p ++ " " ++ default "None" (abstract p))%string.

Definition keyword_overlap (rq_words paper_words : gset string) : Q :=
  (inject_Z (Z.of_nat (size (rq_words ∩ paper_words)))
   / inject_Z (Z.of_nat (Nat.max (size rq_words) 1)))%Q.

Definition keyword_score (research_question : string) (p : row) : Q :=
  let overlap :=
    keyword_overlap (_tokenise research_question) (_tokenise (text_of p)) in
  Py.round1 (Py.min 100 (overlap * 150))%Q.

Definition _keyword_score (s : store) (papers : list row)
    (research_question : string) : store :=
  fold_left
    (fun s p => database.update_paper s (row_id p)
                  (database.set_relevance (keyword_score research_question p)))
    papers s.

(** The score of a cosine similarity [sim]. *)
Definition cosine_score (sim : Q) : Q :=
  Py.round1 (Py.max 0 (Py.min 100 ((sim - (3 # 10)) / (7 # 10) * 100)))%Q.

(** [run]: [embedded] are the ids that have a stored vector and [cosine]
    the similarity numpy computes for each of them. *)
Definition run (s : store) (embedded : list string) (cosine : string -> Q)
    (research_question : string) : store :=
  match database.get_papers s (Some "INCLUDED") None with
  | [] => s
  | papers =>
      match embedded with
      | [] => _keyword_score s papers research_question
      | _ =>
          fold_left
            (fun s p =>
               if existsb (String.eqb (row_id p)) embedded
               then database.update_paper s (row_id p)
                      (database.set_relevance (cosine_score (cosine (row_id p))))
               else s)
            papers s
      end
  end.

End RelevanceAgent.

(** ** agents/quality_agent.py *)

Module QualityAgent.

(** The keys of a quality response that [assess_paper] reads. *)
Record assessment := mk_assessment {
  a_quality_score : option Q;
  a_quality_notes : option string;
  a_flag : option string
}.

(** The result dict of [assess_paper]. *)
Record result := mk_result {
  res_score : Q;
  res_notes : string;
  res_flag : string
}.

Definition assess_paper (remote : reply assessment) (p : row)
  : string * result :=
  match remote with
  | Replied a =>
      (row_id p,
       {| res_score := default (50 # 1) (a_quality_score a);
          res_notes := default "" (a_quality_notes a);
          res_flag := default "none" (a_flag a) |})
  | Raised =>
      (row_id p,
       {| res_score := 50 # 1; res_notes := "Assessment failed.";
          res_flag := "none" |})
  end.

Definition unassessed (s : store) : list row :=
  List.filter (fun p => negb (bool_decide (is_Some (quality_score p))))
              (database.get_papers s (Some "INCLUDED") None).

(** The results in the order the workers complete. *)
Definition all_results (remote : nat -> reply assessment) (papers : list row)
    (completion : list nat) : list (string * result) :=
  omap (fun i => assess_paper (remote i) <$> papers !! i) completion.

Definition commit (s : store) (results : list (string * result)) : store :=
  fold_left
    (fun s '(paper_id, r) =>
       database.update_paper s paper_id
         (database.set_quality (res_score r) (res_notes r) (res_flag r)))
    results s.

Definition run (s : store) (remote : nat -> reply assessment)
    (completion : list nat) : store :=
  match unassessed s with
  | [] => s
  | papers => commit s (all_results remote papers completion)
  end.

End QualityAgent.

(** ** data/database.py: the pipeline log *)

Module pipeline_log.

(** A row of [pipeline_log]; the timestamp column is left out. *)
Record log_row := mk_log {
  log_id : Z;
  stage : string;
  message : string;
  details : string
}.

(** [SELECT COALESCE(MAX(id), 0) + 1 FROM pipeline_log] *)
Definition next_id (log : list log_row) : Z :=
  match map log_id log with
  | [] => 1
  | i :: ids => (fold_left Z.max ids i + 1)%Z
  end.

(** [log_event]: [details] is the text [json.dumps] produced. *)
Definition log_event (log : list log_row) (stage message details : string)
  : list log_row :=
  log ++ [{| log_id := next_id log; stage := stage; message := message;
             details := details |}].

(** [ORDER BY id DESC] *)
Definition newer (a b : log_row) : Prop := (log_id b <= log_id a)%Z.

#[global] Instance newer_dec (a b : log_row) : Decision (newer a b) :=
  Z_le_dec (log_id b) (log_id a).

(** [get_log]: the newest [limit] entries, newest first. *)
Definition get_log (log : list log_row) (limit : nat)
  : list (string * string * string) :=
  map (fun r => (stage r, message r, details r))
      (take limit (merge_sort newer log)).

End pipeline_log.

(** ** utils/llm.py *)

Module llm.

(** What one call of the completion endpoint does: it answers (the
    content may be null), or it raises a rate-limit error, another
    status error with its code, or any other exception. *)
Inductive attempt :=
  | Content (text : option string)
  | RateLimitError
  | APIStatusError (status_code : Z)
  | OtherException.

(** How [chat_completion] ends: with a text, or with the exception it
    lets through. *)
Inductive ending :=
  | Returns (text : string)
  | Raises (e : attempt).

Record run := mk_run {
  ended : ending;
  calls : nat;
  slept : list Z
}.

(** The body of [for attempt in range(max_retries)], on the attempts
    still to make. *)
Fixpoint attempts (service : nat -> attempt) (max_retries : nat)
    (todo : list nat) (calls : nat) (slept : list Z) : run :=
  match todo with
  | [] => {| ended := Returns ""; calls := calls; slept := slept |}
  | attempt :: rest =>
      match service attempt with
      | Content text =>
          {| ended := Returns (Py.or_empty text); calls := S calls;
             slept := slept |}
      | RateLimitError =>
          if attempt =? max_retries - 1
          then {| ended := Raises RateLimitError; calls := S calls;
                  slept := slept |}
          else attempts service max_retries rest (S calls)
                 (slept ++ [5 * 2 ^ Z.of_nat attempt])%Z
      | APIStatusError status_code =>
          if (status_code <? 500)%Z && negb (status_code =? 429)%Z
          then {| ended := Raises (APIStatusError status_code);
                  calls := S calls; slept := slept |}
          else if attempt =? max_retries - 1
          then {| ended := Raises (APIStatusError status_code);
                  calls := S calls; slept := slept |}
          else attempts service max_retries rest (S calls)
                 (slept ++ [2 * 2 ^ Z.of_nat attempt])%Z
      | OtherException =>
          if attempt =? max_retries - 1
          then {| ended := Raises OtherException; calls := S calls;
                  slept := slept |}
          else attempts service max_retries rest (S calls)
                 (slept ++ [2 * 2 ^ Z.of_nat attempt])%Z
      end
  end.

(** [chat_completion]: [service k] is what the call of attempt [k] does. *)
Definition chat_completion (service : nat -> attempt) (max_retries : nat)
  : run :=
  attempts service max_retries (seq 0 max_retries) 0 [].

(** [get_embeddings]: the texts go out in chunks of 512; [embed] is the
    answer of the service to one chunk. *)
Definition chunk_size : nat := 512.

Definition chunks {A : Type} (size : nat) (l : list A) : list (list A) :=
  map (fun k => take size (drop (k * size) l))
      (seq 0 ((length l + size - 1) / size)).

Definition get_embeddings {A B : Type} (embed : list A -> list B)
    (texts : list A) : list B :=
  match texts with
  | [] => []
  | _ => concat (map embed (chunks chunk_size texts))
  end.

End llm.

(** ** data/openalex_client.py *)

Module openalex_client.

(** The keys of a work that decide its identity, as the API sends them
    ([None] for null). *)
Record work := mk_work {
  w_title : option string;
  w_id : option string;
  w_doi : option string;
  w_abstract_inverted_index : option (list (string * list Z));
  w_cited_by_count : option Z
}.

(** [positions.sort(key=lambda x: x[0])]: stable. *)
Fixpoint insert_by_pos (x : Z * string) (l : list (Z * string))
  : list (Z * string) :=
  match l with
  | [] => [x]
  | y :: l' => if (fst y <? fst x)%Z then y :: insert_by_pos x l' else x :: l
  end.

Definition sort_by_pos (l : list (Z * string)) : list (Z * string) :=
  fold_right insert_by_pos [] l.

(** The [(pos, word)] pairs of an inverted index, in the order of the
    two loops. *)
Definition positions (inverted_index : list (string * list Z))
  : list (Z * string) :=
  concat (map (fun '(word, locs) => map (fun pos => (pos, word)) locs)
              inverted_index).

Definition reconstruct_abstract
    (inverted_index : option (list (string * list Z))) : string :=
  match inverted_index with
  | None => ""
  | Some [] => ""
  | Some index => String.concat " " (map snd (sort_by_pos (positions index)))
  end.

Section parse.
(** [hashlib.md5(title.encode()).hexdigest()] *)
Variable md5 : string -> string.

Definition _parse_work (w : work) : option paper :=
  if negb (Py.truthy (w_title w)) then None
  else
    let title := Py.or_empty (w_title w) in
    let paper_id :=
      if Py.truthy (w_doi w) then Py.or_empty (w_doi w)
      else if Py.truthy (w_id w) then Py.or_empty (w_id w)
      else md5 title in
    Some {| p_id := paper_id; p_doi := w_doi w; p_title := title;
            p_abstract :=
              Some (reconstruct_abstract (w_abstract_inverted_index w));
            p_citation_count :=
              Some (match w_cited_by_count w with
                    | Some c => c
                    | None => 0%Z
                    end);
            p_openalex_id := w_id w; p_found_via := None |}.

(** One answer of [GET /works]. *)
Record page := mk_page {
  results : list work;
  next_cursor : option string
}.

(** [_paginate] against the answers the server gives to the successive
    requests; [None] when the loop asks for more answers than listed. *)
Fixpoint _paginate (answers : list (reply page)) (max_results : nat)
    (papers : list paper) : option (reply (list paper)) :=
  if max_results <=? length papers then Some (Replied papers)
  else
    match answers with
    | [] => None
    | Raised :: _ => Some Raised
    | Replied data :: rest =>
        let papers' := papers ++ omap _parse_work (results data) in
        if negb (Py.truthy (next_cursor data))
           || match results data with [] => true | _ => false end
        then Some (Replied papers')
        else _paginate rest max_results papers'
    end.

(** [get_references] and [get_citing_papers]: the same loop inside
    [try ... except Exception: return []]. *)
Definition get_references (answers : list (reply page)) (max_results : nat)
  : option (list paper) :=
  match _paginate answers max_results [] with
  | Some (Replied papers) => Some papers
  | Some Raised => Some []
  | None => None
  end.

(** The inner loop of [search_works]: it stops at [max_results]. *)
Fixpoint take_page (max_results : nat) (papers : list paper)
    (ws : list work) : list paper :=
  match ws with
  | [] => papers
  | w :: ws' =>
      let papers' := match _parse_work w with
                     | Some parsed => papers ++ [parsed]
                     | None => papers
                     end in
      if max_results <=? length papers' then papers'
      else take_page max_results papers' ws'
  end.

Fixpoint search_works (answers : list (reply page)) (max_results : nat)
    (papers : list paper) : option (reply (list paper)) :=
  if max_results <=? length papers then Some (Replied papers)
  else
    match answers with
    | [] => None
    | Raised :: _ => Some Raised
    | Replied data :: rest =>
        match results data with
        | [] => Some (Replied papers)
        | ws =>
            let papers' := take_page max_results papers ws in
            if negb (Py.truthy (next_cursor data))
            then Some (Replied papers')
            else search_works rest max_results papers'
        end
    end.
End parse.

End openalex_client.

(** ** agents/orchestrator.py *)

Module Orchestrator.



End Orchestrator.

(** ** Notions used in the statements *)

(** The primary key of [papers]: ids are pairwise distinct.  The clients
    never produce an empty id ([doi or oa_id or md5(title)]). *)
Definition store_ok (s : store) : Prop :=
  NoDup (map row_id s) /\ Forall (fun r => row_id r <> "") s.

(** A stored score, if any, lies between 0 and 100. *)
Definition bounded (o : option Q) : Prop :=
  match o with
  | Some q => (0 <= q /\ q <= 100)%Q
  | None => True
  end.

(** The row of the table with a given id. *)
Definition find_row (s : store) (i : string) : option row :=
  List.find (fun r => String.eqb (row_id r) i) s.

Module Screening.
Import ScreeningAgent.

(** What committing one decision does to one row. *)
Definition decide_row (d : decision) (r : row) : row :=
  if Py.truthy (d_id d) && String.eqb (row_id r) (Py.or_empty (d_id d)) then
    let o := outcome_of (row_id r) d in
    let r1 := database.set_screening (o_decision o) (o_reason o)
                (o_confidence o) r in
    if String.eqb (o_decision o) "EXCLUDE"
    then database.set_final_status (Some "EXCLUDED") r1 else r1
  else r.

(** The ids a list of decisions names. *)
Definition named (ds : list decision) : list string :=
  map (fun d => Py.or_empty (d_id d))
      (List.filter (fun d => Py.truthy (d_id d)) ds).

(** The outcomes the commit pass writes for a list of decisions. *)
Definition written_of (ds : list decision) : list outcome :=
  map (fun d => outcome_of (Py.or_empty (d_id d)) d)
      (List.filter (fun d => Py.truthy (d_id d)) ds).

(** The batches of a run and the decisions its workers hand back. *)
Definition batches_of (s : store) : list (list row) :=
  make_batches config.DEFAULT_SCREENING_BATCH_SIZE (unscreened s).

Definition all_decisions (s : store) (remote : nat -> reply response)
    (completion : list nat) : list decision :=
  collect remote (batches_of s) completion.

(** The SET clause [apply_human_decisions] applies for a listed row. *)
Definition human_set (p : row) : row -> row :=
  match human_decision p with
  | Some decision =>
      if String.eqb decision "INCLUDE"
      then database.set_pass1_and_final "INCLUDE" None
      else if String.eqb decision "EXCLUDE"
      then database.set_final_status (Some "EXCLUDED")
      else fun r => r
  | None => fun r => r
  end.

(** The SET clause [finalize_included] applies for a listed row. *)
Definition finalize_set (p : row) : row -> row :=
  if col_eq (screening_pass1 p) "INCLUDE" && negb (Py.truthy (final_status p))
  then database.set_final_status (Some "INCLUDED")
  else fun r => r.





End Screening.

(** The life cycle of the screening columns: the three operations of the
    screening agent and the two buttons of the review page. *)
Module Lifecycle.
Import ScreeningAgent.

(** The finalize invariant on one row. *)
Definition inv_row (r : row) : Prop :=
  (final_status r = Some "INCLUDED" -> screening_pass1 r = Some "INCLUDE")
  /\ (final_status r = Some "EXCLUDED" ->
      screening_pass1 r = Some "EXCLUDE" \/ human_decision r = Some "EXCLUDE").

Definition finalize_invariant (s : store) : Prop := Forall inv_row s.

Inductive op :=
  | RunPass1 (remote : nat -> reply response) (completion : list nat)
  | ApplyHumanDecisions
  | FinalizeIncluded
  | Press (pid : string) (b : hitl_review.button).

Definition exec (s : store) (o : op) : store :=
  match o with
  | RunPass1 remote completion => r_store (run_pass1 s remote completion)
  | ApplyHumanDecisions => apply_human_decisions s
  | FinalizeIncluded => finalize_included s
  | Press pid b => hitl_review.press s pid b
  end.

Definition exec_all (s : store) (ops : list op) : store := fold_left exec ops s.

(** The decisions handed back in a run name every document at most once,
    and no stored document that was already screened. *)
Definition answers_fit (s : store) (remote : nat -> reply response)
    (completion : list nat) : Prop :=
  NoDup (Screening.named (Screening.all_decisions s remote completion))
  /\ forall i : string,
       In i (Screening.named (Screening.all_decisions s remote completion)) ->
       In i (map row_id s) -> In i (map row_id (unscreened s)).

(** Every screening run of a sequence of operations gets fitting answers. *)
Fixpoint fit (s : store) (ops : list op) : Prop :=
  match ops with
  | [] => True
  | o :: rest =>
      match o with
      | RunPass1 remote completion => answers_fit s remote completion
      | _ => True
      end /\ fit (exec s o) rest
  end.

End Lifecycle.

Module Snowball.
Import SnowballingAgent.

(** The candidates a round finds in a table. *)
Definition found (w : world) (c : cfg) (round_num : nat) (s : store)
  : list paper :=
  unique_candidates round_num (_get_all_known_ids s)
    (gather w round_num (snowball_direction c) (_get_all_known_ids s)
       (database.get_papers s (Some "INCLUDED") None) []).



(** What every report of a screened round records. *)
Definition report_ok (c : cfg) (rep : round_report) : Prop :=
  match rep with
  | NoIncluded | NoCandidates => True
  | Screened candidates new_included included_after reasons =>
      0 < candidates /\ (new_included <= 0)%Z
      /\ reasons
         = stop_reasons new_included
             (inject_Z new_included / inject_Z (Z.of_nat candidates))%Q
             included_after (target_corpus_size c)
  end.

End Snowball.

Module Dedup.
Import SearchAgent.

Definition title_of (p : paper) : string := _title_key (p_title p).

(** The drop condition as the specification words it. *)
Definition already_seen (seen_d seen_t : gset string) (p : paper) : Prop :=
  (doi_key p <> "" /\ doi_key p ∈ seen_d) \/ title_of p ∈ seen_t.

(** What keeping a document does to the state of the loop. *)
Definition keep (st : dedup_state) (p : paper) : dedup_state :=
  {| unique := unique st ++ [p];
     seen_dois := if negb (String.eqb (doi_key p) "")
                  then {[doi_key p]} ∪ seen_dois st else seen_dois st;
     seen_titles := {[title_of p]} ∪ seen_titles st |}.

(** The non-empty DOI keys of a list of documents. *)
Definition dois (l : list paper) : list string :=
  List.filter (fun d => negb (String.eqb d "")) (map doi_key l).

(** What holds of the documents kept so far: their keys are in the
    seen-sets, the sets hold nothing but the initial keys and keys of
    documents met, and no two kept documents share a title key or a
    non-empty DOI key. *)
Record dedup_inv (sd0 st0 : gset string) (l : list paper)
    (st : dedup_state) : Prop := {
  inv_titles : forall q, In q (unique st) -> title_of q ∈ seen_titles st;
  inv_dois : forall q, In q (unique st) -> doi_key q <> "" ->
                       doi_key q ∈ seen_dois st;
  inv_titles_from : forall k, k ∈ seen_titles st ->
                      k ∈ st0 \/ exists q, In q l /\ title_of q = k;
  inv_dois_from : forall k, k ∈ seen_dois st ->
                    k ∈ sd0 \/ exists q, In q l /\ doi_key q = k;
  inv_kept_met : forall q, In q (unique st) -> In q l;
  inv_titles_nodup : NoDup (map title_of (unique st));
  inv_dois_nodup : NoDup (dois (unique st))
}.

(** The documents the catalogs returned during a stage, in the order
    [run] meets them. *)
Definition met (results : list (option (list paper))) : list paper :=
  concat (omap (fun r => r) results).

(** A title without a letter or a digit. *)
Definition symbols_only (t : string) : Prop :=
  Forall (fun c => Py.is_alnum c = false) (Py.chars t).

End Dedup.

Module Relevance.

(** The keyword score as the specification words it, for [n] shared
    tokens and [m] question tokens. *)
Definition keyword_formula (n m : nat) : Q :=
  Qmin 100 (150 * inject_Z (Z.of_nat n) / inject_Z (Z.of_nat m)).

End Relevance.

Module Quality.
Import QualityAgent.

(** The result [assess_paper] builds from a remote call. *)
Definition result_of (r : reply assessment) : result :=
  match r with
  | Raised =>
      {| res_score := 50 # 1; res_notes := "Assessment failed.";
         res_flag := "none" |}
  | Replied a =>
      {| res_score := default (50 # 1) (a_quality_score a);
         res_notes := default "" (a_quality_notes a);
         res_flag := default "none" (a_flag a) |}
  end.


(** A document the quality agent has to assess. *)
Definition eligible (p : row) : Prop :=
  final_status p = Some "INCLUDED" /\ quality_score p = None.

End Quality.

(** ** Concrete stores and answers *)

Module Examples.
Import ScreeningAgent.

Definition doc (i : string) (d : option string) (t : string) : paper :=
  {| p_id := i; p_doi := d; p_title := t; p_abstract := None;
     p_citation_count := None; p_openalex_id := Some "W1";
     p_found_via := None |}.

Definition fresh (i : string) : row := database.new_row (doc i None "A title").

Definition included (i : string) : row :=
  database.set_pass1_and_final "INCLUDE" (Some "INCLUDED") (fresh i).

Definition says (i d : string) : decision :=
  {| d_id := Some i; d_decision := Some d; d_reason := Some "because";
     d_confidence := Some (90 # 1) |}.

(** One screened and included document, one unscreened. *)
Definition two_rows : store := [included "A"; fresh "B"].

(** An answer to the batch [B] that also names [A], and spells the label
    in lower case. *)
Definition stray_answer : nat -> reply response :=
  fun _ => Replied (Some [says "A" "EXCLUDE"; says "B" "include"]).

(** A single unscreened document, answered twice in one response. *)
Definition one_row : store := [fresh "B"].

Definition repeated_answer : nat -> reply response :=
  fun _ => Replied (Some [says "B" "EXCLUDE"; says "B" "INCLUDE"]).

(** A review session: screening leaves [B] borderline, the user
    includes it, the decision is applied and the finalize pass runs. *)
Definition borderline_answer : nat -> reply response :=
  fun _ => Replied (Some [says "B" "BORDERLINE"]).

Definition review_session : list Lifecycle.op :=
  [Lifecycle.RunPass1 borderline_answer [0];
   Lifecycle.Press "B" hitl_review.Include_button;
   Lifecycle.ApplyHumanDecisions;
   Lifecycle.FinalizeIncluded].

Definition repeated_session : list Lifecycle.op :=
  [Lifecycle.RunPass1 repeated_answer [0]; Lifecycle.FinalizeIncluded].

(** Two unscreened documents and a remote call that always raises. *)
Definition unscreened_rows : store := [fresh "A"; fresh "B"].


(** A catalog that returns no citation at all. *)
Definition silent_world : SnowballingAgent.world :=
  {| SnowballingAgent.get_references := fun _ _ => Some [];
     SnowballingAgent.get_citing_papers := fun _ _ => Some [];
     SnowballingAgent.screening := fun _ _ => Raised;
     SnowballingAgent.completion := fun _ => [0] |}.

(** A catalog that returns one new document for every lookup, and a
    screening service that includes it. *)
Definition generous_world : SnowballingAgent.world :=
  {| SnowballingAgent.get_references :=
       fun _ _ => Some [doc "N" (Some "10.4/new") "A cited work"];
     SnowballingAgent.get_citing_papers := fun _ _ => Some [];
     SnowballingAgent.screening :=
       fun _ _ => Replied (Some [says "N" "INCLUDE"; says "B" "INCLUDE"]);
     SnowballingAgent.completion := fun _ => [0] |}.

Definition three_rounds : SnowballingAgent.cfg :=
  {| SnowballingAgent.max_snowball_rounds := 3;
     SnowballingAgent.snowball_direction := "both";
     SnowballingAgent.target_corpus_size := 50 |}.

Definition no_rounds : SnowballingAgent.cfg :=
  {| SnowballingAgent.max_snowball_rounds := 0;
     SnowballingAgent.snowball_direction := "both";
     SnowballingAgent.target_corpus_size := 50 |}.

(** Three documents with one DOI in two result sets. *)
Definition first_doc : paper := doc "a" (Some "10.1/X") "First title".
Definition second_doc : paper := doc "b" (Some "10.1/x") "Second title".
Definition third_doc : paper := doc "c" (Some " 10.1/X ") "Third title".

(** A document whose title key is taken by a document with another DOI,
    followed by a document with its DOI. *)
Definition other_doc : paper := doc "o" (Some "10.2/Y") "Same title".
Definition shadowed_doc : paper := doc "s" (Some "10.3/D") "Same Title!".
Definition later_doc : paper := doc "l" (Some "10.3/d") "Another title".

Definition no_doi_doc : paper := doc "n" None "No identifier".

(** A question of seven tokens, one of which is in the title. *)
Definition question : string := "alpha beta gamma delta epsilon zeta theta".
Definition alpha_row : row := database.new_row (doc "r" None "Alpha study").

Definition pottery_row : row :=
  database.new_row (doc "m" None "Medieval pottery").


Definition quality_fails : nat -> reply QualityAgent.assessment :=
  fun _ => Raised.

Definition included_rows : store := [included "A"].

End Examples.

(** ** Further notions used in the statements *)

Module LogNotions.
Import pipeline_log.

(** The log after a sequence of events, from an empty table. *)
Definition record (events : list (string * string * string)) : list log_row :=
  fold_left (fun log '(stage, message, details) =>
               log_event log stage message details) events [].

End LogNotions.

Module Frame.
Import ScreeningAgent.

(** The columns that describe the document itself. *)
Definition same_document (r r' : row) : Prop :=
  row_id r' = row_id r /\ doi r' = doi r /\ title r' = title r
  /\ abstract r' = abstract r /\ citation_count r' = citation_count r
  /\ openalex_id r' = openalex_id r /\ found_via r' = found_via r.

(** The columns written after screening: the human decision, the
    quality assessment and the relevance score. *)
Definition same_assessment (r r' : row) : Prop :=
  human_decision r' = human_decision r
  /\ quality_score r' = quality_score r /\ quality_notes r' = quality_notes r
  /\ quality_flag r' = quality_flag r
  /\ relevance_score r' = relevance_score r.

(** The number of outcomes with a given label. *)
Definition tally (l : string) (w : list outcome) : nat :=
  length (List.filter (fun o => String.eqb (o_decision o) l) w).

(** What pass 1 may do to a row. *)
Definition pass1_frame (r r' : row) : Prop :=
  same_document r r' /\ same_assessment r r'
  /\ (final_status r' = final_status r \/ final_status r' = Some "EXCLUDED")
  /\ (screening_pass1 r' = screening_pass1 r
      \/ screening_pass1 r' = Some "INCLUDE"
      \/ screening_pass1 r' = Some "EXCLUDE"
      \/ screening_pass1 r' = Some "BORDERLINE").

End Frame.

Module Retry.
Import llm.

(** An attempt after which [chat_completion] goes on, unless it was the
    last one: a rate-limit error, a status error with a code of 500 or
    more or with code 429, or any other exception. *)
Definition retryable (a : attempt) : bool :=
  match a with
  | Content _ => false
  | RateLimitError => true
  | APIStatusError status_code =>
      negb ((status_code <? 500)%Z && negb (status_code =? 429)%Z)
  | OtherException => true
  end.

(** The seconds slept after attempt [k] failed with [a]. *)
Definition wait (k : nat) (a : attempt) : Z :=
  match a with
  | RateLimitError => 5 * 2 ^ Z.of_nat k
  | _ => 2 * 2 ^ Z.of_nat k
  end.

(** How the run ends when attempt [a] is its last. *)
Definition end_of (a : attempt) : ending :=
  match a with
  | Content text => Returns (Py.or_empty text)
  | e => Raises e
  end.

Definition total (l : list Z) : Z := fold_right Z.add 0%Z l.

End Retry.

Module Abstract.
Import openalex_client.

(** The [(position, word)] pairs of a text given as its list of words. *)
Definition numbered (words : list string) : list (Z * string) :=
  zip (map Z.of_nat (seq 0 (length words))) words.

(** The order [sort(key=lambda x: x[0])] establishes. *)
Definition by_pos (a b : Z * string) : Prop := (fst a <= fst b)%Z.

(** The bound on the size of a page the server sends. *)
Definition page_within (k : nat) (a : reply page) : Prop :=
  match a with
  | Replied data => length (results data) <= k
  | Raised => True
  end.

End Abstract.

Module MoreExamples.
Import openalex_client.

(** A new document and one whose id is already stored in
    [Examples.two_rows]. *)
Definition new_and_stored : list paper :=
  [Examples.doc "N" None "A new title"; Examples.doc "A" None "A title"].

(** A digest that is never empty. *)
Definition digest : string -> string :=
  fun _ => "d41d8cd98f00b204e9800998ecf8427e".

Definition a_work : work :=
  {| w_title := Some "A work"; w_id := Some "https://openalex.org/W2";
     w_doi := None; w_abstract_inverted_index := None;
     w_cited_by_count := Some 3%Z |}.

(** One page of one work, without a cursor. *)
Definition last_page : list (reply page) :=
  [Replied {| results := [a_work]; next_cursor := None |}].

(** The inverted index of the text "a b a". *)
Definition an_index : list (string * list Z) :=
  [("b", [1%Z]); ("a", [0%Z; 2%Z])].

Definition its_words : list string := ["a"; "b"; "a"].

(** A document whose DOI is a blank. *)
Definition blank_doi_doc : paper := Examples.doc "z" (Some " ") "Blank".

End MoreExamples.

(** * Properties *)

(** ** Row-wise view of the table operations *)

Section rows.
Import database.

Lemma update_paper_ids (s : store) (pid : string) (f : row -> row) :
  (forall r, row_id (f r) = row_id r) ->
  map row_id (update_paper s pid f) = map row_id s.
Proof.
  intros Hf. unfold update_paper. rewrite map_map. apply map_ext.
  intros r. by destruct (String.eqb (row_id r) pid).
Qed.

Lemma update_paper_absent (s : store) (pid : string) (f : row -> row) :
  ~ In pid (map row_id s) -> update_paper s pid f = s.
Proof.
  intros Hn. unfold update_paper. rewrite <- (map_id s) at 2.
  apply map_ext_in. intros r Hr.
  destruct (String.eqb (row_id r) pid) eqn:E; [|done].
  apply String.eqb_eq in E. exfalso. apply Hn. rewrite <- E.
  by apply in_map.
Qed.

(** A loop of updates acts on every row independently. *)
Lemma fold_update {A : Type} (key : A -> string) (g : A -> row -> row)
    (l : list A) (s : store) :
  fold_left (fun s a => update_paper s (key a) (g a)) l s
  = map (fun r =>
           fold_left (fun r a => if String.eqb (row_id r) (key a)
                                 then g a r else r) l r) s.
Proof.
  revert s. induction l as [|a l IH]; intros s; cbn [fold_left].
  - by rewrite map_id.
  - rewrite IH. unfold update_paper. by rewrite map_map.
Qed.

Lemma get_papers_perm (s : store) (fs p1 : option string) :
  get_papers s fs p1
  ≡ₚ List.filter (fun r => col_matches fs (final_status r)
                           && col_matches p1 (screening_pass1 r)) s.
Proof. unfold get_papers. apply merge_sort_Permutation. Qed.


Lemma get_papers_in (s : store) (fs p1 : option string) (r : row) :
  In r (get_papers s fs p1)
  <-> In r s /\ col_matches fs (final_status r) = true
      /\ col_matches p1 (screening_pass1 r) = true.
Proof.
  rewrite <- !list_elem_of_In, get_papers_perm, list_elem_of_In.
  rewrite filter_In, andb_true_iff, <- list_elem_of_In. tauto.
Qed.

Lemma col_matches_some (v : string) (col : option string) :
  col_matches (Some v) col = true <-> col = Some v.
Proof.
  destruct col as [c|]; cbn; [|done]. rewrite String.eqb_eq.
  split; congruence.
Qed.

Lemma col_eq_true (col : option string) (v : string) :
  col_eq col v = true <-> col = Some v.
Proof.
  destruct col as [c|]; cbn; [|done]. rewrite String.eqb_eq.
  split; congruence.
Qed.

(** In a table with a primary key a row is found by its id. *)
Lemma find_row_in (s : store) (r : row) :
  NoDup (map row_id s) -> In r s -> find_row s (row_id r) = Some r.
Proof.
  unfold find_row. induction s as [|x s IH]; [done|].
  cbn [map]. rewrite NoDup_cons. intros [Hx Hnd] [->|Hin].
  - cbn. by rewrite String.eqb_refl.
  - cbn. destruct (String.eqb (row_id x) (row_id r)) eqn:E; [|by apply IH].
    apply String.eqb_eq in E. exfalso. apply Hx. rewrite E.
    apply list_elem_of_In. by apply in_map.
Qed.

Lemma find_row_map (f : row -> row) (s : store) (i : string) :
  (forall r, row_id (f r) = row_id r) ->
  find_row (map f s) i = f <$> find_row s i.
Proof.
  intros Hf. unfold find_row. induction s as [|x s IH]; [done|].
  cbn. rewrite Hf. by destruct (String.eqb (row_id x) i).
Qed.

Lemma fold_update_ids {A : Type} (key : A -> string) (g : A -> row -> row)
    (l : list A) (s : store) :
  (forall a r, row_id (g a r) = row_id r) ->
  map row_id (fold_left (fun s a => update_paper s (key a) (g a)) l s)
  = map row_id s.
Proof.
  intros Hg. revert s. induction l as [|a l IH]; intros s; [done|].
  cbn [fold_left]. rewrite IH. by apply update_paper_ids.
Qed.

Lemma fold_row_unmatched {A : Type} (key : A -> string) (g : A -> row -> row)
    (l : list A) (r : row) :
  ~ In (row_id r) (map key l) ->
  fold_left (fun r a => if String.eqb (row_id r) (key a) then g a r else r) l r
  = r.
Proof.
  induction l as [|a l IH]; [done|]. cbn [fold_left map]. intros Hn.
  destruct (String.eqb (row_id r) (key a)) eqn:E.
  - apply String.eqb_eq in E. exfalso. apply Hn. by left.
  - apply IH. intros Hin. apply Hn. by right.
Qed.

(** When the keys of the loop are pairwise distinct, a row is touched
    by the one element that carries its id, if any. *)
Lemma fold_row_unique {A : Type} (key : A -> string) (g : A -> row -> row)
    (l : list A) (r : row) :
  (forall a r, row_id (g a r) = row_id r) ->
  NoDup (map key l) ->
  fold_left (fun r a => if String.eqb (row_id r) (key a) then g a r else r) l r
  = match List.find (fun a => String.eqb (row_id r) (key a)) l with
    | Some a => g a r
    | None => r
    end.
Proof.
  intros Hg. induction l as [|a l IH]; [done|]. cbn [fold_left map List.find].
  rewrite NoDup_cons, list_elem_of_In. intros [Ha Hnd].
  destruct (String.eqb (row_id r) (key a)) eqn:E; [|by apply IH].
  apply fold_row_unmatched. rewrite Hg. apply String.eqb_eq in E.
  by rewrite E.
Qed.

(** Rows of a keyed table with the same id are the same row. *)
Lemma row_id_inj (s : store) (p r : row) :
  NoDup (map row_id s) -> In p s -> In r s -> row_id p = row_id r -> p = r.
Proof.
  induction s as [|x s IH]; [done|]. cbn [map].
  rewrite NoDup_cons, list_elem_of_In. intros [Hx Hnd] [->|Hp] [->|Hr] E.
  - done.
  - exfalso. apply Hx. rewrite E. by apply in_map.
  - exfalso. apply Hx. rewrite <- E. by apply in_map.
  - by apply IH.
Qed.

End rows.

(** ** Storage insertion *)

Section upsert.
Import database.

Lemma exists_id_spec (s : store) (i : string) :
  exists_id s i = true <-> In i (map row_id s).
Proof.
  unfold exists_id. rewrite existsb_exists, in_map_iff. split.
  - intros (r & Hr & He). apply String.eqb_eq in He. eauto.
  - intros (r & He & Hr). exists r. split; [done|]. by apply String.eqb_eq.
Qed.

Lemma exists_id_app (s t : store) (i : string) :
  exists_id (s ++ t) i = exists_id s i || exists_id t i.
Proof. unfold exists_id. apply existsb_app. Qed.

(** The loop only appends: the rows it adds are the images of a
    sublist of the input, their ids were not stored, and afterwards
    every id of the input is stored. *)
Lemma upsert_fold (papers : list paper) (s : store) (n : nat) :
  exists added : list paper,
    fold_left upsert_step papers (s, n)
      = (s ++ map new_row added, n + length added)
    /\ sublist added papers
    /\ Forall (fun p => exists_id s (p_id p) = false) added
    /\ NoDup (map p_id added)
    /\ Forall (fun p => exists_id (s ++ map new_row added) (p_id p) = true)
              papers.
Proof.
  revert s n. induction papers as [|p ps IH]; intros s n.
  - exists []. cbn. rewrite app_nil_r, Nat.add_0_r.
    repeat split; constructor.
  - cbn [fold_left upsert_step].
    destruct (exists_id s (p_id p)) eqn:E.
    + destruct (IH s n) as (added & Hf & Hsub & Hnew & Hnd & Hall).
      exists added. repeat split; try done.
      * by apply sublist_cons.
      * constructor; [|done]. rewrite exists_id_app, E. done.
    + destruct (IH (s ++ [new_row p]) (S n))
        as (added & Hf & Hsub & Hnew & Hnd & Hall).
      assert (Hfresh : Forall (fun q => p_id q <> p_id p) added).
      { eapply Forall_impl; [exact Hnew|]. cbn. intros q Hq Heq. rewrite Heq in Hq.
        rewrite exists_id_app in Hq. cbn in Hq.
        rewrite String.eqb_refl in Hq. by destruct (exists_id s (p_id p)). }
      exists (p :: added). cbn [map length].
      split.
      { etrans; [exact Hf|]. f_equal; [by rewrite <- app_assoc | lia]. }
      repeat split.
      * by apply sublist_skip.
      * constructor; [done|]. eapply Forall_impl; [exact Hnew|].
        cbn. intros q Hq. rewrite exists_id_app in Hq.
        by destruct (exists_id s (p_id q)).
      * cbn. constructor; [|done]. rewrite list_elem_of_In, in_map_iff.
        intros (q & Hq & Hin). rewrite Forall_forall in Hfresh.
        apply (Hfresh q); [by apply list_elem_of_In|done].
      * rewrite <- app_assoc in Hall. cbn [app] in Hall.
        constructor; [|done]. rewrite exists_id_app. cbn.
        rewrite String.eqb_refl. by rewrite orb_true_r.
Qed.

(** When every id of the input is stored, the loop changes nothing. *)
Lemma upsert_fold_stored (papers : list paper) (s : store) (n : nat) :
  Forall (fun p => exists_id s (p_id p) = true) papers ->
  fold_left upsert_step papers (s, n) = (s, n).
Proof.
  induction 1 as [|p ps Hp _ IH]; [done|].
  cbn [fold_left upsert_step]. by rewrite Hp.
Qed.

(** C5. [upsert_papers] is idempotent by primary key: inserting the
    same list a second time leaves the table as the first insertion
    left it and returns 0; an insertion only appends rows, so the rows
    already stored keep every field; the count returned is the number
    of rows appended, none of which had its id stored; and a document
    whose id is stored is not inserted and not counted. *)
Theorem upsert_papers_idempotent (s : store) (papers : list paper) :
  upsert_papers (fst (upsert_papers s papers)) papers
    = (fst (upsert_papers s papers), 0)
  /\ (exists added : list paper,
        upsert_papers s papers = (s ++ map new_row added, length added)
        /\ sublist added papers
        /\ Forall (fun p => ~ In (p_id p) (map row_id s)) added)
  /\ (forall p : paper,
        In (p_id p) (map row_id s) -> upsert_papers s [p] = (s, 0)).
Proof.
  unfold upsert_papers.
  destruct (upsert_fold papers s 0) as (added & Hf & Hsub & Hnew & _ & Hall).
  rewrite Hf. cbn [fst]. repeat split.
  - by apply upsert_fold_stored.
  - exists added. repeat split; try done.
    eapply Forall_impl; [exact Hnew|]. cbn. intros p Hp Hin.
    apply exists_id_spec in Hin. congruence.
  - intros p Hp. apply upsert_fold_stored. constructor; [|done].
    by apply exists_id_spec.
Qed.

End upsert.

(** ** The commit pass of the screening agent *)

Section commit.
Import database ScreeningAgent Screening.

Lemma decide_row_id (d : decision) (r : row) :
  row_id (decide_row d r) = row_id r.
Proof.
  unfold decide_row.
  destruct (Py.truthy (d_id d) && String.eqb (row_id r) (Py.or_empty (d_id d)));
    [|done].
  cbn. by destruct (String.eqb _ "EXCLUDE").
Qed.

(** The three branches of the loop body write the same columns, and the
    EXCLUDE branch the final status as well. *)
Lemma commit_step_store (st : commit_state) (d : decision) :
  c_store (commit_step st d) = map (decide_row d) (c_store st).
Proof.
  unfold commit_step, decide_row.
  destruct (Py.truthy (d_id d)); cbn [negb andb].
  2:{ by rewrite map_id. }
  set (pid := Py.or_empty (d_id d)).
  assert (Hl : forall r, String.eqb (row_id r) pid = true ->
                         outcome_of (row_id r) d = outcome_of pid d).
  { intros r E. apply String.eqb_eq in E. by rewrite E. }
  destruct (String.eqb (o_decision (outcome_of pid d)) "INCLUDE") eqn:EI.
  - cbn [c_store]. unfold update_paper. apply map_ext_in. intros r _.
    destruct (String.eqb (row_id r) pid) eqn:E; [|done].
    rewrite (Hl r E).
    destruct (String.eqb (o_decision (outcome_of pid d)) "EXCLUDE") eqn:EE;
      [|done].
    apply String.eqb_eq in EI, EE. congruence.
  - destruct (String.eqb (o_decision (outcome_of pid d)) "EXCLUDE") eqn:EE.
    + cbn [c_store]. unfold update_paper. rewrite map_map.
      apply map_ext_in. intros r _.
      destruct (String.eqb (row_id r) pid) eqn:E; [|by rewrite E].
      cbn [set_screening row_id]. rewrite E, (Hl r E), EE. done.
    + cbn [c_store]. unfold update_paper. apply map_ext_in. intros r _.
      destruct (String.eqb (row_id r) pid) eqn:E; [|done].
      by rewrite (Hl r E), EE.
Qed.

Lemma commit_step_written (st : commit_state) (d : decision) :
  c_written (commit_step st d) = c_written st ++ written_of [d].
Proof.
  unfold commit_step, written_of. cbn [List.filter].
  destruct (Py.truthy (d_id d)); cbn [negb map].
  2:{ by rewrite app_nil_r. }
  by repeat destruct (String.eqb _ _).
Qed.

Lemma written_of_app (ds es : list decision) :
  written_of (ds ++ es) = written_of ds ++ written_of es.
Proof. unfold written_of. by rewrite List.filter_app, map_app. Qed.

Lemma fold_commit (ds : list decision) (st : commit_state) :
  c_store (fold_left commit_step ds st)
    = map (fun r => fold_left (fun r d => decide_row d r) ds r) (c_store st)
  /\ c_written (fold_left commit_step ds st) = c_written st ++ written_of ds.
Proof.
  revert st. induction ds as [|d ds IH]; intros st; cbn [fold_left].
  - rewrite map_id. unfold written_of. cbn. by rewrite app_nil_r.
  - destruct (IH (commit_step st d)) as [-> ->].
    rewrite commit_step_store, commit_step_written, map_map, <- app_assoc.
    split; [done|]. f_equal. symmetry. apply (written_of_app [d] ds).
Qed.

(** The table after the commit pass, row by row. *)
Lemma commit_store (s : store) (ds : list decision) :
  c_store (commit s ds)
  = map (fun r => fold_left (fun r d => decide_row d r) ds r) s.
Proof. unfold commit. by destruct (fold_commit ds (mk_commit s (mk_pass1 0 0 0) [])) as [-> _]. Qed.


(** A row no decision names is left as it was. *)
Lemma decide_rows_unnamed (ds : list decision) (r : row) :
  ~ In (row_id r) (named ds) ->
  fold_left (fun r d => decide_row d r) ds r = r.
Proof.
  induction ds as [|d ds IH]; [done|]. cbn [fold_left]. intros Hn.
  assert (decide_row d r = r) as ->.
  { unfold decide_row. destruct (Py.truthy (d_id d)) eqn:T; [|done].
    destruct (String.eqb (row_id r) (Py.or_empty (d_id d))) eqn:E; [|done].
    exfalso. apply Hn. unfold named. cbn. rewrite T. left.
    apply String.eqb_eq in E. done. }
  apply IH. intros Hin. apply Hn. unfold named in *. cbn.
  destruct (Py.truthy (d_id d)); [by right|done].
Qed.

(** A row named once receives that decision. *)
Lemma decide_rows_named_once (ds : list decision) (d : decision) (r : row) :
  NoDup (named ds) -> In d ds -> Py.truthy (d_id d) = true ->
  Py.or_empty (d_id d) = row_id r ->
  fold_left (fun r d => decide_row d r) ds r = decide_row d r.
Proof.
  induction ds as [|e ds IH]; [done|]. cbn [fold_left].
  intros Hnd [->|Hin] T E.
  - apply decide_rows_unnamed. rewrite decide_row_id.
    unfold named in *. cbn in Hnd. rewrite T in Hnd. cbn in Hnd.
    apply NoDup_cons in Hnd as [Hnd _]. rewrite list_elem_of_In in Hnd.
    by rewrite <- E.
  - assert (decide_row e r = r) as ->.
    { unfold decide_row. destruct (Py.truthy (d_id e)) eqn:Te; [|done].
      destruct (String.eqb (row_id r) (Py.or_empty (d_id e))) eqn:Ee; [|done].
      exfalso. apply String.eqb_eq in Ee.
      unfold named in Hnd. cbn in Hnd. rewrite Te in Hnd. cbn in Hnd.
      apply NoDup_cons in Hnd as [Hnd _]. apply Hnd.
      rewrite <- Ee, <- E. apply list_elem_of_In, in_map_iff.
      exists d. split; [done|]. apply filter_In. done. }
    apply IH; try done. unfold named in *. cbn in Hnd.
    destruct (Py.truthy (d_id e)); [|done]. cbn in Hnd.
    by apply NoDup_cons in Hnd as [_ Hnd].
Qed.

Lemma collect_nil (remote : nat -> reply response) (completion : list nat) :
  collect remote [] completion = [].
Proof.
  unfold collect. induction completion as [|i l IH]; [done|]. cbn.
  by rewrite lookup_nil.
Qed.

(** The table a run leaves is the table its commit pass leaves; with
    nothing to screen there are no decisions to commit. *)
Lemma run_pass1_store (s : store) (remote : nat -> reply response)
    (completion : list nat) :
  r_store (run_pass1 s remote completion)
  = c_store (commit s (all_decisions s remote completion)).
Proof.
  unfold run_pass1, all_decisions, batches_of.
  destruct (unscreened s) as [|u0 us]; [|done].
  change (make_batches config.DEFAULT_SCREENING_BATCH_SIZE []) with (@nil (list row)).
  by rewrite collect_nil.
Qed.


Lemma label_cases (d : decision) :
  label d = "INCLUDE" \/ label d = "EXCLUDE" \/ label d = "BORDERLINE".
Proof.
  unfold label.
  destruct (String.eqb _ "INCLUDE") eqn:E1;
    [apply String.eqb_eq in E1; by left|].
  destruct (String.eqb _ "EXCLUDE") eqn:E2;
    [apply String.eqb_eq in E2; right; by left|].
  destruct (String.eqb _ "BORDERLINE") eqn:E3;
    [apply String.eqb_eq in E3|]; right; by right.
Qed.

(** C8 (amended). In the commit pass a decision whose id is missing or
    empty, or whose id is the id of no stored document, changes no
    stored document; the label recorded is always one of the three, and
    a label that after upper-casing is none of INCLUDE, EXCLUDE and
    BORDERLINE is recorded as BORDERLINE in the outcome written and in
    the row of that id. *)
Theorem commit_ignores_unknown_ids (st : commit_state) (d : decision) :
  (Py.truthy (d_id d) = false -> c_store (commit_step st d) = c_store st)
  /\ (forall pid : string,
        d_id d = Some pid -> ~ In pid (map row_id (c_store st)) ->
        c_store (commit_step st d) = c_store st)
  /\ (label d = "INCLUDE" \/ label d = "EXCLUDE" \/ label d = "BORDERLINE")
  /\ (forall l : string,
        d_decision d = Some l ->
        Py.upper l <> "INCLUDE" -> Py.upper l <> "EXCLUDE" ->
        Py.upper l <> "BORDERLINE" ->
        label d = "BORDERLINE"
        /\ (Py.truthy (d_id d) = true ->
            Forall (fun o => o_decision o = "BORDERLINE") (written_of [d])
            /\ forall r : row,
                 In r (c_store (commit_step st d)) ->
                 Some (row_id r) = d_id d ->
                 screening_pass1 r = Some "BORDERLINE")).
Proof.
  split; [|split; [|split]].
  - intros T. rewrite commit_step_store. rewrite <- (map_id (c_store st)) at 2.
    apply map_ext. intros r. unfold decide_row. by rewrite T.
  - intros pid Hd Hn. rewrite commit_step_store.
    rewrite <- (map_id (c_store st)) at 2. apply map_ext_in. intros r Hr.
    unfold decide_row. rewrite Hd. cbn [Py.or_empty].
    destruct (String.eqb (row_id r) pid) eqn:E; [|by rewrite andb_false_r].
    apply String.eqb_eq in E. exfalso. apply Hn. rewrite <- E. by apply in_map.
  - apply label_cases.
  - intros l Hl H1 H2 H3.
    assert (label d = "BORDERLINE") as Hb.
    { unfold label. rewrite Hl.
      change (default "BORDERLINE" (Some l)) with l.
      apply String.eqb_neq in H1, H2, H3. by rewrite H1, H2, H3. }
    split; [done|]. intros T. split.
    + unfold written_of. cbn [List.filter]. rewrite T. cbn [map].
      constructor; [|done]. done.
    + intros r Hr Hid. rewrite commit_step_store in Hr.
      apply in_map_iff in Hr as (r0 & <- & _).
      rewrite decide_row_id in Hid.
      unfold decide_row. rewrite T, <- Hid. cbn [Py.or_empty andb].
      rewrite String.eqb_refl. cbn. by rewrite Hb.
Qed.

End commit.

(** ** The finalize invariant *)

Section lifecycle.
Import database ScreeningAgent Screening Lifecycle.

Lemma update_paper_same (s : store) (pid : string) :
  update_paper s pid (fun r => r) = s.
Proof.
  unfold update_paper. rewrite <- (map_id s) at 2. apply map_ext.
  intros r. by destruct (String.eqb (row_id r) pid).
Qed.

Lemma human_step_update (s : store) (p : row) :
  human_step s p = update_paper s (row_id p) (human_set p).
Proof.
  unfold human_step, human_set. destruct (human_decision p) as [d|].
  - destruct (String.eqb d "INCLUDE"); [done|].
    destruct (String.eqb d "EXCLUDE"); [done|].
    by rewrite update_paper_same.
  - by rewrite update_paper_same.
Qed.

Lemma finalize_step_update (s : store) (p : row) :
  finalize_step s p = update_paper s (row_id p) (finalize_set p).
Proof.
  unfold finalize_step, finalize_set.
  destruct (col_eq (screening_pass1 p) "INCLUDE"
            && negb (Py.truthy (final_status p))); [done|].
  by rewrite update_paper_same.
Qed.

Lemma human_set_id (p r : row) : row_id (human_set p r) = row_id r.
Proof.
  unfold human_set. destruct (human_decision p) as [d|]; [|done].
  destruct (String.eqb d "INCLUDE"); [done|].
  by destruct (String.eqb d "EXCLUDE").
Qed.

Lemma finalize_set_id (p r : row) : row_id (finalize_set p r) = row_id r.
Proof. unfold finalize_set. by destruct (_ && _). Qed.

(** A loop over a listing of the table whose body updates the listed
    row: every row is changed by its own entry only. *)
Lemma fold_listing (g : row -> row -> row) (listing : list row) (s : store) :
  (forall p r, row_id (g p r) = row_id r) ->
  NoDup (map row_id s) ->
  (forall p, In p listing -> In p s) ->
  NoDup listing ->
  Forall2 (fun r r' => r' = r \/ r' = g r r) s
    (fold_left (fun s p => update_paper s (row_id p) (g p)) listing s).
Proof.
  intros Hg Hnd Hsub Hl. rewrite fold_update.
  assert (Hk : NoDup (map row_id listing)).
  { apply NoDup_fmap_2_strong; [|done].
    intros p q Hp Hq E. apply list_elem_of_In in Hp, Hq.
    apply (row_id_inj s); auto. }
  apply Forall2_fmap_r, Forall_Forall2_diag, Forall_forall.
  intros r Hr. apply list_elem_of_In in Hr. unfold compose. cbn beta.
  rewrite (fold_row_unique row_id g) by done.
  destruct (List.find _ listing) as [p|] eqn:F; [|by left].
  apply find_some in F as [Hp E]. apply String.eqb_eq in E.
  right. f_equal. symmetry. apply (row_id_inj s); auto.
Qed.

Lemma listing_nodup (s : store) (fs p1 : option string) :
  NoDup (map row_id s) -> NoDup (get_papers s fs p1).
Proof.
  intros Hnd. rewrite get_papers_perm.
  apply NoDup_fmap_1 in Hnd. clear -Hnd.
  induction Hnd as [|r s Hr Hnd IH]; cbn; [constructor|].
  destruct (_ && _); [|done]. constructor; [|done].
  rewrite list_elem_of_In, filter_In, <- list_elem_of_In. tauto.
Qed.

Lemma inv_human_set (r : row) : inv_row r -> inv_row (human_set r r).
Proof.
  intros [HI HE].
  enough (forall p, human_decision r = human_decision p ->
                    inv_row (human_set p r)) as H by by apply H.
  intros p Hp. unfold human_set.
  destruct (human_decision p) as [d|]; [|exact (conj HI HE)].
  destruct (String.eqb d "INCLUDE") eqn:E1.
  { split; cbn; [done|discriminate]. }
  destruct (String.eqb d "EXCLUDE") eqn:E2; [|exact (conj HI HE)].
  apply String.eqb_eq in E2. subst d.
  split; cbn; [discriminate|]. intros _. by right.
Qed.

Lemma inv_finalize_set (r : row) : inv_row r -> inv_row (finalize_set r r).
Proof.
  intros [HI HE]. unfold finalize_set.
  destruct (col_eq (screening_pass1 r) "INCLUDE") eqn:E;
    [|exact (conj HI HE)].
  destruct (Py.truthy (final_status r)); [exact (conj HI HE)|]. cbn.
  apply col_eq_true in E. split; cbn; [done|discriminate].
Qed.

Lemma inv_decide_row (d : decision) (r : row) :
  Py.truthy (screening_pass1 r) = false -> inv_row r ->
  inv_row (decide_row d r).
Proof.
  intros Hu [HI HE]. unfold decide_row.
  destruct (Py.truthy (d_id d) && String.eqb (row_id r) (Py.or_empty (d_id d)));
    [|exact (conj HI HE)].
  assert (HnI : final_status r <> Some "INCLUDED").
  { intros H. apply HI in H. by rewrite H in Hu. }
  assert (HnE : final_status r = Some "EXCLUDED" ->
                human_decision r = Some "EXCLUDE").
  { intros H. destruct (HE H) as [H'|H']; [|done]. by rewrite H' in Hu. }
  cbn [outcome_of o_decision o_reason o_confidence].
  destruct (String.eqb (label d) "EXCLUDE") eqn:E.
  - apply String.eqb_eq in E. rewrite E.
    split; cbn; [discriminate|]. intros _. by left.
  - split; cbn; [done|]. intros H. right. by apply HnE.
Qed.

Lemma in_named (ds : list decision) (i : string) :
  In i (named ds) ->
  exists d, In d ds /\ Py.truthy (d_id d) = true /\ Py.or_empty (d_id d) = i.
Proof.
  unfold named. rewrite in_map_iff. intros (d & E & Hd).
  apply filter_In in Hd as [Hd T]. eauto.
Qed.

Lemma unscreened_in (s : store) (r : row) :
  In r (unscreened s)
  <-> In r s /\ Py.truthy (screening_pass1 r) = false.
Proof.
  unfold unscreened. rewrite filter_In, negb_true_iff, get_papers_in.
  cbn. tauto.
Qed.

Lemma inv_run_pass1 (s : store) (remote : nat -> reply response)
    (completion : list nat) :
  NoDup (map row_id s) -> finalize_invariant s ->
  answers_fit s remote completion ->
  finalize_invariant (r_store (run_pass1 s remote completion)).
Proof.
  intros Hnd Hinv [Hn Hfit]. rewrite run_pass1_store, commit_store.
  set (ds := all_decisions s remote completion) in *.
  unfold finalize_invariant in *. rewrite Forall_forall in Hinv.
  apply Forall_fmap, Forall_forall. intros r Hr. cbn.
  pose proof (Hinv r Hr) as Hir. apply list_elem_of_In in Hr.
  destruct (in_dec string_dec (row_id r) (named ds)) as [Hin|Hout].
  - destruct (in_named ds _ Hin) as (d & Hd & T & E).
    rewrite (decide_rows_named_once ds d r) by done.
    apply inv_decide_row; [|done].
    specialize (Hfit _ Hin (in_map row_id _ _ Hr)).
    apply in_map_iff in Hfit as (r' & E' & Hr').
    apply unscreened_in in Hr' as [Hr' Hu'].
    by rewrite <- (row_id_inj s r' r Hnd Hr' Hr E').
  - by rewrite decide_rows_unnamed.
Qed.

Lemma Forall2_transfer {A : Type} (R : A -> A -> Prop) (P : A -> Prop)
    (l l' : list A) :
  Forall2 R l l' -> (forall x y, R x y -> P x -> P y) ->
  Forall P l -> Forall P l'.
Proof.
  intros H2 HR. induction H2 as [|x y l l' Hxy _ IH]; [done|].
  rewrite !Forall_cons. intros [Hx Hl]. split; eauto.
Qed.

Lemma inv_listing (g : row -> row -> row) (listing : list row) (s : store) :
  (forall p r, row_id (g p r) = row_id r) ->
  (forall r, inv_row r -> inv_row (g r r)) ->
  NoDup (map row_id s) ->
  (forall p, In p listing -> In p s) ->
  NoDup listing ->
  finalize_invariant s ->
  finalize_invariant
    (fold_left (fun s p => update_paper s (row_id p) (g p)) listing s).
Proof.
  intros Hg Hi Hnd Hsub Hl Hinv.
  pose proof (fold_listing g listing s Hg Hnd Hsub Hl) as H2.
  unfold finalize_invariant in *.
  eapply Forall2_transfer; [exact H2| |exact Hinv].
  cbn. intros r r' [->| ->] Hr; auto.
Qed.

Lemma fold_left_ext_in {A B : Type} (f g : A -> B -> A) (l : list B) (a : A) :
  (forall a b, f a b = g a b) -> fold_left f l a = fold_left g l a.
Proof.
  intros H. revert a. induction l as [|b l IH]; intros a; [done|].
  cbn. by rewrite H, IH.
Qed.

Lemma apply_human_decisions_update (s : store) :
  apply_human_decisions s
  = fold_left (fun s p => update_paper s (row_id p) (human_set p))
      (get_papers s None (Some "BORDERLINE")) s.
Proof. apply fold_left_ext_in, human_step_update. Qed.

Lemma finalize_included_update (s : store) :
  finalize_included s
  = fold_left (fun s p => update_paper s (row_id p) (finalize_set p))
      (get_papers s None None) s.
Proof. apply fold_left_ext_in, finalize_step_update. Qed.

Lemma inv_press (s : store) (pid : string) (b : hitl_review.button) :
  NoDup (map row_id s) -> finalize_invariant s ->
  finalize_invariant (hitl_review.press s pid b).
Proof.
  intros Hnd Hinv. unfold hitl_review.press.
  destruct (existsb _ s) eqn:Ex; [|done].
  apply existsb_exists in Ex as (r0 & Hr0 & Ex).
  apply andb_true_iff in Ex as [E0 Hw]. apply String.eqb_eq in E0.
  unfold hitl_review.awaiting in Hw. apply andb_true_iff in Hw as [_ Hw].
  apply negb_true_iff in Hw.
  unfold finalize_invariant, update_paper in *.
  rewrite Forall_forall in Hinv.
  apply Forall_fmap, Forall_forall. intros r Hr. cbn.
  destruct (Hinv r Hr) as [HI HE]. apply list_elem_of_In in Hr.
  destruct (String.eqb (row_id r) pid) eqn:E; [|done].
  apply String.eqb_eq in E.
  assert (r0 = r) as -> by (apply (row_id_inj s); congruence).
  split; cbn; [done|]. intros H. destruct (HE H) as [?|H']; [by left|].
  by rewrite H' in Hw.
Qed.

Lemma exec_ids (s : store) (o : op) :
  map row_id (exec s o) = map row_id s.
Proof.
  destruct o as [remote completion| | |pid b]; cbn [exec].
  - rewrite run_pass1_store, commit_store, map_map. apply map_ext.
    intros r. generalize (all_decisions s remote completion).
    intros ds. revert r. induction ds as [|d ds IH]; intros r; [done|].
    cbn [fold_left]. by rewrite IH, decide_row_id.
  - rewrite apply_human_decisions_update. apply fold_update_ids, human_set_id.
  - rewrite finalize_included_update. apply fold_update_ids, finalize_set_id.
  - unfold hitl_review.press. destruct (existsb _ s); [|done].
    by apply update_paper_ids.
Qed.

Lemma inv_exec (s : store) (o : op) :
  NoDup (map row_id s) -> finalize_invariant s ->
  match o with
  | RunPass1 remote completion => answers_fit s remote completion
  | _ => True
  end ->
  finalize_invariant (exec s o).
Proof.
  intros Hnd Hinv Hfit.
  destruct o as [remote completion| | |pid b]; cbn [exec].
  - by apply inv_run_pass1.
  - rewrite apply_human_decisions_update.
    apply inv_listing; auto using human_set_id, inv_human_set, listing_nodup.
    intros p Hp. by apply get_papers_in in Hp as [? _].
  - rewrite finalize_included_update.
    apply inv_listing; auto using finalize_set_id, inv_finalize_set, listing_nodup.
    intros p Hp. by apply get_papers_in in Hp as [? _].
  - by apply inv_press.
Qed.

(** C1 (amended). In a table with a primary key the finalize invariant
    - INCLUDED only with screening decision INCLUDE, EXCLUDED only with
    screening decision EXCLUDE or human decision EXCLUDE - is kept by
    every sequence of screening runs, human-decision applications,
    finalize passes and review-page button presses, provided the
    decisions handed back in each screening run name every document at
    most once and no stored document that was already screened. *)
Theorem finalize_invariant_preserved (s : store) (ops : list op) :
  NoDup (map row_id s) ->
  finalize_invariant s ->
  fit s ops ->
  finalize_invariant (exec_all s ops).
Proof.
  unfold exec_all. revert s.
  induction ops as [|o ops IH]; intros s Hnd Hinv Hfit; [done|].
  cbn [fold_left]. destruct Hfit as [Ho Hrest].
  apply IH; [by rewrite exec_ids| by apply inv_exec | done].
Qed.

End lifecycle.

(** ** Batches, failed calls and the commit pass *)

Section batches.
Import database ScreeningAgent Screening.

Lemma make_batches_concat (n : nat) (l : list row) :
  0 < n -> concat (make_batches n l) = l.
Proof.
  intros Hn. unfold make_batches.
  assert (H : forall m,
             concat (map (fun k => take n (drop (k * n) l)) (seq 0 m))
             = take (m * n) l).
  { induction m as [|m IH]; [done|].
    rewrite seq_S, map_app, concat_app, IH. cbn [map concat Nat.add].
    rewrite app_nil_r, take_take_drop. f_equal. lia. }
  rewrite H. apply take_ge.
  pose proof (Nat.div_mod_eq (length l + n - 1) n) as Hd.
  pose proof (Nat.mod_upper_bound (length l + n - 1) n) as Hm.
  nia.
Qed.



Lemma omap_ext_in {A B : Type} (f g : A -> option B) (l : list A) :
  (forall x, In x l -> f x = g x) -> omap f l = omap g l.
Proof.
  induction l as [|x l IH]; [done|]. intros H. cbn.
  rewrite (H x) by by left. rewrite IH; [done|].
  intros y Hy. apply H. by right.
Qed.

Lemma omap_lookup_all {A : Type} (l : list A) :
  omap (fun i => l !! i) (seq 0 (length l)) = l.
Proof.
  induction l as [|x l IH] using rev_ind; [done|].
  rewrite length_app, seq_app, omap_app. f_equal.
  - rewrite <- IH at 2. apply omap_ext_in. intros i Hi.
    apply in_seq in Hi. apply lookup_app_l. lia.
  - cbn. by rewrite list_lookup_middle.
Qed.









Lemma filter_ids_nodup (f : row -> bool) (l : list row) :
  NoDup (map row_id l) -> NoDup (map row_id (List.filter f l)).
Proof.
  induction l as [|r l IH]; [done|]. cbn [map List.filter].
  rewrite NoDup_cons. intros [Hr Hnd]. destruct (f r); [|by apply IH].
  cbn [map]. apply NoDup_cons. split; [|by apply IH].
  rewrite list_elem_of_In in *. intros H. apply Hr.
  apply in_map_iff in H as (x & E & Hx). apply filter_In in Hx as [Hx _].
  rewrite <- E. by apply in_map.
Qed.







Lemma fold_decide_id (ds : list decision) (r : row) :
  row_id (fold_left (fun r d => decide_row d r) ds r) = row_id r.
Proof.
  revert r. induction ds as [|d ds IH]; intros r; [done|].
  cbn [fold_left]. by rewrite IH, decide_row_id.
Qed.



End batches.

(** ** The snowballing controller *)

Section snowball.
Import database ScreeningAgent Screening SnowballingAgent Snowball.

Lemma decide_row_included (d : decision) (r : row) :
  is_status "INCLUDED" (decide_row d r) = true ->
  is_status "INCLUDED" r = true.
Proof.
  unfold decide_row.
  destruct (Py.truthy (d_id d) && String.eqb (row_id r) (Py.or_empty (d_id d)));
    [|done].
  cbn [outcome_of o_decision o_reason o_confidence].
  by destruct (String.eqb (label d) "EXCLUDE").
Qed.

Lemma fold_decide_included (ds : list decision) (r : row) :
  is_status "INCLUDED" (fold_left (fun r d => decide_row d r) ds r) = true ->
  is_status "INCLUDED" r = true.
Proof.
  revert r. induction ds as [|d ds IH]; intros r; [done|].
  cbn [fold_left]. intros H. by apply decide_row_included with d, IH.
Qed.

Lemma count_where_map (f : row -> bool) (g : row -> row) (s : store) :
  (forall r, f (g r) = true -> f r = true) ->
  (count_where f (map g s) <= count_where f s)%Z.
Proof.
  intros H. unfold count_where. apply inj_le.
  induction s as [|r s IH]; [done|]. cbn.
  destruct (f (g r)) eqn:E.
  - rewrite (H r E). cbn. lia.
  - destruct (f r); cbn; lia.
Qed.

(** A screening run never raises the number of INCLUDED documents: it
    writes no final status but EXCLUDED. *)
Lemma run_pass1_included (s : store) (remote : nat -> reply response)
    (completion : list nat) :
  (c_included (count_papers (r_store (run_pass1 s remote completion)))
   <= c_included (count_papers s))%Z.
Proof.
  rewrite run_pass1_store, commit_store. cbn [count_papers c_included].
  apply count_where_map. intros r. apply fold_decide_included.
Qed.

Lemma stop_reasons_nonempty (new_included : Z) (n : nat)
    (included_after target_size : Z) :
  0 < n -> (new_included <= 0)%Z ->
  stop_reasons new_included
    (inject_Z new_included / inject_Z (Z.of_nat n)) included_after target_size
  <> [].
Proof.
  intros Hn Hnew. unfold stop_reasons.
  destruct (new_included =? 0)%Z eqn:E; [done|].
  apply Z.eqb_neq in E.
  assert (Hy : Qltb (inject_Z new_included / inject_Z (Z.of_nat n))
                 config.DEFAULT_MIN_YIELD_RATE = true).
  { unfold Qltb. apply negb_true_iff. apply not_true_iff_false.
    rewrite Qle_bool_iff. apply Qlt_not_le.
    apply Qlt_trans with 0%Q; [|done].
    destruct n as [|k]; [lia|]. rewrite Nat2Z.inj_succ.
    destruct (Z.succ (Z.of_nat k)) as [|p|p] eqn:Ek; [lia| |lia].
    unfold Qdiv, Qmult, Qinv, Qlt, inject_Z. cbn. lia. }
  rewrite Hy. done.
Qed.

(** Every round appends one report and, when it screened, ends in
    [break]. *)
Lemma round_shape (w : world) (c : cfg) (round_num : nat) (st : state) :
  snd (round w c round_num st) = false
  /\ exists rep,
       reports (fst (round w c round_num st)) = reports st ++ [rep]
       /\ report_ok c rep
       /\ (rep = NoIncluded <-> get_papers (db st) (Some "INCLUDED") None = [])
       /\ (found w c round_num (db st) = [] ->
           (rep = NoIncluded \/ rep = NoCandidates)
           /\ db (fst (round w c round_num st)) = db st
           /\ total_new_included (fst (round w c round_num st))
              = total_new_included st).
Proof.
  unfold round, found.
  destruct (get_papers (db st) (Some "INCLUDED") None) as [|i0 is0] eqn:Hi.
  { split; [done|]. exists NoIncluded. cbn. repeat split; auto. }
  set (known_ids := _get_all_known_ids (db st)).
  destruct (unique_candidates round_num known_ids _) as [|u0 us] eqn:Hu.
  { split; [done|]. exists NoCandidates. cbn. repeat split; auto; done. }
  set (s1 := fst (upsert_papers (db st) (u0 :: us))).
  set (run := run_pass1 s1 (screening w round_num) (completion w round_num)).
  pose proof (run_pass1_included s1 (screening w round_num)
                (completion w round_num)) as Hle.
  fold run in Hle.
  set (new := (c_included (count_papers (r_store run))
               - c_included (count_papers s1))%Z) in *.
  assert (Hnew : (new <= 0)%Z) by (unfold new; lia).
  pose proof (stop_reasons_nonempty new (length (u0 :: us))
                (c_included (count_papers (r_store run)))
                (target_corpus_size c) ltac:(cbn; lia) Hnew) as Hne.
  cbn zeta. split.
  - cbn [snd]. by destruct (stop_reasons _ _ _ _).
  - eexists. cbn [fst reports]. split; [reflexivity|].
    split; [|split]; [repeat split; [cbn; lia|done]|split; done|done].
Qed.

Lemma loop_one (w : world) (c : cfg) (round_num : nat) (rest : list nat)
    (st : state) :
  loop w c (round_num :: rest) st = fst (round w c round_num st).
Proof.
  cbn [loop]. destruct (round_shape w c round_num st) as [Hh _].
  destruct (round w c round_num st) as [st' continue]. cbn in *.
  by rewrite Hh.
Qed.

(** A run makes no round when the cap is not positive, and otherwise
    exactly the first one. *)
Lemma run_rounds (w : world) (c : cfg) (s : store) :
  let st0 := {| db := s; total_new_included := 0; reports := [] |} in
  ((max_snowball_rounds c <= 0)%Z /\ run w c s = st0)
  \/ ((1 <= max_snowball_rounds c)%Z /\ run w c s = fst (round w c 1 st0)).
Proof.
  cbn zeta. unfold run.
  destruct (Z.to_nat (max_snowball_rounds c)) as [|k] eqn:E.
  - left. split; [lia|done].
  - right. split; [lia|]. cbn [seq]. apply loop_one.
Qed.





(** The reports of a run: none, or the one of the first round. *)
Lemma run_reports (w : world) (c : cfg) (s : store) :
  ((max_snowball_rounds c <= 0)%Z /\ reports (run w c s) = [])
  \/ ((1 <= max_snowball_rounds c)%Z
      /\ exists rep, reports (run w c s) = [rep] /\ report_ok c rep
         /\ (rep = NoIncluded
             <-> get_papers s (Some "INCLUDED") None = [])).
Proof.
  destruct (run_rounds w c s) as [[Hm ->]|[Hm ->]]; [by left|right].
  split; [done|].
  destruct (round_shape w c 1 (mk_state s 0 [])) as (_ & rep & Hr & Hok & Hi & _).
  exists rep. by rewrite Hr.
Qed.


(** C9 (amended). With a cap of at least one round and a document with
    final status INCLUDED in the table, the run makes at least one
    round, and that round gets past the check for included documents;
    with a cap that is not negative it makes no more rounds than the
    cap. *)
Theorem round_count (w : world) (c : cfg) (s : store) :
  ((1 <= max_snowball_rounds c)%Z ->
   (exists r, In r s /\ final_status r = Some "INCLUDED") ->
   exists rep rest, reports (run w c s) = rep :: rest /\ rep <> NoIncluded)
  /\ ((0 <= max_snowball_rounds c)%Z ->
      (Z.of_nat (length (reports (run w c s))) <= max_snowball_rounds c)%Z).
Proof.
  split.
  - intros Hm (r & Hr & Hf).
    destruct (run_reports w c s) as [[Hle _]|(_ & rep & Hrep & _ & Hi)];
      [lia|].
    exists rep, []. split; [done|]. intros E. apply Hi in E.
    assert (In r (get_papers s (Some "INCLUDED") None)) as Hin.
    { apply get_papers_in. split; [done|]. split; [|done].
      by apply col_matches_some. }
    by rewrite E in Hin.
  - intros Hm.
    destruct (run_reports w c s) as [[_ ->]|(H1 & rep & -> & _)]; cbn; lia.
Qed.

End snowball.

(** ** Deduplication *)

Section dedup.
Import SearchAgent Dedup.

Lemma dropped_spec (seen_d seen_t : gset string) (p : paper) :
  dropped seen_d seen_t p = true <-> already_seen seen_d seen_t p.
Proof.
  unfold dropped, already_seen, title_of.
  rewrite orb_true_iff, andb_true_iff, negb_true_iff, String.eqb_neq.
  by rewrite !bool_decide_eq_true.
Qed.

Lemma dedup_step_cases (st : dedup_state) (p : paper) :
  dedup_step st p
  = if dropped (seen_dois st) (seen_titles st) p then st else keep st p.
Proof.
  unfold dedup_step, dropped, keep, title_of.
  destruct (negb _ && bool_decide _); [done|]. cbn [orb].
  by destruct (bool_decide _).
Qed.

Lemma dedup_snoc (l : list paper) (p : paper) (seen_d seen_t : gset string) :
  _deduplicate (l ++ [p]) seen_d seen_t
  = dedup_step (_deduplicate l seen_d seen_t) p.
Proof. unfold _deduplicate. by rewrite fold_left_app. Qed.

(** Running on from a state with documents already kept only prefixes
    them. *)
Lemma dedup_from (l : list paper) (u : list paper) (sd stt : gset string) :
  fold_left dedup_step l (mk_dedup u sd stt)
  = let d := _deduplicate l sd stt in
    mk_dedup (u ++ unique d) (seen_dois d) (seen_titles d).
Proof.
  unfold _deduplicate. revert u sd stt.
  induction l as [|p l IH]; intros u sd stt.
  - cbn. by rewrite app_nil_r.
  - cbn [fold_left]. rewrite !dedup_step_cases. cbn [seen_dois seen_titles].
    destruct (dropped sd stt p); [apply IH|].
    unfold keep. cbn [unique seen_dois seen_titles app].
    rewrite (IH (u ++ [p])), (IH [p]). cbn zeta.
    cbn [unique seen_dois seen_titles]. by rewrite <- app_assoc.
Qed.

Lemma dedup_app (l1 l2 : list paper) (sd stt : gset string) :
  _deduplicate (l1 ++ l2) sd stt
  = let d1 := _deduplicate l1 sd stt in
    let d2 := _deduplicate l2 (seen_dois d1) (seen_titles d1) in
    mk_dedup (unique d1 ++ unique d2) (seen_dois d2) (seen_titles d2).
Proof.
  unfold _deduplicate at 1. rewrite fold_left_app.
  fold (_deduplicate l1 sd stt).
  destruct (_deduplicate l1 sd stt) as [u1 sd1 st1]. apply dedup_from.
Qed.

Lemma dois_app (l1 l2 : list paper) : dois (l1 ++ l2) = dois l1 ++ dois l2.
Proof. unfold dois. by rewrite map_app, List.filter_app. Qed.

Lemma in_dois (l : list paper) (k : string) :
  In k (dois l) <-> k <> "" /\ exists q, In q l /\ doi_key q = k.
Proof.
  unfold dois. rewrite filter_In, in_map_iff, negb_true_iff, String.eqb_neq.
  firstorder.
Qed.

Lemma dedup_invariant (l : list paper) (sd0 st0 : gset string) :
  dedup_inv sd0 st0 l (_deduplicate l sd0 st0).
Proof.
  induction l as [|p l IH] using rev_ind.
  - cbn. split; cbn; try done; auto; constructor.
  - rewrite dedup_snoc, dedup_step_cases.
    set (st := _deduplicate l sd0 st0) in *.
    destruct (dropped (seen_dois st) (seen_titles st) p) eqn:D.
    + destruct IH. split; auto.
      * intros k Hk. destruct (inv_titles_from0 k Hk) as [?|(q & Hq & E)];
          [by left|right]. exists q. split; [|done]. apply in_or_app. by left.
      * intros k Hk. destruct (inv_dois_from0 k Hk) as [?|(q & Hq & E)];
          [by left|right]. exists q. split; [|done]. apply in_or_app. by left.
      * intros q Hq. apply in_or_app. left. auto.
    + assert (Hns : ~ already_seen (seen_dois st) (seen_titles st) p).
      { rewrite <- dropped_spec. by rewrite D. }
      unfold already_seen in Hns. destruct IH.
      split; unfold keep; cbn [unique seen_dois seen_titles].
      * intros q Hq. apply in_app_or in Hq as [Hq|[<-|[]]]; set_solver.
      * intros q Hq Hne. apply in_app_or in Hq as [Hq|[<-|[]]].
        -- destruct (negb _); [|by auto]. apply elem_of_union_r. auto.
        -- apply String.eqb_neq in Hne. rewrite Hne. cbn. set_solver.
      * intros k Hk. apply elem_of_union in Hk as [Hk|Hk].
        -- apply elem_of_singleton in Hk as ->. right. exists p.
           split; [|done]. apply in_or_app. right. by left.
        -- destruct (inv_titles_from0 k Hk) as [?|(q & Hq & E)];
             [by left|right]. exists q. split; [|done].
           apply in_or_app. by left.
      * intros k Hk.
        assert (k = doi_key p \/ k ∈ seen_dois st) as [->|Hk'].
        { destruct (negb _); [|by right]. set_solver. }
        -- right. exists p. split; [|done]. apply in_or_app. right. by left.
        -- destruct (inv_dois_from0 k Hk') as [?|(q & Hq & E)];
             [by left|right]. exists q. split; [|done].
           apply in_or_app. by left.
      * intros q Hq. apply in_or_app.
        apply in_app_or in Hq as [Hq|[<-|[]]]; [left; auto|right; by left].
      * rewrite map_app. cbn [map]. apply NoDup_app. split; [done|].
        split; [|apply NoDup_singleton].
        intros k Hk Hp. apply list_elem_of_In in Hk, Hp.
        destruct Hp as [<-|[]]. apply in_map_iff in Hk as (q & E & Hq).
        apply Hns. right. rewrite <- E. auto.
      * rewrite dois_app. apply NoDup_app. split; [done|].
        split.
        -- intros k Hk Hp. apply list_elem_of_In in Hk, Hp.
           apply in_dois in Hk as (Hne & q & Hq & E).
           apply in_dois in Hp as (_ & q' & [<-|[]] & E').
           apply Hns. left. rewrite E'. split; [done|].
           rewrite <- E. apply inv_dois0; [done|]. by rewrite E.
        -- unfold dois. cbn. destruct (negb _); [apply NoDup_singleton|constructor].
Qed.

Lemma met_cons (r : option (list paper)) (results : list (option (list paper))) :
  met (r :: results) = match r with
                       | Some papers => papers ++ met results
                       | None => met results
                       end.
Proof. unfold met. by destruct r. Qed.

(** The stage deduplicates the documents it meets as one list. *)
Lemma stage_fold (results : list (option (list paper))) (st : search_state)
    (l0 : list paper) :
  kept st = unique (_deduplicate l0 ∅ ∅) ->
  stage_dois st = seen_dois (_deduplicate l0 ∅ ∅) ->
  stage_titles st = seen_titles (_deduplicate l0 ∅ ∅) ->
  let st' := fold_left query_step results st in
  kept st' = unique (_deduplicate (l0 ++ met results) ∅ ∅)
  /\ exists stored added,
       conn st' = conn st ++ map database.new_row stored
       /\ kept st' = kept st ++ added
       /\ sublist stored added.
Proof.
  revert st l0. induction results as [|r results IH]; intros st l0 Hk Hd Ht.
  - cbn. rewrite app_nil_r. split; [done|]. exists [], [].
    by rewrite !app_nil_r.
  - cbn [fold_left]. rewrite met_cons. destruct r as [papers|]; cbn [query_step].
    2:{ by apply IH. }
    set (d := _deduplicate papers (stage_dois st) (stage_titles st)).
    destruct (database.upsert_papers (conn st) (unique d)) as [s' n] eqn:Hup.
    destruct (upsert_fold (unique d) (conn st) 0)
      as (ins & Hf & Hsub & _).
    unfold database.upsert_papers in Hup. rewrite Hf in Hup.
    injection Hup as <- <-.
    pose proof (dedup_app l0 papers ∅ ∅) as Happ. cbn zeta in Happ.
    rewrite <- Hd, <- Ht in Happ. fold d in Happ.
    set (st1 := {| conn := _; total_inserted := _; stage_dois := _;
                   stage_titles := _; kept := _ |}).
    destruct (IH st1 (l0 ++ papers)) as (Hk' & stored & added & Hc & Hka & Hs).
    + cbn. by rewrite Happ, Hk.
    + cbn. by rewrite Happ.
    + cbn. by rewrite Happ.
    + cbn zeta. rewrite app_assoc. split; [done|].
      exists (ins ++ stored), (unique d ++ added). cbn in Hc, Hka.
      rewrite Hc, Hka, map_app, <- !app_assoc. repeat split.
      by apply sublist_app.
Qed.

Lemma stage_kept (s : store) (oa ss : list (option (list paper))) :
  kept (run s oa ss) = unique (_deduplicate (met (oa ++ ss)) ∅ ∅)
  /\ exists stored,
       conn (run s oa ss) = s ++ map database.new_row stored
       /\ sublist stored (kept (run s oa ss)).
Proof.
  unfold run.
  destruct (stage_fold (oa ++ ss) (mk_search s 0 ∅ ∅ []) [])
    as (Hk & stored & added & Hc & Hka & Hs); try done.
  cbn zeta in *. cbn [app conn kept] in *. split; [done|].
  exists stored. split; [done|]. by rewrite Hka.
Qed.

Lemma key_char_lower (c : ascii) :
  Py.is_alnum c = false -> key_char (Py.lower_char c) = false.
Proof.
  destruct c as [[] [] [] [] [] [] [] []]; vm_compute; congruence.
Qed.

Lemma symbols_only_key (t : string) : symbols_only t -> _title_key t = "".
Proof.
  unfold symbols_only, _title_key. intros H.
  assert (List.filter key_char (map Py.lower_char (Py.chars t)) = []) as ->;
    [|done].
  induction H as [|c l Hc _ IH]; [done|]. cbn.
  by rewrite (key_char_lower c Hc).
Qed.

(** C4 (amended). [_deduplicate] drops a document exactly when its
    non-empty lower-cased, stripped DOI is in the DOI seen-set or its
    title key is in the title seen-set, the sets being those left by
    the documents before it; a kept document is appended and its title
    key, and its DOI key when not empty, are added to the seen-sets.
    Over a search stage no two kept documents share a non-empty DOI key,
    the rows stored come from kept documents, and the first document met
    with a given non-empty DOI key is the one kept for that key when no
    document met before it has its title key. *)
Theorem dedup_drops_seen (before : list paper) (p : paper)
    (seen_d seen_t : gset string) (s : store)
    (oa ss : list (option (list paper))) :
  (already_seen (seen_dois (_deduplicate before seen_d seen_t))
                (seen_titles (_deduplicate before seen_d seen_t)) p ->
   _deduplicate (before ++ [p]) seen_d seen_t
   = _deduplicate before seen_d seen_t)
  /\ (~ already_seen (seen_dois (_deduplicate before seen_d seen_t))
                     (seen_titles (_deduplicate before seen_d seen_t)) p ->
      _deduplicate (before ++ [p]) seen_d seen_t
      = keep (_deduplicate before seen_d seen_t) p)
  /\ NoDup (dois (kept (run s oa ss)))
  /\ (exists stored,
        conn (run s oa ss) = s ++ map database.new_row stored
        /\ sublist stored (kept (run s oa ss)))
  /\ (forall after,
        met (oa ++ ss) = before ++ p :: after ->
        doi_key p <> "" ->
        (forall q, In q before -> doi_key q <> doi_key p) ->
        (forall q, In q before -> title_of q <> title_of p) ->
        exists k1 k2,
          kept (run s oa ss) = k1 ++ p :: k2
          /\ forall q, In q (k1 ++ k2) -> doi_key q <> doi_key p).
Proof.
  destruct (stage_kept s oa ss) as [Hk Hst].
  pose proof (inv_dois_nodup _ _ _ _ (dedup_invariant (met (oa ++ ss)) ∅ ∅))
    as Hinv.
  rewrite <- Hk in Hinv.
  split; [|split; [|split; [|split]]].
  - intros H. rewrite dedup_snoc, dedup_step_cases.
    apply dropped_spec in H. by rewrite H.
  - intros H. rewrite dedup_snoc, dedup_step_cases.
    rewrite <- dropped_spec in H. by destruct (dropped _ _ p).
  - done.
  - done.
  - intros after Hmet Hne Hd Ht.
    pose proof (dedup_invariant before ∅ ∅) as Hb.
    set (d1 := _deduplicate before ∅ ∅) in *.
    assert (Hns : dropped (seen_dois d1) (seen_titles d1) p = false).
    { apply not_true_iff_false. rewrite dropped_spec.
      intros [[_ H]|H].
      - destruct (inv_dois_from _ _ _ _ Hb _ H) as [H'|(q & Hq & E)];
          [set_solver|]. by apply (Hd q).
      - destruct (inv_titles_from _ _ _ _ Hb _ H) as [H'|(q & Hq & E)];
          [set_solver|]. by apply (Ht q). }
    assert (Hkept : kept (run s oa ss)
                    = unique d1 ++ p
                      :: unique (_deduplicate after
                                   (seen_dois (keep d1 p))
                                   (seen_titles (keep d1 p)))).
    { rewrite Hk, Hmet.
      change (before ++ p :: after) with (before ++ [p] ++ after).
      rewrite app_assoc, dedup_app. cbn zeta. cbn [unique].
      rewrite dedup_snoc, dedup_step_cases. fold d1. rewrite Hns.
      unfold keep at 1. cbn [unique]. by rewrite <- app_assoc. }
    eexists _, _. split; [exact Hkept|].
    pose proof Hinv as Hnd. rewrite Hkept in Hnd.
    change (?a ++ p :: ?b) with (a ++ [p] ++ b) in Hnd.
    rewrite !dois_app in Hnd.
    assert (Hp : dois [p] = [doi_key p]).
    { unfold dois. cbn. apply String.eqb_neq in Hne. by rewrite Hne. }
    rewrite Hp in Hnd.
    apply NoDup_app in Hnd as (_ & H1 & Hnd).
    apply NoDup_app in Hnd as (_ & H2 & _).
    intros q Hq E. apply in_app_or in Hq as [Hq|Hq].
    + apply (H1 (doi_key p)).
      * apply list_elem_of_In, in_dois. split; [done|]. by exists q.
      * apply list_elem_of_In, in_or_app. left. by left.
    + apply (H2 (doi_key p)); [apply list_elem_of_In; by left|].
      apply list_elem_of_In, in_dois. split; [done|]. by exists q.
Qed.

(** C10. A title key in the title seen-set is enough to drop a
    document, whatever its DOI; a title without a letter or a digit has
    the empty title key; and a search stage keeps at most one document
    with such a title. *)
Theorem title_key_alone_drops (p : paper) (seen_d seen_t : gset string)
    (t : string) (s : store) (oa ss : list (option (list paper))) :
  (title_of p ∈ seen_t -> unique (_deduplicate [p] seen_d seen_t) = [])
  /\ (symbols_only t -> _title_key t = "")
  /\ (forall k1 q1 k2 q2 k3,
        kept (run s oa ss) = k1 ++ q1 :: k2 ++ q2 :: k3 ->
        symbols_only (p_title q1) -> symbols_only (p_title q2) -> False).
Proof.
  split; [|split].
  - intros H. unfold _deduplicate. cbn [fold_left].
    rewrite dedup_step_cases. cbn [seen_dois seen_titles].
    assert (dropped seen_d seen_t p = true) as ->; [|done].
    apply dropped_spec. by right.
  - apply symbols_only_key.
  - intros k1 q1 k2 q2 k3 Hk H1 H2.
    destruct (stage_kept s oa ss) as [Hk' _].
    pose proof (inv_titles_nodup _ _ _ _ (dedup_invariant (met (oa ++ ss)) ∅ ∅))
      as Hnd.
    rewrite <- Hk', Hk in Hnd.
    rewrite map_app in Hnd. cbn [map] in Hnd.
    apply NoDup_app in Hnd as (_ & _ & Hnd).
    apply NoDup_cons in Hnd as [Hnd _]. apply Hnd.
    rewrite map_app. cbn [map]. apply list_elem_of_In, in_or_app. right.
    left. unfold title_of. by rewrite !symbols_only_key.
Qed.

End dedup.

(** ** Relevance scores *)

Section relevance.
Import database RelevanceAgent Relevance.
Local Open Scope Q_scope.

Lemma round_half_even_near (y : Q) :
  y - (1 # 2) <= inject_Z (Py.round_half_even y)
  /\ inject_Z (Py.round_half_even y) <= y + (1 # 2).
Proof.
  unfold Py.round_half_even.
  pose proof (Qfloor_le y) as Hl. pose proof (Qlt_floor y) as Hu.
  rewrite inject_Z_plus in Hu. change (inject_Z 1) with 1 in Hu.
  destruct (Qcompare (y - inject_Z (Qfloor y)) (1 # 2)) eqn:C.
  - apply Qeq_alt in C. destruct (Z.even (Qfloor y));
      rewrite ?inject_Z_plus; change (inject_Z 1) with 1; lra.
  - apply Qlt_alt in C. lra.
  - apply Qgt_alt in C. rewrite inject_Z_plus.
    change (inject_Z 1) with 1. lra.
Qed.

Lemma round_half_even_range (y : Q) (a b : Z) :
  inject_Z a <= y -> y <= inject_Z b ->
  (a <= Py.round_half_even y <= b)%Z.
Proof.
  intros Ha Hb. unfold Py.round_half_even.
  pose proof (Qfloor_resp_le _ _ Ha) as Hfa. rewrite Qfloor_Z in Hfa.
  pose proof (Qfloor_resp_le _ _ Hb) as Hfb. rewrite Qfloor_Z in Hfb.
  pose proof (Qfloor_le y) as Hl.
  assert (Hcase : (Qfloor y < b)%Z \/ (Qfloor y = b /\ y == inject_Z b)).
  { destruct (Z.eq_dec (Qfloor y) b) as [E|E]; [right|left; lia].
    split; [done|]. rewrite E in Hl. lra. }
  destruct (Qcompare (y - inject_Z (Qfloor y)) (1 # 2)) eqn:C.
  - apply Qeq_alt in C. destruct Hcase as [H|[E H]].
    + destruct (Z.even (Qfloor y)); lia.
    + exfalso. rewrite E in C. lra.
  - lia.
  - apply Qgt_alt in C. destruct Hcase as [H|[E H]]; [lia|].
    exfalso. rewrite E in C. lra.
Qed.

Lemma round1_range (x : Q) : 0 <= x -> x <= 100 -> 0 <= Py.round1 x /\ Py.round1 x <= 100.
Proof.
  intros H0 H1. unfold Py.round1.
  destruct (round_half_even_range (x * 10) 0 1000) as [Ha Hb].
  - change (inject_Z 0) with 0. lra.
  - change (inject_Z 1000) with 1000. lra.
  - rewrite Zle_Qle in Ha, Hb.
    change (inject_Z 0) with 0 in Ha. change (inject_Z 1000) with 1000 in Hb.
    split.
    + apply Qle_shift_div_l; [done|]. lra.
    + apply Qle_shift_div_r; [done|]. lra.
Qed.

Lemma round1_near (x : Q) :
  x - (1 # 20) <= Py.round1 x /\ Py.round1 x <= x + (1 # 20).
Proof.
  unfold Py.round1. destruct (round_half_even_near (x * 10)) as [Ha Hb].
  split.
  - apply Qle_shift_div_l; [done|]. lra.
  - apply Qle_shift_div_r; [done|]. lra.
Qed.

Lemma py_min_spec (a b : Q) : Py.min a b == Qmin a b.
Proof.
  unfold Py.min. destruct (Qlt_le_dec b a) as [H|H].
  - symmetry. apply Q.min_r. lra.
  - symmetry. by apply Q.min_l.
Qed.

Lemma py_min_range (b : Q) : 0 <= b -> 0 <= Py.min 100 b /\ Py.min 100 b <= 100.
Proof. intros H. unfold Py.min. destruct (Qlt_le_dec b 100); lra. Qed.

Lemma py_clamp_range (b : Q) :
  0 <= Py.max 0 (Py.min 100 b) /\ Py.max 0 (Py.min 100 b) <= 100.
Proof.
  unfold Py.max, Py.min.
  destruct (Qlt_le_dec b 100); destruct (Qlt_le_dec 0 _); lra.
Qed.

Lemma overlap_nonneg (a b : gset string) : 0 <= keyword_overlap a b.
Proof.
  unfold keyword_overlap. apply Qle_shift_div_l.
  - rewrite <- (Zlt_Qlt 0). lia.
  - rewrite Qmult_0_l, <- (Zle_Qle 0). lia.
Qed.

Lemma cosine_score_range (sim : Q) :
  0 <= cosine_score sim /\ cosine_score sim <= 100.
Proof. unfold cosine_score. apply round1_range; apply py_clamp_range. Qed.

Lemma keyword_score_range (rq : string) (p : row) :
  0 <= keyword_score rq p /\ keyword_score rq p <= 100.
Proof.
  unfold keyword_score.
  pose proof (overlap_nonneg (_tokenise rq) (_tokenise (text_of p))).
  apply round1_range; apply py_min_range; lra.
Qed.

Lemma py_min_formula (a b b' : Q) : b == b' -> Py.min a b == Qmin a b'.
Proof.
  intros E. unfold Py.min. destruct (Qlt_le_dec b a) as [H|H].
  - rewrite Q.min_r by lra. done.
  - rewrite Q.min_l by lra. done.
Qed.

Lemma keyword_score_disjoint (rq : string) (p : row) :
  _tokenise rq ∩ _tokenise (text_of p) = ∅ -> keyword_score rq p == 0.
Proof.
  intros He. unfold keyword_score, keyword_overlap. rewrite He, size_empty.
  set (m := inject_Z (Z.of_nat (Nat.max (size (_tokenise rq)) 1))).
  assert (Hb : inject_Z (Z.of_nat 0) / m * 150 == 0).
  { change (inject_Z (Z.of_nat 0)) with 0. unfold Qdiv. ring. }
  set (b := inject_Z (Z.of_nat 0) / m * 150) in *.
  assert (Hy : Py.min 100 b * 10 == 0).
  { unfold Py.min. destruct (Qlt_le_dec b 100); lra. }
  unfold Py.round1.
  destruct (round_half_even_range (Py.min 100 b * 10) 0 0) as [H1 H2];
    [change (inject_Z 0) with 0; lra..|].
  assert (Py.round_half_even (Py.min 100 b * 10) = 0%Z) as -> by lia.
  done.
Qed.

Lemma keyword_score_formula (rq : string) (p : row) :
  let v := keyword_formula
             (size (_tokenise rq ∩ _tokenise (text_of p)))
             (Nat.max (size (_tokenise rq)) 1) in
  v - (1 # 20) <= keyword_score rq p /\ keyword_score rq p <= v + (1 # 20).
Proof.
  cbn zeta. unfold keyword_score, keyword_formula.
  rewrite <- (py_min_formula 100
               (keyword_overlap (_tokenise rq) (_tokenise (text_of p)) * 150)).
  - apply round1_near.
  - unfold keyword_overlap, Qdiv. ring.
Qed.

Lemma update_bounded (s : store) (pid : string) (q : Q) :
  bounded (Some q) ->
  Forall (fun r => bounded (relevance_score r)) s ->
  Forall (fun r => bounded (relevance_score r))
         (update_paper s pid (set_relevance q)).
Proof.
  intros Hq Hs. unfold update_paper. apply Forall_fmap.
  eapply Forall_impl; [exact Hs|]. cbn. intros r Hr.
  by destruct (String.eqb (row_id r) pid).
Qed.

Lemma run_bounded (s : store) (embedded : list string)
    (cosine : string -> Q) (rq : string) :
  Forall (fun r => bounded (relevance_score r)) s ->
  Forall (fun r => bounded (relevance_score r)) (run s embedded cosine rq).
Proof.
  intros Hs. unfold run.
  destruct (get_papers s (Some "INCLUDED") None) as [|p0 ps]; [done|].
  generalize (p0 :: ps). intros papers.
  destruct embedded as [|e0 es].
  - unfold _keyword_score. revert s Hs.
    induction papers as [|p papers IH]; intros s Hs; [done|].
    cbn [fold_left]. apply IH, update_bounded; [|done].
    apply keyword_score_range.
  - generalize (e0 :: es). intros emb. revert s Hs.
    induction papers as [|p papers IH]; intros s Hs; [done|].
    cbn [fold_left]. apply IH. destruct (existsb _ emb); [|done].
    apply update_bounded; [|done]. apply cosine_score_range.
Qed.

(** C6 (amended). Every relevance score lies between 0 and 100, on the
    cosine path and on the keyword path, and a run of the agent keeps
    every stored score within these bounds; a question that shares no
    token with a document scores 0; and the keyword score is
    min(100, 150 |shared| / max(|question tokens|, 1)) rounded to one
    decimal, hence within 1/20 of that value. *)
Theorem relevance_score_bounds (sim : Q) (rq : string) (p : row)
    (s : store) (embedded : list string) (cosine : string -> Q) :
  (0 <= cosine_score sim /\ cosine_score sim <= 100)
  /\ (0 <= keyword_score rq p /\ keyword_score rq p <= 100)
  /\ (_tokenise rq ∩ _tokenise (text_of p) = ∅ -> keyword_score rq p == 0)
  /\ (keyword_formula (size (_tokenise rq ∩ _tokenise (text_of p)))
                      (Nat.max (size (_tokenise rq)) 1) - (1 # 20)
      <= keyword_score rq p
      /\ keyword_score rq p
         <= keyword_formula (size (_tokenise rq ∩ _tokenise (text_of p)))
                            (Nat.max (size (_tokenise rq)) 1) + (1 # 20))
  /\ (exists z : Z, keyword_score rq p = inject_Z z / 10)
  /\ (Forall (fun r => bounded (relevance_score r)) s ->
      Forall (fun r => bounded (relevance_score r))
             (run s embedded cosine rq)).
Proof.
  split; [apply cosine_score_range|].
  split; [apply keyword_score_range|].
  split; [apply keyword_score_disjoint|].
  split; [apply keyword_score_formula|].
  split; [by eexists|]. apply run_bounded.
Qed.

End relevance.

(** ** Quality assessment *)

Section quality.
Import database QualityAgent Quality.

Lemma unassessed_in (s : store) (p : row) :
  In p (unassessed s) <-> In p s /\ eligible p.
Proof.
  unfold unassessed, eligible.
  rewrite filter_In, get_papers_in, negb_true_iff, bool_decide_eq_false.
  rewrite col_matches_some. cbn [col_matches].
  destruct (quality_score p) as [q|].
  - split; [intros [_ H]; exfalso; apply H; by eexists|].
    intros (_ & _ & H). discriminate.
  - split; [tauto|]. intros (? & ? & _).
    repeat split; auto; by intros [? ?].
Qed.

Lemma assess_paper_spec (r : reply assessment) (p : row) :
  assess_paper r p = (row_id p, result_of r).
Proof. by destruct r. Qed.



Lemma commit_rows (s : store) (results : list (string * result)) :
  commit s results
  = map (fun r =>
           fold_left
             (fun r a => if String.eqb (row_id r) (fst a)
                         then set_quality (res_score (snd a))
                                (res_notes (snd a)) (res_flag (snd a)) r
                         else r) results r) s.
Proof.
  unfold commit. rewrite <- fold_update. apply fold_left_ext_in.
  by intros s' [pid r].
Qed.

Lemma run_commit (s : store) (remote : nat -> reply assessment)
    (completion : list nat) :
  run s remote completion
  = commit s (all_results remote (unassessed s) completion).
Proof.
  unfold run. destruct (unassessed s) as [|p0 ps] eqn:E; [|done].
  unfold all_results.
  assert (omap (fun i => assess_paper (remote i) <$> @nil row !! i) completion
          = []) as ->; [|done].
  induction completion as [|i l IH]; [done|]. cbn. by rewrite lookup_nil.
Qed.


End quality.

(** * Further properties *)

(** ** The papers table *)

Section table.
Import database.

Lemma find_row_app (s t : store) (i : string) :
  find_row (s ++ t) i = match find_row s i with
                        | Some r => Some r
                        | None => find_row t i
                        end.
Proof.
  unfold find_row. induction s as [|x s IH]; [done|]. cbn.
  by destruct (String.eqb (row_id x) i).
Qed.

Lemma find_row_exists (s : store) (i : string) :
  exists_id s i = true <-> is_Some (find_row s i).
Proof.
  unfold exists_id, find_row. induction s as [|x s IH]; cbn.
  - split; [done|]. by intros [? ?].
  - destruct (String.eqb (row_id x) i); cbn; [|done].
    split; [by eexists|done].
Qed.

(** X1. [upsert_papers] keeps the primary key: when the stored ids are
    pairwise distinct and not empty and no input has an empty id, the
    same holds afterwards, and the table has grown by exactly the count
    returned. *)
Theorem upsert_papers_keeps_key (s : store) (papers : list paper) :
  store_ok s ->
  Forall (fun p => p_id p <> "") papers ->
  store_ok (fst (upsert_papers s papers))
  /\ length (fst (upsert_papers s papers))
     = length s + snd (upsert_papers s papers).
Proof.
  intros [Hnd Hne] Hp. unfold upsert_papers.
  destruct (upsert_fold papers s 0) as (added & Hf & Hsub & Hnew & Hnda & _).
  rewrite Hf. cbn [fst snd]. split; [split|].
  - rewrite map_app, map_map. cbn. apply NoDup_app. split; [done|].
    split; [|done]. intros i Hi Ha. apply list_elem_of_In in Hi, Ha.
    apply in_map_iff in Ha as (p & <- & Hin).
    rewrite Forall_forall in Hnew.
    assert (exists_id s (p_id p) = false) as E
      by (apply Hnew; by apply list_elem_of_In).
    apply exists_id_spec in Hi. congruence.
  - apply Forall_app. split; [done|]. apply Forall_fmap.
    rewrite Forall_forall in Hp. apply Forall_forall. intros p Hin.
    apply Hp. by apply (sublist_subseteq _ _ Hsub).
  - by rewrite length_app, length_map.
Qed.

Lemma upsert_fold_find (papers : list paper) (s : store) (n : nat) (i : string) :
  find_row (fst (fold_left upsert_step papers (s, n))) i
  = match find_row s i with
    | Some r => Some r
    | None => new_row <$> List.find (fun q => String.eqb (p_id q) i) papers
    end.
Proof.
  revert s n. induction papers as [|p papers IH]; intros s n.
  - cbn [fold_left fst List.find]. by destruct (find_row s i).
  - cbn [fold_left upsert_step List.find].
    destruct (exists_id s (p_id p)) eqn:E.
    + rewrite IH. destruct (find_row s i) as [r|] eqn:F; [done|].
      destruct (String.eqb (p_id p) i) eqn:Ei; [|done].
      apply String.eqb_eq in Ei. subst i.
      apply find_row_exists in E as [r Hr]. congruence.
    + rewrite IH, find_row_app. destruct (find_row s i) as [r|]; [done|].
      unfold find_row at 1. cbn.
      by destruct (String.eqb (p_id p) i).
Qed.

(** X2. Insert, then look up: after [upsert_papers] the row found under
    an id is the row stored before, if there was one, and otherwise the
    fresh row of the first input document with that id. *)
Theorem upsert_papers_then_find (s : store) (papers : list paper) (i : string) :
  find_row (fst (upsert_papers s papers)) i
  = match find_row s i with
    | Some r => Some r
    | None => new_row <$> List.find (fun q => String.eqb (p_id q) i) papers
    end.
Proof. apply upsert_fold_find. Qed.

(** X3. [update_paper] rewrites the row of the given id and nothing
    else: the rows keep their number and order, a look-up under another
    id finds what it found before, and under the id itself the rewritten
    row (none if the id is not stored, and then the table is unchanged). *)
Theorem update_paper_then_find (s : store) (pid i : string) (set : row -> row) :
  (forall r, row_id (set r) = row_id r) ->
  map row_id (update_paper s pid set) = map row_id s
  /\ find_row (update_paper s pid set) i
     = (if String.eqb i pid then set <$> find_row s pid else find_row s i)
  /\ (find_row s pid = None -> update_paper s pid set = s).
Proof.
  intros Hset. split; [by apply update_paper_ids|]. split.
  - unfold update_paper, find_row. induction s as [|x s IH]; cbn.
    + by destruct (String.eqb i pid).
    + destruct (String.eqb (row_id x) pid) eqn:Ex.
      * rewrite Hset. apply String.eqb_eq in Ex. subst pid.
        destruct (String.eqb (row_id x) i) eqn:Ei.
        -- apply String.eqb_eq in Ei. subst i. by rewrite String.eqb_refl.
        -- rewrite IH. destruct (String.eqb i (row_id x)) eqn:E'; [|done].
           apply String.eqb_eq in E'. subst i.
           by rewrite String.eqb_refl in Ei.
      * destruct (String.eqb (row_id x) i) eqn:Ei; [|done].
        apply String.eqb_eq in Ei. subst i.
        by rewrite Ex.
  - intros Hn. apply update_paper_absent. intros Hin.
    apply exists_id_spec, find_row_exists in Hin as [r Hr]. congruence.
Qed.

Lemma cites_before_total : Total (fun a b => Is_true (cites_before a b)).
Proof.
  intros a b. unfold cites_before.
  destruct (citation_count a) as [x|], (citation_count b) as [y|]; cbn; auto.
  destruct (Z.leb_spec y x), (Z.leb_spec x y); cbn; auto; lia.
Qed.

Lemma cites_before_trans :
  Transitive (fun a b => Is_true (cites_before a b)).
Proof.
  intros a b c. unfold cites_before.
  destruct (citation_count a) as [x|], (citation_count b) as [y|],
    (citation_count c) as [z|]; cbn; auto; try done.
  rewrite !Is_true_true, !Z.leb_le. lia.
Qed.

(** X4. [get_papers] returns the rows that meet the filters, each as
    often as the table holds it, ordered by citation count from the
    highest down with the rows lacking a count last. *)
Theorem get_papers_sorted (s : store) (fs p1 : option string) :
  get_papers s fs p1
  ≡ₚ List.filter (fun r => col_matches fs (final_status r)
                           && col_matches p1 (screening_pass1 r)) s
  /\ StronglySorted (fun a b => Is_true (cites_before a b)) (get_papers s fs p1)
  /\ (forall before a between b after,
        get_papers s fs p1 = before ++ a :: between ++ b :: after ->
        match citation_count a, citation_count b with
        | Some x, Some y => (y <= x)%Z
        | None, Some _ => False
        | _, None => True
        end).
Proof.
  split; [apply get_papers_perm|].
  assert (Hs : StronglySorted (fun a b => Is_true (cites_before a b))
                 (get_papers s fs p1)).
  { unfold get_papers.
    apply (@StronglySorted_merge_sort _ _ _ cites_before_trans cites_before_total). }
  split; [done|]. intros before a between b after E. rewrite E in Hs.
  apply StronglySorted_app_1_r, StronglySorted_cons in Hs as [Hs _].
  rewrite Forall_forall in Hs.
  specialize (Hs b ltac:(apply list_elem_of_In, in_or_app; right; by left)).
  unfold cites_before in Hs.
  destruct (citation_count a) as [x|], (citation_count b) as [y|]; try done.
  by apply Is_true_true, Z.leb_le in Hs.
Qed.

End table.

(** ** Counting and the pipeline log *)

Section counting.
Import database Lifecycle.

Lemma count_where_split (f g : row -> bool) (s : store) :
  (count_where f s
   = count_where (fun r => f r && g r) s
     + count_where (fun r => f r && negb (g r)) s)%Z.
Proof.
  unfold count_where. induction s as [|x s IH]; [done|]. cbn.
  destruct (f x), (g x); cbn [andb negb length]; lia.
Qed.

Lemma count_where_ext (f g : row -> bool) (s : store) :
  Forall (fun r => f r = g r) s -> count_where f s = count_where g s.
Proof.
  unfold count_where. induction 1 as [|x s E _ IH]; [done|]. cbn.
  rewrite E. destruct (g x); cbn [length]; lia.
Qed.

Lemma count_where_all (s : store) :
  Z.of_nat (length s) = count_where (fun _ => true) s.
Proof.
  unfold count_where. induction s as [|x s IH]; [done|]. cbn [List.filter length].
  lia.
Qed.

Lemma count_where_nonneg (f : row -> bool) (s : store) : (0 <= count_where f s)%Z.
Proof. unfold count_where. lia. Qed.

(** X5. Under the finalize invariant the three classes counted by
    [count_papers] are disjoint: the figure it reports as unscreened is
    the number of rows that are neither INCLUDED, nor EXCLUDED, nor
    BORDERLINE without a human decision, and it is not negative. *)
Theorem count_papers_classes_disjoint (s : store) :
  finalize_invariant s ->
  c_unscreened (count_papers s)
  = count_where
      (fun r => negb (is_status "INCLUDED" r)
                && negb (is_status "EXCLUDED" r)
                && negb (col_matches (Some "BORDERLINE") (screening_pass1 r)
                         && negb (bool_decide (is_Some (human_decision r))))) s
  /\ (0 <= c_unscreened (count_papers s))%Z.
Proof.
  intros Hinv.
  set (a := is_status "INCLUDED"). set (b := is_status "EXCLUDED").
  set (c := fun r : row =>
              col_matches (Some "BORDERLINE") (screening_pass1 r)
              && negb (bool_decide (is_Some (human_decision r)))).
  assert (E : c_unscreened (count_papers s)
              = count_where (fun r => negb (a r) && negb (b r) && negb (c r)) s).
  { unfold count_papers. cbn [c_unscreened]. fold a b c.
    rewrite count_where_all.
    rewrite (count_where_split (fun _ => true) a).
    rewrite (count_where_split (fun r => true && negb (a r)) b).
    rewrite (count_where_split (fun r => true && negb (a r) && negb (b r)) c).
    rewrite (count_where_ext (fun r => true && a r) a)
      by (apply Forall_forall; intros; done).
    assert (count_where (fun r => true && negb (a r) && b r) s = count_where b s)
      as ->.
    { apply count_where_ext, Forall_forall. intros r _. rewrite andb_true_l.
      destruct (a r) eqn:Ea, (b r) eqn:Eb; try done.
      unfold a, b, is_status in Ea, Eb.
      apply col_matches_some in Ea, Eb. congruence. }
    assert (count_where (fun r => true && negb (a r) && negb (b r) && c r) s
            = count_where c s) as ->.
    { apply count_where_ext. eapply Forall_impl; [exact Hinv|].
      intros r [HI HE]. rewrite andb_true_l.
      destruct (c r) eqn:Ec; [|by rewrite !andb_false_r].
      unfold c in Ec. apply andb_true_iff in Ec as [Ep Eh].
      apply col_matches_some in Ep.
      apply negb_true_iff, bool_decide_eq_false in Eh.
      assert (a r = false) as ->.
      { destruct (a r) eqn:Ea; [|done]. unfold a, is_status in Ea.
        apply col_matches_some in Ea.
        specialize (HI Ea). congruence. }
      assert (b r = false) as ->; [|done].
      destruct (b r) eqn:Eb; [|done]. unfold b, is_status in Eb.
      apply col_matches_some in Eb.
      destruct (HE Eb) as [?|Hh]; [congruence|].
      destruct Eh. rewrite Hh. by eexists. }
    assert (count_where
              (fun r => true && negb (a r) && negb (b r) && negb (c r)) s
            = count_where (fun r => negb (a r) && negb (b r) && negb (c r)) s)
      as -> by (apply count_where_ext, Forall_forall; intros; done).
    lia. }
  split; [exact E|]. rewrite E. apply count_where_nonneg.
Qed.

End counting.

Section logging.
Import pipeline_log LogNotions.

Lemma fold_max_ge (ids : list Z) (i : Z) :
  (i <= fold_left Z.max ids i)%Z
  /\ Forall (fun j => (j <= fold_left Z.max ids i)%Z) ids
  /\ (fold_left Z.max ids i = i \/ In (fold_left Z.max ids i) ids).
Proof.
  revert i. induction ids as [|j ids IH]; intros i; cbn.
  - split; [lia|]. split; [constructor|by left].
  - destruct (IH (Z.max i j)) as (H1 & H2 & H3). split; [lia|].
    split; [constructor; [lia|done]|].
    destruct H3 as [H3|H3]; [|by right; right].
    rewrite H3. destruct (Z.max_spec i j) as [[_ ->]|[_ ->]]; auto.
Qed.

Lemma next_id_spec (log : list log_row) :
  Forall (fun r => (log_id r < next_id log)%Z) log
  /\ (log = [] /\ next_id log = 1%Z
      \/ exists r, In r log /\ next_id log = (log_id r + 1)%Z).
Proof.
  unfold next_id. destruct log as [|r log]; cbn [map].
  - split; [constructor|by left].
  - destruct (fold_max_ge (map log_id log) (log_id r)) as (H1 & H2 & H3).
    split.
    + constructor; [lia|]. rewrite Forall_forall in H2.
      apply Forall_forall. intros r' Hr'.
      specialize (H2 (log_id r')
                     ltac:(by apply list_elem_of_In, in_map, list_elem_of_In)).
      cbn beta in H2. lia.
    + right. destruct H3 as [H3|H3].
      * exists r. split; [by left|]. by rewrite H3.
      * apply in_map_iff in H3 as (r' & E & Hin). exists r'.
        split; [by right|]. by rewrite E.
Qed.

Lemma record_snoc (events : list (string * string * string))
    (e : string * string * string) :
  record (events ++ [e])
  = log_event (record events) (e.1.1) (e.1.2) (e.2).
Proof. unfold record. rewrite fold_left_app. by destruct e as [[? ?] ?]. Qed.

Lemma record_rows (events : list (string * string * string)) :
  map log_id (record events) = map Z.of_nat (seq 1 (length events))
  /\ map (fun r => (stage r, message r, details r)) (record events) = events.
Proof.
  induction events as [|e events [IH1 IH2]] using rev_ind; [done|].
  rewrite record_snoc. unfold log_event. rewrite !map_app, IH1, IH2.
  cbn [map log_id stage message details].
  rewrite length_app, Nat.add_comm. cbn [length Nat.add].
  rewrite seq_S, map_app. cbn [map]. split; [|by destruct e as [[? ?] ?]].
  do 2 f_equal.
  assert (Hlen : length (record events) = length events).
  { rewrite <- (length_map log_id), IH1, length_map. apply length_seq. }
  assert (Hid : forall r, In r (record events) ->
                  (1 <= log_id r <= Z.of_nat (length events))%Z).
  { intros r Hin. apply (in_map log_id) in Hin. rewrite IH1 in Hin.
    apply in_map_iff in Hin as (k & <- & Hk). apply in_seq in Hk. lia. }
  destruct (next_id_spec (record events)) as [Hlt [[En Heq]|(r & Hin & Heq)]].
  - rewrite Heq, <- Hlen, En. done.
  - rewrite Heq in Hlt |- *. specialize (Hid r Hin).
    destruct (Nat.eq_dec (length events) 0) as [E0|Hn0]; [lia|].
    assert (In (Z.of_nat (length events)) (map log_id (record events)))
      as Hlast by (rewrite IH1; apply in_map, in_seq; lia).
    apply in_map_iff in Hlast as (r' & Er' & Hin').
    rewrite Forall_forall in Hlt.
    specialize (Hlt r' ltac:(by apply list_elem_of_In)). lia.
Qed.

(** X6. The pipeline log: the events written by [log_event] into an
    empty table are numbered 1, 2, ... in the order written, and
    [get_log] returns the newest [limit] of them, newest first, with the
    stage, message and details they were written with. *)
Theorem get_log_newest_first (events : list (string * string * string))
    (limit : nat) :
  map log_id (record events) = map Z.of_nat (seq 1 (length events))
  /\ get_log (record events) limit = take limit (rev events).
Proof.
  destruct (record_rows events) as [Hid Hrows]. split; [done|].
  unfold get_log.
  assert (Hsort : merge_sort newer (record events) = rev (record events)).
  { assert (Hnd : NoDup (map log_id (record events))).
    { rewrite Hid. apply NoDup_fmap_2; [intros ? ? ?; lia|apply NoDup_seq]. }
    assert (Hinc : StronglySorted Z.lt (map log_id (record events))).
    { rewrite Hid. generalize 1 as a. generalize (length events) as n.
      induction n as [|n IH]; intros a; cbn; constructor; [apply IH|].
      apply Forall_forall. intros z Hz. apply list_elem_of_In in Hz.
      apply in_map_iff in Hz as (k & <- & Hk). apply in_seq in Hk. lia. }
    assert (Htr : Transitive newer) by (intros a b c; unfold newer; lia).
    assert (Htot : Total newer) by (intros a b; unfold newer; lia).
    apply (Sorted_unique_strong newer).
    - intros x1 x2 H1 H2. unfold newer. intros ? ?.
      assert (E : log_id x1 = log_id x2) by lia.
      rewrite merge_sort_Permutation in H1.
      apply list_elem_of_In, In_nth_error in H1 as [i Hi].
      apply list_elem_of_In in H2. apply in_rev in H2.
      apply In_nth_error in H2 as [j Hj].
      assert (i = j) as ->; [|congruence].
      apply (NoDup_nth_error (map log_id (record events)));
        [by apply NoDup_ListNoDup| |].
      + rewrite length_map. apply nth_error_Some. congruence.
      + by rewrite !nth_error_map, Hi, Hj; cbn; rewrite E.
    - by apply Sorted_merge_sort.
    - apply StronglySorted_Sorted.
      revert Hinc. generalize (record events) as l.
      induction l as [|x l IH]; cbn; [constructor|]. intros Hx.
      apply StronglySorted_cons in Hx as [Hx Hl].
      apply StronglySorted_app. split; [|split; [by apply IH|repeat constructor]].
      intros a b Ha Hb. apply list_elem_of_In in Ha. apply in_rev in Ha.
      apply list_elem_of_In in Hb. destruct Hb as [<-|[]].
      rewrite Forall_forall in Hx. unfold newer.
      specialize (Hx (log_id a)
                     ltac:(by apply list_elem_of_In, in_map)). lia.
    - rewrite merge_sort_Permutation. by rewrite reverse_Permutation || apply Permutation_rev. }
  rewrite Hsort, <- firstn_map, map_rev, Hrows. done.
Qed.

End logging.

(** ** Screening *)

Section screening.
Import database ScreeningAgent Screening Frame.

(** X7. The batches of pass 1: with a positive batch size the batches
    are consecutive slices of the input that together give it back,
    none is empty or longer than the batch size, every batch but the
    last is full, and there are as many as the length divided by the
    batch size, rounded up. *)
Theorem make_batches_shape (n : nat) (l : list row) :
  0 < n ->
  concat (make_batches n l) = l
  /\ Forall (fun b => 1 <= length b <= n) (make_batches n l)
  /\ (forall i b, make_batches n l !! i = Some b ->
        S i < length (make_batches n l) -> length b = n)
  /\ length l <= length (make_batches n l) * n < length l + n.
Proof.
  intros Hn. split; [by apply make_batches_concat|].
  unfold make_batches. rewrite length_map, length_seq.
  set (m := (length l + n - 1) / n).
  pose proof (Nat.div_mod_eq (length l + n - 1) n) as Hd.
  pose proof (Nat.mod_upper_bound (length l + n - 1) n ltac:(lia)) as Hm.
  fold m in Hd.
  assert (Hk : forall k, k < m -> k * n < length l) by (intros k Hk; nia).
  split; [|split; [|nia]].
  - apply Forall_forall. intros b Hb. apply list_elem_of_In in Hb.
    apply in_map_iff in Hb as (k & <- & Hin). apply in_seq in Hin.
    rewrite length_take, length_drop. specialize (Hk k ltac:(lia)). lia.
  - intros i b Hb Hi. rewrite list_lookup_fmap in Hb.
    destruct (seq 0 m !! i) as [k|] eqn:Ek; [|done].
    apply lookup_seq in Ek as [-> _]. cbn in Hb.
    injection Hb as <-. rewrite length_take, length_drop.
    pose proof (Hk (S i) Hi). lia.
Qed.

Lemma tally_cons (l : string) (o : outcome) (w : list outcome) :
  tally l (o :: w)
  = (if String.eqb (o_decision o) l then 1 else 0) + tally l w.
Proof. unfold tally. cbn. by destruct (String.eqb (o_decision o) l). Qed.

Lemma fold_commit_counts (ds : list decision) (st : commit_state) :
  include (c_counts (fold_left commit_step ds st))
  = include (c_counts st) + tally "INCLUDE" (written_of ds)
  /\ exclude (c_counts (fold_left commit_step ds st))
     = exclude (c_counts st) + tally "EXCLUDE" (written_of ds)
  /\ borderline (c_counts (fold_left commit_step ds st))
     = borderline (c_counts st) + tally "BORDERLINE" (written_of ds).
Proof.
  revert st. induction ds as [|d ds IH]; intros st.
  - unfold tally. cbn. lia.
  - cbn [fold_left]. destruct (IH (commit_step st d)) as (-> & -> & ->).
    unfold commit_step, written_of. cbn [List.filter].
    destruct (Py.truthy (d_id d)) eqn:Et; cbn [negb map]; [|lia].
    fold (written_of ds). rewrite !tally_cons.
    cbn [o_decision outcome_of].
    destruct (label_cases d) as [E|[E|E]]; rewrite E;
      cbn [String.eqb Ascii.eqb Bool.eqb andb c_counts include exclude
           borderline]; lia.
Qed.

Lemma tally_total (w : list outcome) :
  Forall (fun o => o_decision o = "INCLUDE" \/ o_decision o = "EXCLUDE"
                   \/ o_decision o = "BORDERLINE") w ->
  tally "INCLUDE" w + tally "EXCLUDE" w + tally "BORDERLINE" w = length w.
Proof.
  induction 1 as [|o w Ho _ IH]; [done|]. rewrite !tally_cons. cbn [length].
  destruct Ho as [E|[E|E]]; rewrite E; cbn; lia.
Qed.

Lemma all_decisions_none (s : store) (remote : nat -> reply response)
    (completion : list nat) :
  unscreened s = [] -> all_decisions s remote completion = [].
Proof.
  intros Hu. unfold all_decisions, batches_of. rewrite Hu.
  change (make_batches config.DEFAULT_SCREENING_BATCH_SIZE [])
    with (@nil (list row)).
  apply collect_nil.
Qed.

Lemma run_pass1_counts_commit (s : store) (remote : nat -> reply response)
    (completion : list nat) :
  r_counts (run_pass1 s remote completion)
  = c_counts (commit s (all_decisions s remote completion)).
Proof.
  unfold run_pass1. destruct (unscreened s) as [|u us] eqn:Hu.
  - by rewrite all_decisions_none.
  - cbn [r_counts]. unfold all_decisions, batches_of. by rewrite Hu.
Qed.

Lemma run_pass1_counts_tally (s : store) (remote : nat -> reply response)
    (completion : list nat) :
  include (r_counts (run_pass1 s remote completion))
  = tally "INCLUDE" (written_of (all_decisions s remote completion))
  /\ exclude (r_counts (run_pass1 s remote completion))
     = tally "EXCLUDE" (written_of (all_decisions s remote completion))
  /\ borderline (r_counts (run_pass1 s remote completion))
     = tally "BORDERLINE" (written_of (all_decisions s remote completion))
  /\ include (r_counts (run_pass1 s remote completion))
     + exclude (r_counts (run_pass1 s remote completion))
     + borderline (r_counts (run_pass1 s remote completion))
     = length (named (all_decisions s remote completion)).
Proof.
  rewrite run_pass1_counts_commit. unfold commit.
  destruct (fold_commit_counts (all_decisions s remote completion)
              {| c_store := s;
                 c_counts := {| include := 0; exclude := 0; borderline := 0 |};
                 c_written := [] |}) as (-> & -> & ->).
  cbn [c_counts include exclude borderline Nat.add].
  split; [done|]. split; [done|]. split; [done|].
  rewrite tally_total.
  - unfold written_of, named. by rewrite !length_map.
  - unfold written_of. apply Forall_forall. intros o Ho.
    apply list_elem_of_In, in_map_iff in Ho as (d & <- & _).
    apply label_cases.
Qed.

(** X8. The counts [run_pass1] returns tally the decisions that carry
    an id, by the label written for them: each such decision is counted
    once, under exactly one of the three labels, whether or not a row
    with that id is stored. *)
Theorem run_pass1_counts (s : store) (remote : nat -> reply response)
    (completion : list nat) :
  include (r_counts (run_pass1 s remote completion))
  = tally "INCLUDE" (written_of (all_decisions s remote completion))
  /\ exclude (r_counts (run_pass1 s remote completion))
     = tally "EXCLUDE" (written_of (all_decisions s remote completion))
  /\ borderline (r_counts (run_pass1 s remote completion))
     = tally "BORDERLINE" (written_of (all_decisions s remote completion))
  /\ include (r_counts (run_pass1 s remote completion))
     + exclude (r_counts (run_pass1 s remote completion))
     + borderline (r_counts (run_pass1 s remote completion))
     = length (List.filter (fun d => Py.truthy (d_id d))
                 (all_decisions s remote completion)).
Proof.
  destruct (run_pass1_counts_tally s remote completion) as (H1 & H2 & H3 & H4).
  split; [done|]. split; [done|]. split; [done|].
  rewrite H4. unfold named. by rewrite length_map.
Qed.

Lemma pass1_frame_refl (r : row) : pass1_frame r r.
Proof. unfold pass1_frame, same_document, same_assessment. tauto. Qed.

Lemma pass1_frame_decide (d : decision) (r0 r : row) :
  pass1_frame r0 r -> pass1_frame r0 (decide_row d r).
Proof.
  intros (Hd & Ha & Hf & Hp). unfold decide_row.
  destruct (Py.truthy (d_id d) && String.eqb (row_id r) (Py.or_empty (d_id d)));
    [|done].
  cbn [outcome_of o_decision o_reason o_confidence].
  assert (Hl := label_cases d).
  destruct (String.eqb (label d) "EXCLUDE");
    (split; [exact Hd|split; [exact Ha|split]]); cbn; auto;
    right; destruct Hl as [E | [E | E]]; rewrite E; auto.
Qed.

(** X9. What pass 1 leaves alone: [run_pass1] keeps the rows and their
    order, and in every row the columns of the document, the human
    decision, the quality assessment and the relevance score; a final
    status is either kept or set to EXCLUDED, and a pass-1 label is
    either kept or set to one of the three labels. *)
Theorem run_pass1_frame (s : store) (remote : nat -> reply response)
    (completion : list nat) :
  Forall2 pass1_frame s (r_store (run_pass1 s remote completion)).
Proof.
  rewrite run_pass1_store, commit_store. apply Forall2_fmap_r.
  apply Forall_Forall2_diag, Forall_forall. intros r _.
  generalize (pass1_frame_refl r). generalize r at 2 4 as r'.
  induction (all_decisions s remote completion) as [|d ds IH]; intros r' H;
    [done|].
  cbn [fold_left]. by apply IH, pass1_frame_decide.
Qed.




End screening.

Section finalize.
Import database ScreeningAgent Screening Orchestrator.









End finalize.

Section orchestrating.
Import database ScreeningAgent Screening Orchestrator.


End orchestrating.

(** ** Search and deduplication *)

Section search.
Import database SearchAgent Dedup.

Lemma key_char_lower_char (c : ascii) :
  key_char (Py.lower_char c) = Py.is_alnum c.
Proof. destruct c as [[] [] [] [] [] [] [] []]; vm_compute; reflexivity. Qed.

Lemma key_char_fixed (c : ascii) :
  key_char c = true -> Py.lower_char c = c /\ Py.is_alnum c = true.
Proof. destruct c as [[] [] [] [] [] [] [] []]; vm_compute; done. Qed.

Lemma upper_char_key (c : ascii) :
  Py.is_alnum (Py.upper_char c) = Py.is_alnum c
  /\ (Py.is_alnum c = true ->
      Py.lower_char (Py.upper_char c) = Py.lower_char c).
Proof. destruct c as [[] [] [] [] [] [] [] []]; vm_compute; done. Qed.

Lemma filter_key_lower (l : list ascii) :
  List.filter key_char (map Py.lower_char l)
  = map Py.lower_char (List.filter Py.is_alnum l).
Proof.
  induction l as [|c l IH]; [done|]. cbn. rewrite key_char_lower_char.
  destruct (Py.is_alnum c); cbn; by rewrite IH.
Qed.

Lemma chars_str (l : list ascii) : Py.chars (Py.str l) = l.
Proof. apply list_ascii_of_string_of_list_ascii. Qed.

Lemma length_str (l : list ascii) : String.length (Py.str l) = length l.
Proof. induction l as [|c l IH]; [done|]. cbn. by rewrite <- IH. Qed.

Lemma title_key_chars (t : string) :
  Forall (fun c => key_char c = true) (Py.chars (_title_key t)).
Proof.
  unfold _title_key. rewrite chars_str. apply Forall_take, Forall_forall.
  intros c Hc. apply list_elem_of_In, filter_In in Hc. tauto.
Qed.

Lemma letters_fixed (l : list ascii) :
  Forall (fun c => key_char c = true) l ->
  List.filter key_char (map Py.lower_char l) = l.
Proof.
  induction 1 as [|c l Hc _ IH]; [done|]. cbn.
  destruct (key_char_fixed c Hc) as [-> _]. by rewrite Hc, IH.
Qed.

(** X13. The title key is a normal form: it is the first 60 letters
    and digits of the title in lower case, so it has at most 60
    characters, all of them lower-case letters or digits; titles that
    differ only in case, blanks and punctuation have the same key, as
    has the title in upper case; and the key of a key is that key. *)
Theorem title_key_normal_form (t : string) :
  _title_key t
  = Py.str (take 60 (map Py.lower_char (List.filter Py.is_alnum (Py.chars t))))
  /\ String.length (_title_key t) <= 60
  /\ Forall (fun c => Py.is_lower c || Py.is_digit c = true)
            (Py.chars (_title_key t))
  /\ (forall t',
        map Py.lower_char (List.filter Py.is_alnum (Py.chars t))
        = map Py.lower_char (List.filter Py.is_alnum (Py.chars t')) ->
        _title_key t = _title_key t')
  /\ _title_key (Py.upper t) = _title_key t
  /\ _title_key (_title_key t) = _title_key t.
Proof.
  assert (Hform : forall u,
            _title_key u
            = Py.str (take 60 (map Py.lower_char
                                 (List.filter Py.is_alnum (Py.chars u))))).
  { intros u. unfold _title_key. by rewrite filter_key_lower. }
  split; [apply Hform|]. split; [|split; [|split; [|split]]].
  - unfold _title_key. rewrite length_str, length_take. lia.
  - apply title_key_chars.
  - intros t' E. by rewrite !Hform, E.
  - rewrite !Hform. do 2 f_equal. unfold Py.upper. rewrite chars_str.
    induction (Py.chars t) as [|c l IH]; [done|]. cbn.
    destruct (upper_char_key c) as [E1 E2]. rewrite E1.
    destruct (Py.is_alnum c) eqn:Ea; [|done]. cbn. by rewrite E2, IH.
  - unfold _title_key at 1. rewrite (letters_fixed _ (title_key_chars t)).
    unfold _title_key. by rewrite chars_str, take_take.
Qed.

Lemma dropped_mono (sd sd' st st' : gset string) (p : paper) :
  sd ⊆ sd' -> st ⊆ st' ->
  dropped sd st p = true -> dropped sd' st' p = true.
Proof.
  intros Hd Ht. rewrite !dropped_spec. unfold already_seen.
  intros [[? ?]|?]; [left|right]; set_solver.
Qed.

Lemma dedup_step_grows (st : dedup_state) (p : paper) :
  seen_dois st ⊆ seen_dois (dedup_step st p)
  /\ seen_titles st ⊆ seen_titles (dedup_step st p)
  /\ dropped (seen_dois (dedup_step st p)) (seen_titles (dedup_step st p)) p
     = true.
Proof.
  rewrite dedup_step_cases.
  destruct (dropped (seen_dois st) (seen_titles st) p) eqn:E; [done|].
  unfold keep. cbn [seen_dois seen_titles].
  split; [destruct (negb (String.eqb (doi_key p) "")); set_solver|].
  split; [set_solver|].
  apply dropped_spec. right. fold (title_of p). set_solver.
Qed.

Lemma dedup_grows (l : list paper) (sd stt : gset string) :
  sd ⊆ seen_dois (_deduplicate l sd stt)
  /\ stt ⊆ seen_titles (_deduplicate l sd stt)
  /\ Forall (fun p => dropped (seen_dois (_deduplicate l sd stt))
                               (seen_titles (_deduplicate l sd stt)) p = true) l
  /\ sublist (unique (_deduplicate l sd stt)) l.
Proof.
  induction l as [|p l (H1 & H2 & H3 & H4)] using rev_ind.
  - unfold _deduplicate. cbn [fold_left seen_dois seen_titles unique].
    split; [done|]. split; [done|]. split; constructor.
  - rewrite dedup_snoc.
    destruct (dedup_step_grows (_deduplicate l sd stt) p) as (G1 & G2 & G3).
    split; [set_solver|]. split; [set_solver|]. split.
    + apply Forall_app. split; [|by repeat constructor].
      eapply Forall_impl; [exact H3|]. intros q Hq.
      by eapply dropped_mono.
    + rewrite dedup_step_cases. clear G1 G2 G3.
      destruct (dropped (seen_dois (_deduplicate l sd stt))
                  (seen_titles (_deduplicate l sd stt)) p).
      * by apply sublist_inserts_r.
      * cbn [keep unique]. by apply sublist_app.
Qed.

Lemma dedup_all_dropped (l : list paper) (sd stt : gset string) :
  Forall (fun p => dropped sd stt p = true) l ->
  _deduplicate l sd stt
  = {| unique := []; seen_dois := sd; seen_titles := stt |}.
Proof.
  unfold _deduplicate.
  induction 1 as [|p l Hp _ IH]; [done|]. cbn [fold_left].
  rewrite dedup_step_cases. cbn [seen_dois seen_titles]. by rewrite Hp.
Qed.

(** X14. [_deduplicate] and its seen-sets: the list returned is a
    sublist of the input, the two sets only grow, a second pass over
    the same input with the sets as the first pass left them returns
    nothing and leaves the sets as they are, and deduplicating the
    returned list from the initial sets gives the same list and the
    same sets. *)
Theorem deduplicate_second_pass (l : list paper) (sd stt : gset string) :
  sublist (unique (_deduplicate l sd stt)) l
  /\ sd ⊆ seen_dois (_deduplicate l sd stt)
  /\ stt ⊆ seen_titles (_deduplicate l sd stt)
  /\ _deduplicate l (seen_dois (_deduplicate l sd stt))
       (seen_titles (_deduplicate l sd stt))
     = {| unique := []; seen_dois := seen_dois (_deduplicate l sd stt);
          seen_titles := seen_titles (_deduplicate l sd stt) |}
  /\ _deduplicate (unique (_deduplicate l sd stt)) sd stt
     = _deduplicate l sd stt.
Proof.
  destruct (dedup_grows l sd stt) as (H1 & H2 & H3 & H4).
  split; [done|]. split; [done|]. split; [done|]. split.
  - by apply dedup_all_dropped.
  - clear. induction l as [|p l IH] using rev_ind; [done|].
    rewrite dedup_snoc, dedup_step_cases.
    destruct (dropped (seen_dois (_deduplicate l sd stt))
                (seen_titles (_deduplicate l sd stt)) p) eqn:E; [done|].
    cbn [keep unique]. rewrite dedup_snoc, IH, dedup_step_cases.
    by rewrite E.
Qed.

Lemma query_step_rows (st : search_state) (r : option (list paper)) :
  length (conn (query_step st r)) + total_inserted st
  = length (conn st) + total_inserted (query_step st r)
  /\ total_inserted (query_step st r) + length (kept st)
     <= total_inserted st + length (kept (query_step st r))
  /\ (store_ok (conn st) ->
      match r with
      | Some papers => Forall (fun p => p_id p <> "") papers
      | None => True
      end ->
      store_ok (conn (query_step st r))).
Proof.
  destruct r as [papers|]; [|cbn; split; [lia|split; [lia|done]]].
  unfold query_step, upsert_papers.
  destruct (upsert_fold
              (unique (_deduplicate papers (stage_dois st) (stage_titles st)))
              (conn st) 0) as (added & Hf & Hsub & Hnew & Hnda & _).
  rewrite Hf. cbn [conn total_inserted kept].
  rewrite !length_app, length_map.
  pose proof (sublist_length _ _ Hsub). split; [lia|]. split; [lia|].
  intros [Hnd Hne] Hp. split.
  - rewrite map_app, map_map. cbn. apply NoDup_app. split; [done|].
    split; [|done]. intros i Hi Ha. apply list_elem_of_In in Hi, Ha.
    apply in_map_iff in Ha as (p & <- & Hin).
    rewrite Forall_forall in Hnew.
    assert (exists_id (conn st) (p_id p) = false) as E
      by (apply Hnew; by apply list_elem_of_In).
    apply exists_id_spec in Hi. congruence.
  - apply Forall_app. split; [done|]. apply Forall_fmap.
    rewrite Forall_forall in Hp. apply Forall_forall. intros p Hin.
    apply Hp. destruct (dedup_grows papers (stage_dois st) (stage_titles st))
      as (_ & _ & _ & Hs).
    apply (sublist_subseteq _ _ Hs). by apply (sublist_subseteq _ _ Hsub).
Qed.

Lemma query_fold_rows (results : list (option (list paper)))
    (st : search_state) :
  length (conn (fold_left query_step results st)) + total_inserted st
  = length (conn st) + total_inserted (fold_left query_step results st)
  /\ total_inserted (fold_left query_step results st) + length (kept st)
     <= total_inserted st + length (kept (fold_left query_step results st))
  /\ (store_ok (conn st) ->
      Forall (fun p => p_id p <> "") (met results) ->
      store_ok (conn (fold_left query_step results st))).
Proof.
  revert st. induction results as [|r results IH]; intros st.
  - cbn. split; [lia|]. split; [lia|done].
  - cbn [fold_left].
    destruct (IH (query_step st r)) as (I1 & I2 & I3).
    destruct (query_step_rows st r) as (Q1 & Q2 & Q3).
    split; [lia|]. split; [lia|]. intros Hs Hm. rewrite met_cons in Hm.
    apply I3.
    + apply Q3; [done|]. destruct r as [papers|]; [|done].
      by apply Forall_app in Hm as [? _].
    + destruct r as [papers|]; [|done]. by apply Forall_app in Hm as [_ ?].
Qed.

(** X15. The search stage: the number [SearchAgent.run] returns is the
    number of rows it added to the table, which is at most the number of
    documents that passed the deduplication; a query of either catalog
    whose call failed changes nothing; and when no document met has an empty id,
    the stored ids stay pairwise distinct and not empty. *)
Theorem search_run_counts_rows (s : store)
    (oa ss : list (option (list paper))) :
  length (conn (run s oa ss)) = length s + total_inserted (run s oa ss)
  /\ total_inserted (run s oa ss) <= length (kept (run s oa ss))
  /\ (forall before after,
        run s (before ++ None :: after) ss = run s (before ++ after) ss
        /\ run s oa (before ++ None :: after) = run s oa (before ++ after))
  /\ (store_ok s -> Forall (fun p => p_id p <> "") (met (oa ++ ss)) ->
      store_ok (conn (run s oa ss))).
Proof.
  unfold run.
  destruct (query_fold_rows (oa ++ ss)
              {| conn := s; total_inserted := 0; stage_dois := ∅;
                 stage_titles := ∅; kept := [] |}) as (H1 & H2 & H3).
  cbn [conn total_inserted kept length] in H1, H2, H3.
  split; [lia|]. split; [lia|]. split; [|done].
  intros before after. split.
  - by rewrite <- !app_assoc, !fold_left_app.
  - by rewrite !fold_left_app.
Qed.

End search.

Section blank_doi.
Import SearchAgent Dedup.

Lemma lower_char_space (c : ascii) :
  Py.is_space (Py.lower_char c) = Py.is_space c.
Proof. destruct c as [[] [] [] [] [] [] [] []]; vm_compute; done. Qed.

Lemma lstrip_blank (l : list ascii) :
  Forall (fun c => Py.is_space c = true) l -> Py.lstrip l = [].
Proof. induction 1 as [|c l Hc _ IH]; [done|]. cbn. by rewrite Hc. Qed.

(** X30. A document whose DOI is missing, empty or blank has the empty
    DOI key: [_deduplicate] never adds it to the DOIs seen, and drops it
    exactly when its title key has been seen. *)
Theorem blank_doi_dedup (st : dedup_state) (p : paper) :
  Forall (fun c => Py.is_space c = true) (Py.chars (Py.or_empty (p_doi p))) ->
  doi_key p = ""
  /\ seen_dois (dedup_step st p) = seen_dois st
  /\ dropped (seen_dois st) (seen_titles st) p
     = bool_decide (_title_key (p_title p) ∈ seen_titles st).
Proof.
  intros Hb.
  assert (E : doi_key p = "").
  { unfold doi_key, Py.strip, Py.lower. rewrite chars_str.
    rewrite (lstrip_blank (map Py.lower_char _)); [done|]. apply Forall_fmap.
    eapply Forall_impl; [exact Hb|]. intros c Hc. cbn.
    by rewrite lower_char_space. }
  split; [done|]. split.
  - rewrite dedup_step_cases. unfold dropped, keep. rewrite E. cbn.
    by destruct (bool_decide _).
  - unfold dropped. by rewrite E.
Qed.

End blank_doi.

(** ** Snowballing *)

Section snowballing.
Import database ScreeningAgent SnowballingAgent Snowball.

Lemma known_ids_spec (s : store) (i : string) :
  i ∈ _get_all_known_ids s <-> In i (map row_id s).
Proof.
  unfold _get_all_known_ids. rewrite elem_of_list_to_set, list_elem_of_In.
  split; intros H; apply in_map_iff in H as (r & <- & Hr); apply in_map.
  - by apply get_papers_in in Hr as [? _].
  - by apply get_papers_in.
Qed.

Lemma unique_fold (round_num : nat) (known_ids : gset string)
    (candidates : list paper) :
  let acc := fold_left (unique_step round_num known_ids) candidates (∅, []) in
  (forall i, i ∈ acc.1 <-> In i (map p_id acc.2))
  /\ NoDup (map p_id acc.2)
  /\ (exists chosen, sublist chosen candidates
                     /\ acc.2 = map (tag round_num) chosen
                     /\ Forall (fun c => p_id c ∉ known_ids) chosen)
  /\ (forall c, In c candidates -> p_id c ∉ known_ids -> p_id c ∈ acc.1).
Proof.
  cbn zeta. induction candidates as [|c l IH] using rev_ind.
  - cbn. split; [set_solver|]. split; [constructor|].
    split; [|done]. exists []. by repeat constructor.
  - rewrite fold_left_app. cbn [fold_left].
    destruct (fold_left _ l _) as [seen uniq].
    destruct IH as (Hseen & Hnd & (chosen & Hsub & Hu & Hk) & Hall).
    cbn [fst snd] in *. unfold unique_step, known.
    destruct (bool_decide (p_id c ∈ seen)) eqn:Es; cbn [negb andb].
    { apply bool_decide_eq_true in Es. cbn [fst snd].
      split; [done|]. split; [done|]. split.
      - exists chosen. split; [by apply sublist_inserts_r|done].
      - intros q Hq Hn. apply in_app_or in Hq as [Hq|[<-|[]]]; auto. }
    apply bool_decide_eq_false in Es.
    destruct (bool_decide (p_id c ∈ known_ids)) eqn:Ek; cbn [negb].
    { apply bool_decide_eq_true in Ek. cbn [fst snd].
      split; [done|]. split; [done|]. split.
      - exists chosen. split; [by apply sublist_inserts_r|done].
      - intros q Hq Hn. apply in_app_or in Hq as [Hq|[<-|[]]]; auto. done. }
    apply bool_decide_eq_false in Ek. cbn [fst snd].
    split; [|split; [|split]].
    + intros i. rewrite map_app, in_app_iff, elem_of_union, elem_of_singleton.
      rewrite Hseen. cbn. intuition.
    + rewrite map_app. cbn. apply NoDup_app. split; [done|].
      split; [|apply NoDup_singleton].
      intros i Hi Hc. apply list_elem_of_In in Hc as [<-|[]].
      apply Es, Hseen. by apply list_elem_of_In.
    + exists (chosen ++ [c]). split; [by apply sublist_app|].
      split; [by rewrite map_app, Hu|].
      apply Forall_app. split; [done|]. by repeat constructor.
    + intros q Hq Hn. apply in_app_or in Hq as [Hq|[<-|[]]].
      * apply elem_of_union. right. by apply Hall.
      * apply elem_of_union. left. by apply elem_of_singleton.
Qed.

(** X16. The candidates of a round after deduplication: they are
    documents of the candidate list, in its order, each tagged with the
    round; their ids are pairwise distinct and none is a known id; and
    every candidate whose id is not known has its id among them. *)
Theorem unique_candidates_fresh (round_num : nat) (known_ids : gset string)
    (candidates : list paper) :
  NoDup (map p_id (unique_candidates round_num known_ids candidates))
  /\ (exists chosen,
        sublist chosen candidates
        /\ unique_candidates round_num known_ids candidates
           = map (tag round_num) chosen
        /\ Forall (fun c => p_id c ∉ known_ids) chosen)
  /\ (forall c, In c candidates -> p_id c ∉ known_ids ->
        In (p_id c)
           (map p_id (unique_candidates round_num known_ids candidates))).
Proof.
  unfold unique_candidates.
  destruct (unique_fold round_num known_ids candidates)
    as (Hseen & Hnd & Hch & Hall).
  split; [done|]. split; [done|]. intros c Hc Hn. by apply Hseen, Hall.
Qed.

Lemma extend_length (candidates : list paper) (known_ids : gset string)
    (lookup : option (list paper)) (k : nat) :
  match lookup with Some l => length l <= k | None => True end ->
  length (extend candidates known_ids lookup) <= length candidates + k.
Proof.
  destruct lookup as [l|]; cbn; [|lia]. intros Hl.
  rewrite length_app. pose proof (List.filter_length_le
    (fun r => negb (known known_ids r)) l). lia.
Qed.

Lemma extend_unknown (candidates : list paper) (known_ids : gset string)
    (lookup : option (list paper)) :
  Forall (fun c => p_id c ∉ known_ids) candidates ->
  Forall (fun c => p_id c ∉ known_ids) (extend candidates known_ids lookup).
Proof.
  intros H. destruct lookup as [l|]; [|done]. cbn.
  apply Forall_app. split; [done|]. apply Forall_forall. intros c Hc.
  apply list_elem_of_In, filter_In in Hc as [_ Hc]. unfold known in Hc.
  by apply negb_true_iff, bool_decide_eq_false in Hc.
Qed.

(** X17. The loop that gathers the candidates of a round: the cap of
    2000 is tested only before the look-ups of an included document, so
    when no look-up returns more than [k] documents the list gathered
    has at most [1999 + 2 * k] entries; no candidate gathered has a
    known id; and with a direction other than both, backward and forward
    no look-up is made and nothing is gathered. *)
Theorem gather_bounds (w : world) (round_num : nat) (direction : string)
    (known_ids : gset string) (included : list row) (k : nat) :
  (forall oa_id l, get_references w round_num oa_id = Some l -> length l <= k) ->
  (forall oa_id l, get_citing_papers w round_num oa_id = Some l ->
     length l <= k) ->
  length (gather w round_num direction known_ids included []) <= 1999 + 2 * k
  /\ Forall (fun c => p_id c ∉ known_ids)
            (gather w round_num direction known_ids included [])
  /\ (direction <> "both" -> direction <> "backward" ->
      direction <> "forward" ->
      gather w round_num direction known_ids included [] = []).
Proof.
  intros Hr Hc.
  assert (H : forall candidates,
            length candidates <= 1999 + 2 * k ->
            Forall (fun c => p_id c ∉ known_ids) candidates ->
            length (gather w round_num direction known_ids included candidates)
            <= 1999 + 2 * k
            /\ Forall (fun c => p_id c ∉ known_ids)
                 (gather w round_num direction known_ids included candidates)).
  { induction included as [|p rest IH]; intros candidates Hl Hk; [done|].
    cbn [gather]. change config.DEFAULT_MAX_CANDIDATES_PER_ROUND with 2000.
    destruct (Nat.leb_spec 2000 (length candidates)) as [Hcap|Hcap]; [done|].
    destruct (negb (Py.truthy (openalex_id p))); [by apply IH|].
    apply IH.
    - set (c1 := if direction_in direction "both" "backward" then _ else _).
      assert (length c1 <= length candidates + k).
      { unfold c1. destruct (direction_in direction "both" "backward"); [|lia].
        apply extend_length.
        destruct (get_references w round_num _) as [l|] eqn:E; [|done].
        by eapply Hr. }
      destruct (direction_in direction "both" "forward"); [|lia].
      etrans; [apply (extend_length _ _ _ k)|lia].
      destruct (get_citing_papers w round_num _) as [l|] eqn:E; [|done].
      by eapply Hc.
    - destruct (direction_in direction "both" "forward");
        destruct (direction_in direction "both" "backward");
        repeat apply extend_unknown; done. }
  destruct (H [] ltac:(cbn; lia) ltac:(constructor)) as [H1 H2].
  split; [done|]. split; [done|]. intros N1 N2 N3.
  assert (direction_in direction "both" "backward" = false) as E1.
  { unfold direction_in. apply orb_false_iff. by rewrite !String.eqb_neq. }
  assert (direction_in direction "both" "forward" = false) as E2.
  { unfold direction_in. apply orb_false_iff. by rewrite !String.eqb_neq. }
  clear -E1 E2.
  enough (forall candidates,
            gather w round_num direction known_ids included candidates
            = candidates) as H by apply H.
  induction included as [|p rest IH]; intros candidates; [done|].
  cbn [gather]. rewrite E1, E2, IH.
  destruct (_ <=? _); [done|]. by destruct (negb _).
Qed.

Lemma upsert_fresh (l : list paper) (s : store) (n : nat) :
  NoDup (map p_id l) ->
  Forall (fun p => ~ In (p_id p) (map row_id s)) l ->
  fold_left upsert_step l (s, n) = (s ++ map new_row l, n + length l).
Proof.
  revert s n. induction l as [|p l IH]; intros s n Hnd Hf.
  - cbn. by rewrite app_nil_r, Nat.add_0_r.
  - cbn [fold_left upsert_step map length].
    apply NoDup_cons in Hnd as [Hp Hnd]. apply Forall_cons in Hf as [Hs Hf].
    destruct (exists_id s (p_id p)) eqn:E; [by apply exists_id_spec in E|].
    rewrite IH; [by rewrite <- app_assoc, Nat.add_succ_r| done |].
    apply Forall_forall. intros q Hq. rewrite Forall_forall in Hf.
    rewrite map_app, in_app_iff. cbn. intros [H|[H|[]]].
    + by apply (Hf q).
    + apply Hp. cbn in H. rewrite H. apply list_elem_of_In, in_map.
      by apply list_elem_of_In.
Qed.

Lemma found_fresh (w : world) (c : cfg) (round_num : nat) (s : store) :
  NoDup (map p_id (found w c round_num s))
  /\ Forall (fun p => ~ In (p_id p) (map row_id s)) (found w c round_num s).
Proof.
  unfold found.
  destruct (unique_fold round_num (_get_all_known_ids s)
              (gather w round_num (snowball_direction c) (_get_all_known_ids s)
                 (get_papers s (Some "INCLUDED") None) []))
    as (_ & Hnd & (chosen & _ & Hu & Hk) & _).
  unfold unique_candidates. split; [done|]. rewrite Hu.
  apply Forall_fmap. eapply Forall_impl; [exact Hk|]. intros p Hp.
  cbn. by rewrite <- known_ids_spec.
Qed.

(** X18. Every candidate a round reports is inserted: the candidates
    found in a table are new to it and pairwise distinct, so
    [upsert_papers] appends one fresh row for each of them, in their
    order, and returns their number. *)
Theorem round_inserts_every_candidate (w : world) (c : cfg) (round_num : nat)
    (s : store) :
  upsert_papers s (found w c round_num s)
  = (s ++ map new_row (found w c round_num s),
     length (found w c round_num s)).
Proof.
  destruct (found_fresh w c round_num s) as [Hnd Hf].
  unfold upsert_papers. by rewrite upsert_fresh.
Qed.

Lemma round_result (w : world) (c : cfg) (round_num : nat) (st : state) :
  (total_new_included (fst (round w c round_num st))
   <= total_new_included st)%Z
  /\ (db (fst (round w c round_num st)) = db st
      \/ db (fst (round w c round_num st))
         = r_store (run_pass1
                      (fst (upsert_papers (db st) (found w c round_num (db st))))
                      (screening w round_num) (completion w round_num))).
Proof.
  unfold round, found.
  destruct (get_papers (db st) (Some "INCLUDED") None) as [|i0 is0] eqn:Hi.
  { cbn. split; [lia|by left]. }
  destruct (unique_candidates round_num _ _) as [|u0 us] eqn:Hu.
  { cbn. split; [lia|by left]. }
  cbn [fst db total_new_included]. split; [|by right].
  pose proof (run_pass1_included (fst (upsert_papers (db st) (u0 :: us)))
                (screening w round_num) (completion w round_num)).
  lia.
Qed.

(** X19. A run of the snowballing agent never counts a new inclusion:
    screening the candidates can set a final status only to EXCLUDED, so
    the number [run] returns is at most 0, the run ends with its first
    round whatever the configured maximum, and the table it leaves has
    the rows it had, in their order, followed by the rows of the
    candidates of that round, if any was screened. *)
Theorem snowball_run_single_round (w : world) (c : cfg) (s : store) :
  length (reports (run w c s)) <= 1
  /\ (total_new_included (run w c s) <= 0)%Z
  /\ (map row_id (db (run w c s)) = map row_id s
      \/ map row_id (db (run w c s))
         = map row_id s ++ map p_id (found w c 1 s)).
Proof.
  destruct (run_rounds w c s) as [[_ E] | [_ E]]; rewrite E.
  { cbn. split; [lia|]. split; [lia|by left]. }
  set (st0 := {| db := s; total_new_included := 0; reports := [] |}).
  destruct (round_shape w c 1 st0) as (_ & rep & Hrep & _).
  destruct (round_result w c 1 st0) as [Ht Hdb].
  rewrite Hrep. cbn [st0 reports db total_new_included app length] in *.
  split; [lia|]. split; [lia|].
  destruct Hdb as [E' | E']; rewrite E'; [by left|right].
  rewrite run_pass1_store, commit_store, map_map.
  erewrite map_ext; [|intros r; apply fold_decide_id].
  destruct (found_fresh w c 1 s) as [Hnd Hf].
  unfold upsert_papers. rewrite upsert_fresh by done. cbn [fst].
  by rewrite map_app, map_map.
Qed.

End snowballing.

(** ** Relevance scoring *)

Section scoring.
Import database RelevanceAgent.



End scoring.

Section saturation.
Import database RelevanceAgent.
Local Open Scope Q_scope.

Lemma round_half_even_comp (x y : Q) :
  x == y -> Py.round_half_even x = Py.round_half_even y.
Proof.
  intros E. unfold Py.round_half_even.
  assert (Qfloor x = Qfloor y) as -> by (by apply Qfloor_comp).
  assert (Qcompare (x - inject_Z (Qfloor y)) (1 # 2)
          = Qcompare (y - inject_Z (Qfloor y)) (1 # 2)) as ->; [|done].
  apply Qcompare_comp; [|done]. by rewrite E.
Qed.

Lemma round_half_even_mono (x y : Q) :
  x <= y -> (Py.round_half_even x <= Py.round_half_even y)%Z.
Proof.
  intros Hxy.
  destruct (Z_le_gt_dec (Py.round_half_even x) (Py.round_half_even y))
    as [H|H]; [done|].
  exfalso.
  destruct (round_half_even_near x) as [_ Hx].
  destruct (round_half_even_near y) as [Hy _].
  assert (Hz : (Py.round_half_even y + 1 <= Py.round_half_even x)%Z) by lia.
  rewrite Zle_Qle, inject_Z_plus in Hz. change (inject_Z 1) with 1 in Hz.
  assert (E : x == y) by lra.
  rewrite (round_half_even_comp x y E) in H. lia.
Qed.

Lemma round1_mono (x y : Q) : x <= y -> Py.round1 x <= Py.round1 y.
Proof.
  intros H. unfold Py.round1.
  assert (Hm : (Py.round_half_even (x * 10) <= Py.round_half_even (y * 10))%Z)
    by (apply round_half_even_mono; lra).
  rewrite Zle_Qle in Hm.
  apply Qmult_le_compat_r; [done|]. by vm_compute.
Qed.

Lemma py_max_mono (b b' : Q) : b <= b' -> Py.max 0 b <= Py.max 0 b'.
Proof.
  intros H. unfold Py.max.
  destruct (Qlt_le_dec 0 b), (Qlt_le_dec 0 b'); lra.
Qed.

Lemma py_min_mono (b b' : Q) : b <= b' -> Py.min 100 b <= Py.min 100 b'.
Proof.
  intros H. unfold Py.min.
  destruct (Qlt_le_dec b 100), (Qlt_le_dec b' 100); lra.
Qed.

(** X21. Where the two scores saturate: the cosine score is 0 for a
    similarity of at most 0.3 and 100 for a similarity of at least 1,
    and it never decreases when the similarity grows; the keyword score
    is 100 as soon as two thirds of the question's tokens occur in the
    document. *)
Theorem scores_saturate (sim sim' : Q) (research_question : string) (p : row) :
  (sim <= 3 # 10 -> cosine_score sim == 0)
  /\ (1 <= sim -> cosine_score sim == 100)
  /\ (sim <= sim' -> cosine_score sim <= cosine_score sim')
  /\ ((2 * Nat.max (size (_tokenise research_question)) 1
       <= 3 * size (_tokenise research_question ∩ _tokenise (text_of p)))%nat ->
      keyword_score research_question p == 100).
Proof.
  split; [|split; [|split]].
  - intros H. unfold cosine_score.
    assert (Hb : (sim - (3 # 10)) / (7 # 10) * 100 <= 0).
    { unfold Qdiv. change (/ (7 # 10)) with (10 # 7).
      lra. }
    unfold Py.min.
    destruct (Qlt_le_dec ((sim - (3 # 10)) / (7 # 10) * 100) 100) as [_|Hc];
      [|lra].
    unfold Py.max.
    destruct (Qlt_le_dec 0 ((sim - (3 # 10)) / (7 # 10) * 100)) as [Hc|_];
      [lra|]. reflexivity.
  - intros H. unfold cosine_score.
    assert (Hb : 100 <= (sim - (3 # 10)) / (7 # 10) * 100).
    { unfold Qdiv. change (/ (7 # 10)) with (10 # 7).
      lra. }
    unfold Py.min.
    destruct (Qlt_le_dec ((sim - (3 # 10)) / (7 # 10) * 100) 100) as [Hc|_];
      [lra|]. reflexivity.
  - intros H. unfold cosine_score.
    apply round1_mono, py_max_mono, py_min_mono.
    unfold Qdiv. change (/ (7 # 10)) with (10 # 7).
    lra.
  - intros H. unfold keyword_score.
    set (o := keyword_overlap _ _).
    assert (Ho : 100 <= o * 150).
    { unfold o, keyword_overlap.
      set (n := size (_tokenise research_question ∩ _tokenise (text_of p))) in *.
      set (m := Nat.max (size (_tokenise research_question)) 1) in *.
      assert (Hm : 0 < inject_Z (Z.of_nat m)).
      { rewrite <- (Zlt_Qlt 0). unfold m. lia. }
      assert (Hn : 2 * inject_Z (Z.of_nat m) <= 3 * inject_Z (Z.of_nat n)).
      { change 2 with (inject_Z 2). change 3 with (inject_Z 3).
        rewrite <- !inject_Z_mult, <- Zle_Qle. lia. }
      assert (E : inject_Z (Z.of_nat n) / inject_Z (Z.of_nat m) * 150
                  == 150 * inject_Z (Z.of_nat n) / inject_Z (Z.of_nat m))
        by (field; lra).
      rewrite E. apply Qle_shift_div_l; [done|]. lra. }
    unfold Py.min. destruct (Qlt_le_dec (o * 150) 100) as [Hc|_]; [lra|].
    reflexivity.
Qed.

End saturation.

Section tokens.
Import RelevanceAgent.

Lemma split_aux_chars (P : ascii -> Prop) (l cur : list ascii) (w : string) :
  Forall P cur ->
  Forall (fun c => Py.is_space c = false -> P c) l ->
  In w (Py.split_aux cur l) -> Forall P (Py.chars w).
Proof.
  revert cur. induction l as [|c l IH]; intros cur Hcur Hl Hw.
  - cbn in Hw. destruct cur as [|c0 cur]; [done|].
    destruct Hw as [<-|[]]. unfold Py.chars, Py.str.
    rewrite list_ascii_of_string_of_list_ascii. by apply Forall_rev.
  - apply Forall_cons in Hl as [Hc Hl]. cbn [Py.split_aux] in Hw.
    destruct (Py.is_space c) eqn:Es.
    + destruct cur as [|c0 cur]; [by apply (IH [])|].
      destruct Hw as [<-|Hw]; [|by apply (IH [])].
      unfold Py.chars, Py.str.
      rewrite list_ascii_of_string_of_list_ascii. by apply Forall_rev.
    + apply (IH (c :: cur)); [|done|done]. constructor; [by apply Hc|done].
Qed.

Lemma lower_char_not_upper (c : ascii) :
  Py.is_upper (Py.lower_char c) = false
  /\ Py.lower_char (Py.upper_char c) = Py.lower_char c.
Proof. destruct c as [[] [] [] [] [] [] [] []]; vm_compute; done. Qed.

Lemma space_not_word (c : ascii) :
  Py.is_word c || Py.is_space c = true -> Py.is_space c = false ->
  Py.is_word c = true.
Proof. intros H E. rewrite E, orb_false_r in H. done. Qed.

(** X22. The tokens of the keyword score: every token has more than
    two characters, is no stop-word, and consists of letters, digits and
    underscores with no upper-case letter; and a text and the same text
    in upper case have the same tokens. *)
Theorem tokenise_tokens (text : string) :
  (forall w, w ∈ _tokenise text ->
     2 < String.length w
     /\ ~ In w _STOPWORDS
     /\ Forall (fun c => Py.is_word c = true /\ Py.is_upper c = false)
               (Py.chars w))
  /\ _tokenise (Py.upper text) = _tokenise text.
Proof.
  split.
  - intros w Hw. unfold _tokenise in Hw.
    apply elem_of_list_to_set, list_elem_of_In, filter_In in Hw as [Hw Hf].
    apply andb_true_iff in Hf as [Hs Hl].
    split; [by apply Nat.ltb_lt in Hl|]. split.
    + intros Hin. apply negb_true_iff in Hs.
      assert (is_stopword w = true); [|congruence].
      unfold is_stopword. apply existsb_exists. exists w.
      split; [done|apply String.eqb_refl].
    + unfold Py.split in Hw. eapply split_aux_chars; [constructor| |exact Hw].
      unfold Py.chars at 1, Py.str.
      rewrite list_ascii_of_string_of_list_ascii.
      apply Forall_forall. intros c Hc Hns.
      apply list_elem_of_In, filter_In in Hc as [Hc Hk].
      split; [by apply space_not_word|].
      unfold Py.lower, Py.chars, Py.str in Hc.
      rewrite list_ascii_of_string_of_list_ascii in Hc.
      apply in_map_iff in Hc as (c0 & <- & _).
      apply lower_char_not_upper.
  - unfold _tokenise.
    assert (Py.lower (Py.upper text) = Py.lower text) as ->; [|done].
    unfold Py.lower, Py.upper, Py.chars, Py.str.
    rewrite list_ascii_of_string_of_list_ascii, map_map. f_equal.
    apply map_ext. intros c. apply lower_char_not_upper.
Qed.

End tokens.

(** ** Quality assessment *)

Section assessing.
Import database QualityAgent Quality.

Lemma all_results_keys (remote : nat -> reply assessment) (papers : list row)
    (completion : list nat) :
  completion ≡ₚ seq 0 (length papers) ->
  map fst (all_results remote papers completion) ≡ₚ map row_id papers.
Proof.
  intros Hc. unfold all_results.
  assert (E : forall l : list nat,
            map fst (omap (fun i => assess_paper (remote i) <$> papers !! i) l)
            = omap (fun i => map row_id papers !! i) l).
  { induction l as [|i l IH]; [done|]. cbn [omap list_omap].
    rewrite list_lookup_fmap.
    destruct (papers !! i) as [p|]; cbn; [|done].
    rewrite IH. by rewrite assess_paper_spec. }
  rewrite E, Hc, <- (length_map row_id). by rewrite omap_lookup_all.
Qed.

Lemma all_results_has (remote : nat -> reply assessment) (papers : list row)
    (completion : list nat) (i : nat) (p : row) :
  completion ≡ₚ seq 0 (length papers) ->
  papers !! i = Some p ->
  In (row_id p, result_of (remote i)) (all_results remote papers completion).
Proof.
  intros Hc Hp. unfold all_results. apply list_elem_of_In, list_elem_of_omap.
  exists i. split.
  - rewrite Hc. apply list_elem_of_In, in_seq.
    apply lookup_lt_Some in Hp. lia.
  - rewrite Hp. cbn. by rewrite assess_paper_spec.
Qed.

Lemma find_key {A : Type} (l : list (string * A)) (k : string) (v : A) :
  NoDup (map fst l) -> In (k, v) l ->
  List.find (fun a => String.eqb k (fst a)) l = Some (k, v).
Proof.
  induction l as [|[k' v'] l IH]; [done|]. cbn [map fst List.find].
  intros Hnd Hin. apply NoDup_cons in Hnd as [Hk Hnd].
  destruct Hin as [E|Hin].
  - injection E as -> ->. by rewrite String.eqb_refl.
  - destruct (String.eqb k k') eqn:E; [|by apply IH].
    apply String.eqb_eq in E. subst k'. destruct Hk.
    apply list_elem_of_In. by apply (in_map fst) in Hin.
Qed.

Lemma set_quality_id (score : Q) (notes flag : string) (r : row) :
  row_id (set_quality score notes flag r) = row_id r.
Proof. done. Qed.

Lemma fold_quality_some (results : list (string * result)) (r : row) :
  is_Some (quality_score r) \/ In (row_id r) (map fst results) ->
  is_Some
    (quality_score
       (fold_left
          (fun r a => if String.eqb (row_id r) (fst a)
                      then set_quality (res_score (snd a))
                             (res_notes (snd a)) (res_flag (snd a)) r
                      else r) results r)).
Proof.
  revert r. induction results as [|a results IH]; intros r H.
  - by destruct H as [H|[]].
  - cbn [fold_left]. apply IH.
    destruct (String.eqb (row_id r) (fst a)) eqn:E.
    + left. by eexists.
    + destruct H as [H|[H|H]]; [by left| |by right].
      rewrite H, String.eqb_refl in E. done.
Qed.

Lemma fold_quality_status (results : list (string * result)) (r : row) :
  final_status
    (fold_left
       (fun r a => if String.eqb (row_id r) (fst a)
                   then set_quality (res_score (snd a))
                          (res_notes (snd a)) (res_flag (snd a)) r
                   else r) results r)
  = final_status r.
Proof.
  revert r. induction results as [|a results IH]; intros r; [done|].
  cbn [fold_left]. rewrite IH. by destruct (String.eqb _ _).
Qed.

(** X23. When every worker of the quality stage has handed back its
    result, each INCLUDED row that had no quality score carries the
    result built from the call made for it (the defaults where the call
    failed), no INCLUDED row is left without a score, and a further call
    of [run] changes nothing. *)
Theorem quality_run_assesses_all (s : store) (remote : nat -> reply assessment)
    (completion : list nat) :
  NoDup (map row_id s) ->
  completion ≡ₚ seq 0 (length (unassessed s)) ->
  (forall i p,
     unassessed s !! i = Some p ->
     find_row (run s remote completion) (row_id p)
     = Some (set_quality (res_score (result_of (remote i)))
               (res_notes (result_of (remote i)))
               (res_flag (result_of (remote i))) p))
  /\ unassessed (run s remote completion) = []
  /\ forall remote' completion',
       run (run s remote completion) remote' completion'
       = run s remote completion.
Proof.
  intros Hnd Hc.
  pose proof (all_results_keys remote (unassessed s) completion Hc) as Hkeys.
  assert (Hund : NoDup (map row_id (unassessed s))).
  { unfold unassessed. apply filter_ids_nodup.
    rewrite (get_papers_perm s (Some "INCLUDED") None).
    by apply filter_ids_nodup. }
  assert (Hknd : NoDup (map fst (all_results remote (unassessed s) completion)))
    by (by rewrite Hkeys).
  assert (Hnone : unassessed (run s remote completion) = []).
  { destruct (unassessed (run s remote completion)) as [|x l] eqn:Hu; [done|].
    exfalso.
    assert (Hx : In x (unassessed (run s remote completion)))
      by (rewrite Hu; by left).
    apply unassessed_in in Hx as [Hx [Hf Hq]].
    rewrite run_commit, commit_rows in Hx.
    apply in_map_iff in Hx as (r & <- & Hr).
    rewrite fold_quality_status in Hf.
    destruct (fold_quality_some
                (all_results remote (unassessed s) completion) r) as [q Hq'];
      [|congruence].
    destruct (quality_score r) as [q|] eqn:Eq; [left; by eexists|right].
    apply list_elem_of_In. rewrite Hkeys.
    apply list_elem_of_In, in_map. by apply unassessed_in. }
  split; [|split; [done|]].
  - intros i p Hp.
    assert (Hin : In p s).
    { apply (unassessed_in s p), list_elem_of_In.
      by eapply list_elem_of_lookup_2. }
    rewrite run_commit, commit_rows.
    rewrite find_row_map.
    2:{ intros r. clear.
        induction (all_results remote (unassessed s) completion)
          as [|a l IH] in r |- *; [done|].
        cbn [fold_left]. rewrite IH. by destruct (String.eqb _ _). }
    rewrite (find_row_in s p Hnd Hin). cbn [fmap option_fmap option_map].
    f_equal.
    rewrite (fold_row_unique fst
               (fun a => set_quality (res_score (snd a)) (res_notes (snd a))
                           (res_flag (snd a)))); [|done|done].
    by rewrite (find_key _ _ _ Hknd
                  (all_results_has remote _ completion i p Hc Hp)).
  - intros remote' completion'. unfold run at 1. by rewrite Hnone.
Qed.

End assessing.

(** ** Calls of the completion service *)

Section retrying.
Import llm Retry.

Lemma attempts_spec (service : nat -> attempt) (n m : nat) :
  forall k c sl,
    k + m = n ->
    (m = 0
     /\ attempts service n (seq k m) c sl
        = {| ended := Returns ""; calls := c; slept := sl |})
    \/ (exists j,
          k <= j < n
          /\ (forall i, k <= i < j -> retryable (service i) = true)
          /\ (retryable (service j) = false \/ j = n - 1)
          /\ attempts service n (seq k m) c sl
             = {| ended := end_of (service j); calls := c + (j - k) + 1;
                  slept := sl ++ map (fun i => wait i (service i))
                                     (seq k (j - k)) |}).
Proof.
  induction m as [|m IH]; intros k c sl Hk; [left; by split|]. right.
  assert (Hstop : forall e,
            end_of (service k) = e ->
            retryable (service k) = false \/ k = n - 1 ->
            exists j,
              k <= j < n
              /\ (forall i, k <= i < j -> retryable (service i) = true)
              /\ (retryable (service j) = false \/ j = n - 1)
              /\ {| ended := e; calls := S c; slept := sl |}
                 = {| ended := end_of (service j); calls := c + (j - k) + 1;
                      slept := sl ++ map (fun i => wait i (service i))
                                         (seq k (j - k)) |}).
  { intros e He Hr. exists k. split; [lia|]. split; [intros; lia|].
    split; [done|]. rewrite Nat.sub_diag, Nat.add_0_r, Nat.add_1_r. cbn.
    by rewrite app_nil_r, He. }
  assert (Hgo : forall w,
            retryable (service k) = true -> k <> n - 1 ->
            wait k (service k) = w ->
            exists j,
              k <= j < n
              /\ (forall i, k <= i < j -> retryable (service i) = true)
              /\ (retryable (service j) = false \/ j = n - 1)
              /\ attempts service n (seq (S k) m) (S c) (sl ++ [w])
                 = {| ended := end_of (service j); calls := c + (j - k) + 1;
                      slept := sl ++ map (fun i => wait i (service i))
                                         (seq k (j - k)) |}).
  { intros w Hr Hl Hw.
    destruct (IH (S k) (S c) (sl ++ [w]) ltac:(lia))
      as [[-> _]|(j & Hj & Hall & Hend & ->)]; [lia|].
    exists j. split; [lia|]. split.
    - intros i Hi. destruct (Nat.eq_dec i k) as [->|]; [done|].
      apply Hall. lia.
    - split; [done|]. f_equal; [lia|].
      replace (j - k) with (S (j - S k)) by lia. cbn [seq map].
      by rewrite <- app_assoc, Hw. }
  cbn [seq attempts].
  destruct (service k) as [text| |code|] eqn:Es.
  - apply Hstop; [done|by left].
  - destruct (Nat.eqb_spec k (n - 1)) as [El|El].
    + apply Hstop; [done|by right].
    + by apply Hgo.
  - destruct ((code <? 500)%Z && negb (code =? 429)%Z) eqn:Ec.
    + apply Hstop; [done|left]. cbn. by rewrite Ec.
    + destruct (Nat.eqb_spec k (n - 1)) as [El|El].
      * apply Hstop; [done|by right].
      * apply Hgo; [cbn; by rewrite Ec|done|done].
  - destruct (Nat.eqb_spec k (n - 1)) as [El|El].
    + apply Hstop; [done|by right].
    + by apply Hgo.
Qed.

Lemma total_snoc (l : list Z) (x : Z) : total (l ++ [x]) = (total l + x)%Z.
Proof. unfold total. induction l as [|y l IH]; cbn; lia. Qed.

Lemma total_waits (service : nat -> attempt) (j : nat) :
  (total (map (fun i => wait i (service i)) (seq 0 j))
   <= 5 * (2 ^ Z.of_nat j - 1))%Z.
Proof.
  induction j as [|j IH]; [done|].
  rewrite seq_S, map_app. cbn [map Nat.add]. rewrite total_snoc.
  rewrite Nat2Z.inj_succ, Z.pow_succ_r by lia.
  assert (wait j (service j) <= 5 * 2 ^ Z.of_nat j)%Z.
  { pose proof (Z.pow_pos_nonneg 2 (Z.of_nat j) ltac:(lia) ltac:(lia)).
    unfold wait. destruct (service j); lia. }
  lia.
Qed.

(** X24. The retries of [chat_completion]: with [max_retries] 0 it
    makes no call and returns the empty text; otherwise it ends at the
    first attempt that is not retryable, or at the last attempt, with
    the text of that attempt (empty for a null content) or with its
    exception, after one call for each attempt made and a pause after
    each earlier attempt, of 5 s doubled per attempt for a rate-limit
    error and of 2 s doubled per attempt otherwise; so it makes at most
    [max_retries] calls and pauses at most [5 * (2 ^ (calls - 1) - 1)]
    seconds in all. *)
Theorem chat_completion_retries (service : nat -> attempt)
    (max_retries : nat) :
  (max_retries = 0 ->
   chat_completion service max_retries
   = {| ended := Returns ""; calls := 0; slept := [] |})
  /\ (0 < max_retries ->
      exists j,
        j < max_retries
        /\ (forall i, i < j -> retryable (service i) = true)
        /\ (retryable (service j) = false \/ j = max_retries - 1)
        /\ chat_completion service max_retries
           = {| ended := end_of (service j); calls := S j;
                slept := map (fun i => wait i (service i)) (seq 0 j) |})
  /\ calls (chat_completion service max_retries) <= max_retries
  /\ (total (slept (chat_completion service max_retries))
      <= 5 * (2 ^ Z.of_nat (calls (chat_completion service max_retries) - 1)
              - 1))%Z.
Proof.
  unfold chat_completion.
  destruct (attempts_spec service max_retries max_retries 0 0 [] eq_refl)
    as [[-> E]|(j & Hj & Hall & Hend & E)].
  - split; [done|]. split; [lia|]. rewrite E. cbn. split; [lia|done].
  - rewrite Nat.sub_0_r, Nat.add_0_l, Nat.add_1_r, app_nil_l in E.
    split; [lia|]. split.
    + intros _. exists j. split; [lia|]. split; [|done].
      intros i Hi. apply Hall. lia.
    + rewrite E. cbn [calls slept]. split; [lia|].
      replace (S j - 1) with j by lia. apply total_waits.
Qed.

Lemma chunks_concat {A : Type} (n : nat) (l : list A) :
  0 < n -> concat (chunks n l) = l.
Proof.
  intros Hn. unfold chunks.
  assert (H : forall m,
             concat (map (fun k => take n (drop (k * n) l)) (seq 0 m))
             = take (m * n) l).
  { induction m as [|m IH]; [done|].
    rewrite seq_S, map_app, concat_app, IH. cbn [map concat Nat.add].
    rewrite app_nil_r, take_take_drop. f_equal. lia. }
  rewrite H. apply take_ge.
  pose proof (Nat.div_mod_eq (length l + n - 1) n) as Hd.
  pose proof (Nat.mod_upper_bound (length l + n - 1) n) as Hm.
  nia.
Qed.

(** X25. [get_embeddings] sends the texts in requests of at least one
    and at most 512 texts each, as many requests as the number of texts
    divided by 512, rounded up (none for an empty list), and when the
    service answers every request with one vector per text, computed
    text by text, the result is the list of the vectors of the texts,
    in their order. *)
Theorem get_embeddings_chunks {A B : Type} (f : A -> B)
    (embed : list A -> list B) (texts : list A) :
  Forall (fun c => 1 <= length c <= 512) (chunks chunk_size texts)
  /\ length texts <= length (chunks chunk_size texts) * 512 < length texts + 512
  /\ ((forall c, In c (chunks chunk_size texts) -> embed c = map f c) ->
      get_embeddings embed texts = map f texts).
Proof.
  change chunk_size with 512. set (n := 512).
  assert (Hn : 0 < n) by (unfold n; lia).
  unfold chunks at 1 2 3. rewrite length_map, length_seq.
  set (m := (length texts + n - 1) / n).
  pose proof (Nat.div_mod_eq (length texts + n - 1) n) as Hd.
  pose proof (Nat.mod_upper_bound (length texts + n - 1) n ltac:(lia)) as Hm.
  fold m in Hd.
  assert (Hk : forall k, k < m -> k * n < length texts) by (intros k Hk; nia).
  split; [|split; [nia|]].
  - apply Forall_forall. intros b Hb. apply list_elem_of_In in Hb.
    apply in_map_iff in Hb as (k & <- & Hin). apply in_seq in Hin.
    rewrite length_take, length_drop. specialize (Hk k ltac:(lia)). lia.
  - intros He. unfold get_embeddings. destruct texts as [|t texts]; [done|].
    change chunk_size with n.
    rewrite <- (chunks_concat n (t :: texts) Hn) at 2.
    generalize dependent (chunks n (t :: texts)). clear. intros cs He.
    induction cs as [|c cs IH]; [done|]. cbn [map concat].
    rewrite map_app, (He c) by (by left). f_equal. apply IH.
    intros c' Hc'. apply He. by right.
Qed.

End retrying.

(** ** The OpenAlex client *)

Section client.
Import openalex_client Abstract.

(** X26. The identity of a parsed work: [_parse_work] rejects exactly
    the works without a title; a parsed work keeps its title, which is
    not empty, takes the DOI as its id when there is one and otherwise
    the OpenAlex id when there is one, always carries a citation count
    and an abstract text, and has a non-empty id as long as the digest
    of a title is never empty. *)
Theorem parse_work_identity (md5 : string -> string) (w : work) :
  (_parse_work md5 w = None <-> Py.truthy (w_title w) = false)
  /\ forall p,
       _parse_work md5 w = Some p ->
       w_title w = Some (p_title p) /\ p_title p <> ""
       /\ (Py.truthy (w_doi w) = true -> Some (p_id p) = w_doi w)
       /\ (Py.truthy (w_doi w) = false -> Py.truthy (w_id w) = true ->
           Some (p_id p) = w_id w)
       /\ (Py.truthy (w_doi w) = false -> Py.truthy (w_id w) = false ->
           p_id p = md5 (p_title p))
       /\ is_Some (p_citation_count p) /\ is_Some (p_abstract p)
       /\ ((forall t, md5 t <> "") -> p_id p <> "").
Proof.
  unfold _parse_work.
  destruct (w_title w) as [t|] eqn:Et; cbn [Py.truthy negb];
    [|split; [done|intros p; discriminate]].
  destruct (String.eqb_spec t "") as [->|Hne]; cbn [negb];
    [split; [done|intros p; discriminate]|].
  split; [split; discriminate|].
  intros p [= <-]. cbn [p_id p_title p_citation_count p_abstract Py.or_empty].
  split; [done|]. split; [done|].
  destruct (w_doi w) as [d|] eqn:Ed; cbn [Py.truthy Py.or_empty].
  - destruct (String.eqb_spec d "") as [->|Hd]; cbn [negb].
    + split; [done|].
      destruct (w_id w) as [i|] eqn:Ei; cbn [Py.truthy Py.or_empty].
      * destruct (String.eqb_spec i "") as [->|Hi]; cbn [negb];
          repeat split; try done; by eexists.
      * repeat split; try done; by eexists.
    + repeat split; try done; by eexists.
  - split; [done|].
    destruct (w_id w) as [i|] eqn:Ei; cbn [Py.truthy Py.or_empty].
    + destruct (String.eqb_spec i "") as [->|Hi]; cbn [negb];
        repeat split; try done; by eexists.
    + repeat split; try done; by eexists.
Qed.

Lemma length_omap_le {A B : Type} (f : A -> option B) (l : list A) :
  length (omap f l) <= length l.
Proof.
  induction l as [|x l IH]; [done|]. cbn. destruct (f x); cbn; lia.
Qed.

Lemma paginate_length (md5 : string -> string) (max_results k : nat)
    (answers : list (reply page)) :
  Forall (page_within k) answers ->
  forall papers l,
    length papers <= Nat.pred max_results + k ->
    _paginate md5 answers max_results papers = Some (Replied l) ->
    length l <= Nat.pred max_results + k.
Proof.
  induction 1 as [|a answers Ha _ IH]; intros papers l Hp; cbn [_paginate];
    destruct (Nat.leb_spec max_results (length papers)) as [Hm|Hm];
    try (intros [= <-]; done); try done.
  destruct a as [|data]; [done|]. cbn in Ha.
  pose proof (length_omap_le (_parse_work md5) (results data)) as Ho.
  assert (Hl : length (papers ++ omap (_parse_work md5) (results data))
               <= Nat.pred max_results + k)
    by (rewrite length_app; lia).
  destruct (negb (Py.truthy (next_cursor data))
            || match results data with [] => true | _ => false end).
  - by intros [= <-].
  - by apply IH.
Qed.

Lemma take_page_length (md5 : string -> string) (max_results : nat)
    (ws : list work) (papers : list paper) :
  length papers < max_results ->
  length (take_page md5 max_results papers ws) <= max_results.
Proof.
  revert papers. induction ws as [|w ws IH]; intros papers Hp; cbn [take_page];
    [lia|].
  set (papers' := match _parse_work md5 w with
                  | Some parsed => papers ++ [parsed]
                  | None => papers
                  end).
  assert (length papers' <= S (length papers)).
  { unfold papers'. destruct (_parse_work md5 w); [|lia].
    rewrite length_app. cbn. lia. }
  destruct (Nat.leb_spec max_results (length papers')); [lia|by apply IH].
Qed.

Lemma search_works_length (md5 : string -> string) (max_results : nat)
    (answers : list (reply page)) :
  forall papers l,
    length papers <= max_results ->
    search_works md5 answers max_results papers = Some (Replied l) ->
    length l <= max_results.
Proof.
  induction answers as [|a answers IH]; intros papers l Hp;
    cbn [search_works];
    destruct (Nat.leb_spec max_results (length papers)) as [Hm|Hm];
    try (intros [= <-]; done); try done.
  destruct a as [|data]; [done|].
  destruct (results data) as [|w ws]; [by intros [= <-]|].
  pose proof (take_page_length md5 max_results (w :: ws) papers Hm).
  destruct (negb (Py.truthy (next_cursor data))).
  - by intros [= <-].
  - by apply IH.
Qed.

Lemma paginate_ends (md5 : string -> string) (max_results : nat)
    (answers : list (reply page)) (ws : list work) :
  forall papers,
    is_Some (_paginate md5 (answers ++ [Replied (mk_page ws None)])
               max_results papers)
    /\ is_Some (search_works md5 (answers ++ [Replied (mk_page ws None)])
                  max_results papers).
Proof.
  induction answers as [|a answers IH]; intros papers;
    cbn [app _paginate search_works];
    destruct (max_results <=? length papers); try (split; by eexists).
  - cbn. destruct ws; split; by eexists.
  - destruct a as [|data]; [split; by eexists|].
    destruct (IH (papers ++ omap (_parse_work md5) (results data)))
      as [I1 _].
    split.
    + by destruct (negb (Py.truthy (next_cursor data))
                   || match results data with [] => true | _ => false end).
    + destruct (results data) as [|w ws']; [by eexists|].
      destruct (negb (Py.truthy (next_cursor data))); [by eexists|].
      apply IH.
Qed.

Lemma paginate_fails (md5 : string -> string) (max_results : nat)
    (answers rest : list (reply page)) :
  forall papers,
    _paginate md5 answers max_results papers = None ->
    _paginate md5 (answers ++ Raised :: rest) max_results papers = Some Raised.
Proof.
  induction answers as [|a answers IH]; intros papers;
    cbn [app _paginate];
    destruct (max_results <=? length papers); try done.
  destruct a as [|data]; [done|].
  destruct (negb (Py.truthy (next_cursor data))
            || match results data with [] => true | _ => false end);
    [done|]. apply IH.
Qed.

(** X27. The paginated look-ups: when no page holds more than [k]
    works, [get_references] returns fewer than [max_results + k]
    documents, so up to [k - 1] more than asked for, while
    [search_works] never returns more than [max_results]; both return
    as soon as a page comes without a cursor; a request that fails
    makes [get_references] return the empty list, whatever the earlier
    pages held; and with [max_results] 0 no request is made. *)
Theorem paginate_lengths (md5 : string -> string)
    (answers : list (reply page)) (max_results k : nat) :
  Forall (page_within k) answers ->
  (forall l, get_references md5 answers max_results = Some l ->
     length l <= Nat.pred max_results + k)
  /\ (forall l, search_works md5 answers max_results [] = Some (Replied l) ->
        length l <= max_results)
  /\ (forall ws,
        is_Some (get_references md5 (answers ++ [Replied (mk_page ws None)])
                   max_results)
        /\ is_Some (search_works md5 (answers ++ [Replied (mk_page ws None)])
                      max_results []))
  /\ (forall rest,
        _paginate md5 answers max_results [] = None ->
        get_references md5 (answers ++ Raised :: rest) max_results = Some [])
  /\ (max_results = 0 -> get_references md5 answers max_results = Some []).
Proof.
  intros Hk. split; [|split; [|split; [|split]]].
  - intros l. unfold get_references.
    destruct (_paginate md5 answers max_results []) as [[|l']|] eqn:E;
      [intros [= <-]; cbn; lia| |done].
    intros [= <-]. eapply paginate_length; [exact Hk| |exact E]. cbn. lia.
  - intros l. apply search_works_length. cbn. lia.
  - intros ws. destruct (paginate_ends md5 max_results answers ws [])
      as [[r Hr] Hs].
    split; [|done]. unfold get_references. rewrite Hr.
    destruct r; by eexists.
  - intros rest E. unfold get_references. by rewrite paginate_fails.
  - intros ->. unfold get_references. by destruct answers.
Qed.

Lemma insert_by_pos_perm (x : Z * string) (l : list (Z * string)) :
  insert_by_pos x l ≡ₚ x :: l.
Proof.
  induction l as [|y l IH]; [done|]. cbn.
  destruct (fst y <? fst x)%Z; [|done]. rewrite IH. apply Permutation_swap.
Qed.

Lemma sort_by_pos_perm (l : list (Z * string)) : sort_by_pos l ≡ₚ l.
Proof.
  induction l as [|x l IH]; [done|]. cbn [sort_by_pos fold_right].
  fold (sort_by_pos l). by rewrite insert_by_pos_perm, IH.
Qed.

Lemma insert_by_pos_sorted (x : Z * string) (l : list (Z * string)) :
  StronglySorted by_pos l -> StronglySorted by_pos (insert_by_pos x l).
Proof.
  induction 1 as [|y l Hl IH Hy]; cbn; [repeat constructor|].
  destruct (Z.ltb_spec (fst y) (fst x)) as [Hlt|Hge].
  - constructor; [done|]. rewrite insert_by_pos_perm.
    constructor; [unfold by_pos; lia|done].
  - constructor; [by constructor|]. constructor; [done|].
    eapply Forall_impl; [exact Hy|]. unfold by_pos. intros; lia.
Qed.

Lemma sort_by_pos_sorted (l : list (Z * string)) :
  StronglySorted by_pos (sort_by_pos l).
Proof.
  induction l as [|x l IH]; [constructor|]. cbn [sort_by_pos fold_right].
  by apply insert_by_pos_sorted.
Qed.

Lemma numbered_from (words : list string) (a : nat) :
  StronglySorted by_pos (zip (map Z.of_nat (seq a (length words))) words)
  /\ Forall (fun x => (Z.of_nat a <= fst x)%Z)
            (zip (map Z.of_nat (seq a (length words))) words)
  /\ NoDup (map fst (zip (map Z.of_nat (seq a (length words))) words)).
Proof.
  revert a. induction words as [|w words IH]; intros a.
  - cbn. repeat constructor.
  - cbn [length seq map zip zip_with fst].
    destruct (IH (S a)) as (I1 & I2 & I3).
    split; [|split].
    + constructor; [done|]. eapply Forall_impl; [exact I2|].
      unfold by_pos. cbn. intros; lia.
    + constructor; [cbn; lia|]. eapply Forall_impl; [exact I2|].
      cbn. intros; lia.
    + apply NoDup_cons. split; [|done]. intros Hin.
      apply list_elem_of_In, in_map_iff in Hin as (x & Ex & Hx).
      rewrite Forall_forall in I2.
      specialize (I2 x ltac:(by apply list_elem_of_In)). lia.
Qed.

(** X28. [reconstruct_abstract] inverts the inverted index: when the
    index lists, for every word, the positions at which a text has it,
    the string returned is the words of that text in their order,
    joined by single blanks. *)
Theorem reconstruct_abstract_round_trip (index : list (string * list Z))
    (words : list string) :
  positions index ≡ₚ numbered words ->
  reconstruct_abstract (Some index) = String.concat " " words.
Proof.
  intros Hp.
  assert (Hsort : sort_by_pos (positions index) = numbered words).
  { destruct (numbered_from words 0) as (Hs & _ & Hnd).
    assert (Htr : Transitive by_pos) by (intros a b c; unfold by_pos; lia).
    apply (Sorted_unique_strong by_pos).
    - intros x1 x2 H1 H2 Hle Hge.
      rewrite sort_by_pos_perm, Hp in H1.
      assert (E : fst x1 = fst x2) by (unfold by_pos in *; lia).
      apply list_elem_of_In, In_nth_error in H1 as [i Hi].
      apply list_elem_of_In, In_nth_error in H2 as [j Hj].
      assert (i = j) as ->; [|congruence].
      apply (NoDup_nth_error (map fst (numbered words)));
        [by apply NoDup_ListNoDup| |].
      + rewrite length_map. apply nth_error_Some. congruence.
      + by rewrite !nth_error_map, Hi, Hj; cbn; rewrite E.
    - apply StronglySorted_Sorted, sort_by_pos_sorted.
    - by apply StronglySorted_Sorted.
    - by rewrite sort_by_pos_perm. }
  unfold reconstruct_abstract. destruct index as [|e index].
  - cbn in Hp. symmetry in Hp. apply Permutation_nil_r in Hp.
    destruct words; [done|discriminate].
  - rewrite Hsort. unfold numbered. f_equal. apply snd_zip.
    by rewrite length_map, length_seq.
Qed.

End client.

(** * The statements at concrete inputs *)

Section instances.
Import database Examples.

(** ** Screening life cycle *)

(** C1, an instance: the review session keeps the invariant. *)
Lemma finalize_invariant_review_session :
  Lifecycle.finalize_invariant (Lifecycle.exec_all two_rows review_session).
Proof.
  apply finalize_invariant_preserved.
  - compute_done.
  - repeat constructor; cbn; intros; try discriminate; auto.
  - vm_compute. repeat split.
    + repeat constructor. intros H. inversion H.
    + intros i [<-|[]] _. by left.
Defined.

(** C1 as stated fails: a response that decides the one unscreened
    document twice, EXCLUDE then INCLUDE, leaves it with screening
    decision INCLUDE, final status EXCLUDED and no human decision. *)
Lemma repeated_decision_breaks_invariant :
  Lifecycle.finalize_invariant one_row
  /\ map (fun r => (screening_pass1 r, human_decision r, final_status r))
         (Lifecycle.exec_all one_row repeated_session)
     = [(Some "INCLUDE", None, Some "EXCLUDED")]
  /\ ~ Lifecycle.finalize_invariant
         (Lifecycle.exec_all one_row repeated_session).
Proof.
  split; [|split].
  - repeat constructor; cbn; intros; discriminate.
  - reflexivity.
  - intros H. vm_compute in H. apply Forall_cons in H as [[_ H] _].
    destruct (H eq_refl); discriminate.
Qed.



(** A round whose candidate is screened INCLUDE still counts no new
    inclusion: the screening run leaves its final status empty, and the
    run stops after this round. *)
Example included_candidate_is_not_counted :
  SnowballingAgent.reports
    (SnowballingAgent.run generous_world three_rounds two_rows)
  = [SnowballingAgent.Screened 1 0 1
       [SnowballingAgent.no_new_papers; SnowballingAgent.low_yield]]
  /\ map (fun r => (row_id r, screening_pass1 r, final_status r))
         (SnowballingAgent.db
            (SnowballingAgent.run generous_world three_rounds two_rows))
     = [("A", Some "INCLUDE", Some "INCLUDED");
        ("B", Some "INCLUDE", None);
        ("N", Some "INCLUDE", None)].
Proof. split; vm_compute; reflexivity. Qed.

(** C9, an instance: one included document, a cap of 3. *)
Lemma round_count_instance :
  exists rep rest,
    SnowballingAgent.reports
      (SnowballingAgent.run silent_world three_rounds two_rows) = rep :: rest
    /\ rep <> SnowballingAgent.NoIncluded.
Proof.
  apply (proj1 (round_count silent_world three_rounds two_rows)).
  - vm_compute. discriminate.
  - exists (included "A"). split; [by left|reflexivity].
Defined.

(** C9 as stated fails: with a cap of 0 no round is made although a
    document is INCLUDED. *)
Lemma no_round_with_cap_zero :
  (exists r, In r two_rows /\ final_status r = Some "INCLUDED")
  /\ SnowballingAgent.reports
       (SnowballingAgent.run silent_world no_rounds two_rows) = [].
Proof.
  split; [|reflexivity]. exists (included "A"). split; [by left|reflexivity].
Qed.

(** ** Storage and deduplication *)

(** C5, an instance: a document whose id is stored. *)
Lemma upsert_stored_id_instance :
  upsert_papers two_rows [doc "A" (Some "10.5/other") "Another title"]
  = (two_rows, 0).
Proof.
  apply (proj2 (proj2 (upsert_papers_idempotent two_rows []))).
  vm_compute. by left.
Defined.

(** C4, an instance: three documents share one DOI in two result
    sets; the first is kept and no other kept document has its DOI. *)
Lemma shared_doi_instance :
  exists k1 k2,
    SearchAgent.kept
      (SearchAgent.run [] [Some [first_doc; second_doc]] [Some [third_doc]])
    = k1 ++ first_doc :: k2
    /\ forall q, In q (k1 ++ k2) ->
                 SearchAgent.doi_key q <> SearchAgent.doi_key first_doc.
Proof.
  destruct (dedup_drops_seen [] first_doc ∅ ∅ []
              [Some [first_doc; second_doc]] [Some [third_doc]])
    as (_ & _ & _ & _ & H).
  apply (H [second_doc; third_doc]).
  - reflexivity.
  - vm_compute. discriminate.
  - intros q [].
  - intros q [].
Defined.

(** C4 as stated fails: the first document met with DOI 10.3/d is
    dropped for its title key, and a later document with that DOI is
    the one kept; a kept document without DOI adds nothing to the DOI
    seen-set. *)
Lemma first_with_doi_not_kept :
  SearchAgent.kept
    (SearchAgent.run [] [Some [other_doc; shadowed_doc]] [Some [later_doc]])
  = [other_doc; later_doc]
  /\ map row_id
         (SearchAgent.conn
            (SearchAgent.run [] [Some [other_doc; shadowed_doc]]
               [Some [later_doc]]))
     = ["o"; "l"]
  /\ SearchAgent.doi_key shadowed_doc = "10.3/d"
  /\ SearchAgent.doi_key later_doc = "10.3/d"
  /\ SearchAgent.unique (SearchAgent._deduplicate [no_doi_doc] ∅ ∅)
     = [no_doi_doc]
  /\ SearchAgent.seen_dois (SearchAgent._deduplicate [no_doi_doc] ∅ ∅) = ∅.
Proof. repeat split; vm_compute; reflexivity. Qed.

(** C10, an instance: a new DOI does not save a document whose title
    key is seen, and a title of punctuation has the empty key. *)
Lemma seen_title_instance :
  SearchAgent.unique
    (SearchAgent._deduplicate [shadowed_doc] ∅ {["sametitle"]}) = []
  /\ SearchAgent._title_key "?! - (...)" = "".
Proof.
  destruct (title_key_alone_drops shadowed_doc ∅ {["sametitle"]}
              "?! - (...)" [] [] []) as (H1 & H2 & _).
  split.
  - apply H1. apply elem_of_singleton. vm_compute. reflexivity.
  - apply H2. repeat constructor.
Defined.

(** ** Commit pass *)

(** C8, an instance: a decision for an id that is not stored, with a
    label that is none of the three. *)
Lemma unknown_id_instance :
  ScreeningAgent.c_store
    (ScreeningAgent.commit_step
       (ScreeningAgent.mk_commit two_rows (ScreeningAgent.mk_pass1 0 0 0) [])
       (says "Z" "maybe"))
  = two_rows
  /\ ScreeningAgent.label (says "Z" "maybe") = "BORDERLINE".
Proof.
  destruct (commit_ignores_unknown_ids
              (ScreeningAgent.mk_commit two_rows (ScreeningAgent.mk_pass1 0 0 0) [])
              (says "Z" "maybe")) as (_ & H2 & _ & H4).
  split.
  - apply (H2 "Z"); [reflexivity|]. vm_compute. intros [H|[H|[]]]; discriminate.
  - apply (H4 "maybe"); [reflexivity|vm_compute; discriminate..].
Defined.

(** C8 as stated fails: the batch submitted is [B] alone, yet the
    decision naming the stored document [A] rewrites it; and the label
    [include], which is not the string INCLUDE, is recorded as
    INCLUDE. *)
Lemma stray_decision_rewrites_row :
  map row_id (ScreeningAgent.unscreened two_rows) = ["B"]
  /\ find_row two_rows "A" = Some (included "A")
  /\ (final_status
        <$> find_row (ScreeningAgent.r_store
                        (ScreeningAgent.run_pass1 two_rows stray_answer [0]))
              "A")
     = Some (Some "EXCLUDED")
  /\ "include" <> "INCLUDE"
  /\ (screening_pass1
        <$> find_row (ScreeningAgent.r_store
                        (ScreeningAgent.run_pass1 two_rows stray_answer [0]))
              "B")
     = Some (Some "INCLUDE").
Proof. repeat split; try (vm_compute; reflexivity). discriminate. Qed.

(** ** Scores *)

(** C6, an instance: no shared token. *)
Lemma disjoint_question_instance :
  (RelevanceAgent.keyword_score "deep learning" pottery_row == 0)%Q.
Proof.
  apply (proj1 (proj2 (proj2 (relevance_score_bounds 0 "deep learning"
                                pottery_row [] [] (fun _ => 0%Q))))).
  vm_compute. reflexivity.
Defined.

(** C6 as stated fails: one shared token out of seven gives 21.4, not
    150/7. *)
Lemma keyword_score_is_rounded :
  size (RelevanceAgent._tokenise question
        ∩ RelevanceAgent._tokenise (RelevanceAgent.text_of alpha_row)) = 1
  /\ size (RelevanceAgent._tokenise question) = 7
  /\ (RelevanceAgent.keyword_score question alpha_row == 214 # 10)%Q
  /\ ~ (RelevanceAgent.keyword_score question alpha_row
        == Relevance.keyword_formula 1 7)%Q.
Proof.
  repeat split; try (vm_compute; reflexivity).
  vm_compute. discriminate.
Qed.



End instances.

(** * Further statements at concrete inputs *)

Section more_instances.
Import database Examples MoreExamples.


Lemma two_rows_ok : store_ok two_rows.
Proof. split; [compute_done|]. repeat constructor; discriminate. Defined.


(** X1, an instance: a new document and a stored one. *)
Lemma upsert_keeps_key_instance :
  store_ok (fst (upsert_papers two_rows new_and_stored))
  /\ length (fst (upsert_papers two_rows new_and_stored))
     = length two_rows + snd (upsert_papers two_rows new_and_stored).
Proof.
  apply upsert_papers_keeps_key.
  - exact two_rows_ok.
  - repeat constructor; discriminate.
Defined.

(** X3, an instance: excluding the document [B]. *)
Lemma update_then_find_instance :
  map row_id (update_paper two_rows "B" (set_final_status (Some "EXCLUDED")))
  = map row_id two_rows
  /\ find_row (update_paper two_rows "B" (set_final_status (Some "EXCLUDED")))
       "A"
     = (if String.eqb "A" "B"
        then set_final_status (Some "EXCLUDED") <$> find_row two_rows "B"
        else find_row two_rows "A")
  /\ (find_row two_rows "B" = None ->
      update_paper two_rows "B" (set_final_status (Some "EXCLUDED"))
      = two_rows).
Proof.
  apply update_paper_then_find. intros r. reflexivity.
Defined.

(** X5, an instance: one included and one unscreened document. *)
Lemma count_classes_instance :
  c_unscreened (count_papers two_rows)
  = count_where
      (fun r => negb (is_status "INCLUDED" r)
                && negb (is_status "EXCLUDED" r)
                && negb (col_matches (Some "BORDERLINE") (screening_pass1 r)
                         && negb (bool_decide (is_Some (human_decision r)))))
      two_rows
  /\ (0 <= c_unscreened (count_papers two_rows))%Z.
Proof.
  apply count_papers_classes_disjoint.
  repeat constructor; cbn; intros; try discriminate; auto.
Defined.

(** X7, an instance: two documents in batches of 20. *)
Lemma make_batches_instance :
  concat (ScreeningAgent.make_batches 20 unscreened_rows) = unscreened_rows
  /\ Forall (fun b => 1 <= length b <= 20)
            (ScreeningAgent.make_batches 20 unscreened_rows)
  /\ (forall i b,
        ScreeningAgent.make_batches 20 unscreened_rows !! i = Some b ->
        S i < length (ScreeningAgent.make_batches 20 unscreened_rows) ->
        length b = 20)
  /\ length unscreened_rows
     <= length (ScreeningAgent.make_batches 20 unscreened_rows) * 20
     < length unscreened_rows + 20.
Proof. apply make_batches_shape. lia. Defined.




(** X17, an instance: look-ups of at most one document. *)
Lemma gather_bounds_instance :
  length (SnowballingAgent.gather generous_world 1 "both" ∅ [included "A"] [])
  <= 1999 + 2 * 1.
Proof.
  apply (gather_bounds generous_world 1 "both" ∅ [included "A"] 1).
  - intros oa_id l [= <-]. cbn. lia.
  - intros oa_id l [= <-]. cbn. lia.
Defined.


(** X23, an instance: the one assessment fails and the defaults are
    stored. *)
Lemma quality_assesses_all_instance :
  QualityAgent.unassessed (QualityAgent.run included_rows quality_fails [0])
  = [].
Proof.
  apply (quality_run_assesses_all included_rows quality_fails [0]).
  - compute_done.
  - vm_compute. reflexivity.
Defined.

(** X27, an instance: one page of one work. *)
Lemma paginate_lengths_instance :
  match openalex_client.get_references digest last_page 100 with
  | Some l => length l <= Nat.pred 100 + 50
  | None => True
  end.
Proof.
  destruct (paginate_lengths digest last_page 100 50) as [H _];
    [repeat constructor|].
  destruct (openalex_client.get_references digest last_page 100) as [l|];
    [|exact I].
  exact (H l eq_refl).
Defined.

(** X28, an instance: the index of "a b a". *)
Lemma reconstruct_abstract_instance :
  openalex_client.reconstruct_abstract (Some an_index)
  = String.concat " " its_words.
Proof.
  apply reconstruct_abstract_round_trip. apply perm_swap.
Defined.


(** X30, an instance: a DOI that is one blank. *)
Lemma blank_doi_instance :
  SearchAgent.doi_key blank_doi_doc = ""
  /\ SearchAgent.seen_dois
       (SearchAgent.dedup_step (SearchAgent._deduplicate [first_doc] ∅ ∅)
          blank_doi_doc)
     = SearchAgent.seen_dois (SearchAgent._deduplicate [first_doc] ∅ ∅)
  /\ SearchAgent.dropped
       (SearchAgent.seen_dois (SearchAgent._deduplicate [first_doc] ∅ ∅))
       (SearchAgent.seen_titles (SearchAgent._deduplicate [first_doc] ∅ ∅))
       blank_doi_doc
     = bool_decide
         (SearchAgent._title_key (p_title blank_doi_doc)
          ∈ SearchAgent.seen_titles (SearchAgent._deduplicate [first_doc] ∅ ∅)).
Proof.
  apply blank_doi_dedup. repeat constructor.
Defined.

End more_instances.
